(** * ProjectMAPPER: selection-driven traversal engine

    A shallow embedding of the selection core of [_ProjectMAPPER.py]:
    the exclusion matcher, the selection store with its effective-selection
    query, the persisted configuration, the background directory scan, the
    tri-state display projection, the binary classifier and the backup
    driver, followed by the properties stated about them.

    Conventions.  Python [str] is [string] (bytes, ASCII case mapping);
    a Python [set] of strings is a [gset string]; a Python [dict] is an
    insertion-ordered association list with unique keys ([dict]); a
    [pathlib] path is a record of its anchor and its components.  The file
    system, the clock and the user are inputs of the functions that consult
    them. *)

From stdpp Require Import gmap strings list.
From Stdlib Require Import Ascii Sorted.



(* ===================================================================== *)
(** * Strings *)
(* ===================================================================== *)

Module Str.

(** [s.startswith(pre)] *)
Fixpoint startswith (s pre : string) : bool :=
  match pre, s with
  | EmptyString, _ => true
  | String a pre', String b s' => if Ascii.eqb a b then startswith s' pre' else false
  | String _ _, EmptyString => false
  end.

(** [s.endswith(suf)]: [s] is [suf], or the rest of [s] ends with [suf]. *)
Fixpoint endswith (s suf : string) : bool :=
  if String.eqb s suf then true
  else match s with
       | EmptyString => false
       | String _ s' => endswith s' suf
       end.

(** [s[1:]] *)
Definition slice_from_1 (s : string) : string :=
  match s with
  | EmptyString => EmptyString
  | String _ s' => s'
  end.

(** [c.lower()] on the ASCII range. *)
Definition lower_ascii (c : ascii) : ascii :=
  let n := nat_of_ascii c in
  if (65 <=? n)%nat && (n <=? 90)%nat then ascii_of_nat (n + 32) else c.

(** [s.lower()] *)
Fixpoint lower (s : string) : string :=
  match s with
  | EmptyString => EmptyString
  | String c s' => String (lower_ascii c) (lower s')
  end.

(** [s.lstrip(c)] *)
Fixpoint lstrip (c : ascii) (s : string) : string :=
  match s with
  | EmptyString => EmptyString
  | String a s' => if Ascii.eqb a c then lstrip c s' else s
  end.

(** [s.split(c)]: never empty, the empty string splits to [[""]]. *)
Fixpoint split (c : ascii) (s : string) : list string :=
  match s with
  | EmptyString => [EmptyString]
  | String a s' =>
      if Ascii.eqb a c then EmptyString :: split c s'
      else match split c s' with
           | [] => [String a EmptyString]
           | w :: ws => String a w :: ws
           end
  end.

(** [sep.join(l)] for a one-character separator. *)
Fixpoint join (c : ascii) (l : list string) : string :=
  match l with
  | [] => EmptyString
  | [w] => w
  | w :: ws => w +:+ String c (join c ws)
  end.

(** [c in s] *)
Fixpoint contains (c : ascii) (s : string) : bool :=
  match s with
  | EmptyString => false
  | String a s' => Ascii.eqb a c || contains c s'
  end.

End Str.

(* ===================================================================== *)
(** * Python dictionaries *)
(* ===================================================================== *)

(** A [dict] keeps its keys in insertion order; assigning to a key that is
    present overwrites the value in place, assigning to a new key appends. *)
Definition dict (V : Type) := list (string * V).

Fixpoint dict_get {V} (d : dict V) (k : string) : option V :=
  match d with
  | [] => None
  | (k', v) :: d' => if String.eqb k' k then Some v else dict_get d' k
  end.

(** [d.get(k, default)] *)
Definition dict_get_default {V} (d : dict V) (k : string) (default : V) : V :=
  match dict_get d k with
  | Some v => v
  | None => default
  end.

(** [k in d] *)
Definition dict_has {V} (d : dict V) (k : string) : bool :=
  match dict_get d k with
  | Some _ => true
  | None => false
  end.

(** [d[k] = v] *)
Fixpoint dict_set {V} (k : string) (v : V) (d : dict V) : dict V :=
  match d with
  | [] => [(k, v)]
  | (k', v') :: d' =>
      if String.eqb k' k then (k, v) :: d' else (k', v') :: dict_set k v d'
  end.

Definition dict_keys {V} (d : dict V) : list string := d.*1.

(* ===================================================================== *)
(** * Constants *)
(* ===================================================================== *)

Definition MAX_SCAN_TIME_SECONDS : Z := 20.

Definition EXCLUDED_FOLDERS : gset string :=
  list_to_set
    [ "node_modules"; ".git"; "__pycache__"; ".venv"; ".mypy_cache";
      "_logs"; "dist"; "build"; ".vscode"; ".idea"; "target"; "out";
      "bin"; "obj"; "Debug"; "Release"; "logs" ].

Definition PREDEFINED_EXCLUDED_FILENAMES : gset string :=
  list_to_set
    [ "package-lock.json"; "yarn.lock"; ".DS_Store"; "Thumbs.db";
      "*.pyc"; "*.pyo"; "*.swp"; "*.swo" ].

Definition FORCE_BINARY_EXTENSIONS_FOR_DUMP : gset string :=
  list_to_set
    [ ".tar.gz"; ".gz"; ".zip"; ".rar"; ".7z"; ".bz2"; ".xz"; ".tgz";
      ".png"; ".jpg"; ".jpeg"; ".gif"; ".bmp"; ".ico"; ".webp"; ".tif"; ".tiff";
      ".mp3"; ".wav"; ".ogg"; ".flac"; ".aac"; ".m4a";
      ".mp4"; ".mkv"; ".avi"; ".mov"; ".webm"; ".flv"; ".wmv";
      ".pdf"; ".doc"; ".docx"; ".xls"; ".xlsx"; ".ppt"; ".pptx"; ".odt"; ".ods"; ".odp";
      ".exe"; ".dll"; ".so"; ".o"; ".a"; ".lib"; ".app"; ".dmg"; ".deb"; ".rpm";
      ".db"; ".sqlite"; ".mdb"; ".accdb"; ".dat"; ".idx"; ".pickle"; ".joblib";
      ".pyc"; ".pyo"; ".class"; ".jar"; ".wasm";
      ".ttf"; ".otf"; ".woff"; ".woff2";
      ".iso"; ".img"; ".bin"; ".bak"; ".data"; ".asset"; ".pak" ].

Definition LOG_SUBDIR_ROOT : string := "_logs".
Definition LOG_SUBDIR_BACKUP : string := "_projectBACKUP_zips".
Definition PROJECT_CONFIG_FILENAME : string := "_project_mapper_config.json".

(** The two values a tree item's explicit state takes ([S_CHECKED] is the
    string ["checked"], [S_UNCHECKED] the string ["unchecked"]); every write
    to [folder_tree_item_states] stores one of the two. *)
Inductive check_state := S_CHECKED | S_UNCHECKED.

#[global] Instance check_state_eq_dec : EqDecision check_state.
Proof. solve_decision. Defined.

Definition state_str (s : check_state) : string :=
  match s with
  | S_CHECKED => "checked"
  | S_UNCHECKED => "unchecked"
  end.

(** [state in [S_CHECKED, S_UNCHECKED]], with the state it denotes. *)
Definition state_of_str (s : string) : option check_state :=
  if String.eqb s "checked" then Some S_CHECKED
  else if String.eqb s "unchecked" then Some S_UNCHECKED
  else None.

Inductive glyph := GLYPH_CHECKED | GLYPH_UNCHECKED | GLYPH_TRISTATE.

#[global] Instance glyph_eq_dec : EqDecision glyph.
Proof. solve_decision. Defined.

Definition glyph_str (g : glyph) : string :=
  match g with
  | GLYPH_CHECKED => "[X]"
  | GLYPH_UNCHECKED => "[ ]"
  | GLYPH_TRISTATE => "[/]"
  end.

(* ===================================================================== *)
(** * Paths *)
(* ===================================================================== *)

(** A POSIX [pathlib] path: whether it is anchored at ["/"], and its
    components below the anchor.  [Path(".")] has no components. *)
Record Path := mkPath { is_absolute : bool; parts : list string }.

#[global] Instance Path_eq_dec : EqDecision Path.
Proof. solve_decision. Defined.

Definition slash : ascii := "/"%char.
Definition dot : ascii := "."%char.

(** [str(p)] *)
Definition path_str (p : Path) : string :=
  if is_absolute p then String slash (Str.join slash (parts p))
  else match parts p with
       | [] => "."
       | _ => Str.join slash (parts p)
       end.

(** A component that survives [Path(s)]: not empty and not ["."]. *)
Definition keeps_component (c : string) : bool :=
  negb (String.eqb c "") && negb (String.eqb c ".").

(** [Path(s)]: split at the slashes, drop empty and ["."] components
    (the implementation-defined root ["//"] is read as ["/"]). *)
Definition Path_of_str (s : string) : Path :=
  {| is_absolute := Str.startswith s "/";
     parts := List.filter keeps_component (Str.split slash s) |}.

(** [p.parent] *)
Definition Path_parent (p : Path) : Path :=
  {| is_absolute := is_absolute p; parts := removelast (parts p) |}.

(** [p.name] *)
Definition Path_name (p : Path) : string := List.last (parts p) "".

(** [p / c] for one component [c] *)
Definition child (p : Path) (c : string) : Path :=
  {| is_absolute := is_absolute p; parts := parts p ++ [c] |}.

(** [p.is_relative_to(r)] *)
Definition is_relative_to (p r : Path) : bool :=
  bool_decide (is_absolute p = is_absolute r)
  && bool_decide (parts r `prefix_of` parts p).

(** [p.relative_to(r)]; [None] is [ValueError]. *)
Definition relative_to (p r : Path) : option Path :=
  if is_relative_to p r
  then Some {| is_absolute := false; parts := drop (length (parts r)) (parts p) |}
  else None.

(** [r.joinpath(q)] *)
Definition joinpath (r q : Path) : Path :=
  if is_absolute q then q
  else {| is_absolute := is_absolute r; parts := parts r ++ parts q |}.

(** The values [p] takes under [p = p.parent], from [p] itself up to the
    point where [p.parent == p]. *)
Definition path_chain (p : Path) : list Path :=
  (fun n => {| is_absolute := is_absolute p; parts := take n (parts p) |})
    <$> rev (seq 0 (S (length (parts p)))).

(* ===================================================================== *)
(** * The file system as the selection code sees it *)
(* ===================================================================== *)

Record FileSystem := {
  fs_app_dir : Path;                   (* [APP_DIR] *)
  fs_cwd : Path;                       (* [os.getcwd()], an absolute path *)
  fs_is_dir : Path -> bool;            (* what [p.is_dir()] returns *)
  fs_is_dir_raises : Path -> bool;     (* [p.is_dir()] raises instead: an
                                          [OSError] other than ENOENT, ENOTDIR,
                                          EBADF and ELOOP, such as ENAMETOOLONG *)
  fs_exists : Path -> bool;            (* [p.exists()] *)
  fs_resolve : Path -> option Path;    (* [p.resolve()]; [None]: it raised *)
  fs_read : Path -> option (list Byte.byte);
                                       (* the bytes [open(p, 'rb')] gives;
                                          [None]: opening or reading raised *)
  fs_mkdir : Path -> bool;             (* [p.mkdir(parents=True, exist_ok=True)]
                                          did not raise *)
  fs_writable : Path -> bool;          (* opening [p] for writing succeeds *)
  fs_removable : Path -> bool;         (* [os.remove(p)] succeeds *)
  fs_size_label : Path -> string       (* [format_display_size(get_folder_size_bytes(p))] *)
}.

(* ===================================================================== *)
(** * Effective selection *)
(* ===================================================================== *)

(** The body of the [while True] loop of [is_path_effectively_selected],
    run over the successive values of [p]. *)
Fixpoint select_loop (folder_tree_item_states : dict check_state)
    (project_root : Path) (chain : list Path) : bool :=
  match chain with
  | [] => false
  | p :: up =>
      let path_str_ := path_str p in
      let explicit_state := dict_get folder_tree_item_states path_str_ in
      if bool_decide (explicit_state = Some S_UNCHECKED) then false
      else if bool_decide (explicit_state = None) && bool_decide (p ≠ project_root)
      then false
      else if bool_decide (p = project_root)
      then bool_decide
             (dict_get_default folder_tree_item_states (path_str project_root) S_CHECKED
              = S_CHECKED)
      else select_loop folder_tree_item_states project_root up
  end.

(** [is_path_effectively_selected(path_to_check, project_root)]: the value
    that the call returns, [project_root.is_dir()] having returned one (the
    call as a whole, which an exception of [is_dir] can leave, is
    [is_path_effectively_selected_call] below). *)
Definition is_path_effectively_selected (fs : FileSystem)
    (folder_tree_item_states : dict check_state)
    (path_to_check : Path) (project_root : option Path) : bool :=
  match project_root with
  | None => false
  | Some project_root =>
      if negb (fs_is_dir fs project_root) then false
      else
        match fs_resolve fs path_to_check with
        | None => false
        | Some current_path =>
            match fs_resolve fs project_root with
            | None => false
            | Some project_root =>
                if bool_decide (current_path ≠ project_root)
                   && negb (is_relative_to current_path project_root)
                then false
                else select_loop folder_tree_item_states project_root
                       (path_chain current_path)
            end
        end
  end.

(** How a call ends: it returns a value, or an exception leaves it. *)
Inductive call_result (A : Type) :=
| Returns (a : A)
| Raises_OSError.
Arguments Returns {A} a.
Arguments Raises_OSError {A}.

(** The call [is_path_effectively_selected(path_to_check, project_root)]
    with the exception that can leave it: [project_root.is_dir()] stands
    before the [try] block, and [is_dir] lets through every [OSError] that
    is not one of ENOENT, ENOTDIR, EBADF and ELOOP.  Where [is_dir] returns,
    the call returns what [is_path_effectively_selected] above computes. *)
Definition is_path_effectively_selected_call (fs : FileSystem)
    (folder_tree_item_states : dict check_state)
    (path_to_check : Path) (project_root : option Path) : call_result bool :=
  match project_root with
  | None => Returns false
  | Some project_root =>
      if fs_is_dir_raises fs project_root then Raises_OSError
      else if negb (fs_is_dir fs project_root) then Returns false
      else
        match fs_resolve fs path_to_check with
        | None => Returns false
        | Some current_path =>
            match fs_resolve fs project_root with
            | None => Returns false
            | Some project_root =>
                if bool_decide (current_path ≠ project_root)
                   && negb (is_relative_to current_path project_root)
                then Returns false
                else Returns (select_loop folder_tree_item_states project_root
                                (path_chain current_path))
            end
        end
  end.

(** [on_tree_item_click], the part that touches the store: an item that is
    not tracked is ignored, a tracked one has its explicit state flipped. *)
Definition on_tree_item_click (folder_tree_item_states : dict check_state)
    (item_id : string) : dict check_state :=
  match dict_get folder_tree_item_states item_id with
  | None => folder_tree_item_states
  | Some current_explicit_state =>
      let new_explicit_state :=
        if bool_decide (current_explicit_state = S_UNCHECKED)
        then S_CHECKED else S_UNCHECKED in
      dict_set item_id new_explicit_state folder_tree_item_states
  end.

(* ===================================================================== *)
(** * Filename exclusion *)
(* ===================================================================== *)

(** The [for pattern in all_exclusion_patterns] loop of
    [should_exclude_file]. *)
Fixpoint exclusion_loop (patterns : list string) (filename : string) : bool :=
  match patterns with
  | [] => false
  | pattern :: rest =>
      if String.eqb pattern "" then exclusion_loop rest filename
      else if Str.startswith pattern "*." then
        if Str.endswith filename (Str.slice_from_1 pattern) then true
        else exclusion_loop rest filename
      else
        if String.eqb pattern filename then true
        else exclusion_loop rest filename
  end.

Definition should_exclude_file (dynamic_global_excluded_filenames : gset string)
    (filename : string) : bool :=
  let all_exclusion_patterns :=
    PREDEFINED_EXCLUDED_FILENAMES ∪ dynamic_global_excluded_filenames in
  exclusion_loop (elements all_exclusion_patterns) filename.

(* ===================================================================== *)
(** * Binary classification *)
(* ===================================================================== *)

(** [p.suffixes] of [pathlib]: none when the name ends with a dot; else the
    dot-separated pieces after the first one of the name without its leading
    dots, each with its dot. *)
Definition suffixes (p : Path) : list string :=
  let name := Path_name p in
  if Str.endswith name "." then []
  else (fun suffix => String dot suffix)
         <$> tail (Str.split dot (Str.lstrip dot name)).

(** [b'\0' in chunk] *)
Definition has_zero_byte (chunk : list Byte.byte) : bool :=
  existsb (Byte.eqb Byte.x00) chunk.

Definition is_binary (fs : FileSystem) (file_path : Path) : bool :=
  if bool_decide
       (Str.lower (String.concat "" (suffixes file_path))
        ∈ FORCE_BINARY_EXTENSIONS_FOR_DUMP)
  then true
  else match fs_read fs file_path with
       | Some content => has_zero_byte (take 1024 content)
       | None => true
       end.

(* ===================================================================== *)
(** * Seeding of explicit states at scan time *)
(* ===================================================================== *)

(** Lines 549-551 of [_scan_recursive]: the state given to a directory [p]
    found by the walk. *)
Definition seed_state (persisted_states : dict check_state)
    (path_str_ relative_path_str p_name : string) : check_state :=
  let initial_state :=
    dict_get_default persisted_states path_str_
      (dict_get_default persisted_states relative_path_str S_CHECKED) in
  if bool_decide (p_name ∈ EXCLUDED_FOLDERS)
     && negb (dict_has persisted_states path_str_)
     && negb (dict_has persisted_states relative_path_str)
  then S_UNCHECKED
  else initial_state.

(** Line 566 of [_worker_build_tree_data]: the state given to the root. *)
Definition root_seed_state (persisted_states : dict check_state)
    (root_path_str : string) : check_state :=
  dict_get_default persisted_states root_path_str
    (dict_get_default persisted_states "." S_CHECKED).

(* ===================================================================== *)
(** * Persisted configuration *)
(* ===================================================================== *)

(** [sorted(l, key=...)]: a stable insertion sort for the order [le]. *)
Fixpoint insert_sorted {A} (le : A -> A -> bool) (x : A) (l : list A) : list A :=
  match l with
  | [] => [x]
  | y :: l' => if le x y then x :: l else y :: insert_sorted le x l'
  end.

Definition sorted {A} (le : A -> A -> bool) (l : list A) : list A :=
  foldr (insert_sorted le) [] l.

(** The JSON document of one project. *)
Record config := {
  folder_states : dict string;
  dynamic_file_exclusions : list string
}.

(** What a file holds, as far as [json.load] is concerned. *)
Inductive file_content :=
| NotJson
| ConfigJson (c : config).

(** The files on disk, by path string. *)
Abbreviation files := (gmap string file_content).

(** [get_log_output_dir(selected_root_path, sub_dir_key, ensure_exists=True)]
    for a root that is a [Path]. *)
Definition get_log_output_dir (fs : FileSystem) (selected_root_path : Path)
    (sub_dir_key : option string) : option Path :=
  let base_log_dir := child selected_root_path LOG_SUBDIR_ROOT in
  let target_dir :=
    match sub_dir_key with
    | Some k => child base_log_dir k
    | None => base_log_dir
    end in
  if fs_mkdir fs target_dir then Some target_dir
  else
    let fb_dir_base := child (fs_app_dir fs) "_projectMAPPER_fallback_logs" in
    let fb_dir :=
      match sub_dir_key with
      | Some k => child fb_dir_base k
      | None => fb_dir_base
      end in
    if fs_mkdir fs fb_dir then Some fb_dir else None.

Definition get_project_config_file_path (fs : FileSystem) (project_root : Path)
    : option Path :=
  match get_log_output_dir fs project_root None with
  | Some log_dir => Some (child log_dir PROJECT_CONFIG_FILENAME)
  | None => None
  end.

(** The key under which [save_project_config] stores the state of
    [abs_path_str]. *)
Definition relative_key (project_root : Path) (abs_path_str : string) : string :=
  let abs_path := Path_of_str abs_path_str in
  if is_absolute abs_path && is_absolute project_root
     && is_relative_to abs_path project_root
  then match relative_to abs_path project_root with
       | Some rel => path_str rel
       | None => abs_path_str
       end
  else abs_path_str.

Definition save_project_config (fs : FileSystem)
    (folder_tree_item_states : dict check_state)
    (dynamic_global_excluded_filenames : gset string)
    (project_root : Path) (disk : files) : files :=
  if negb (fs_is_dir fs project_root) then disk
  else
    match get_project_config_file_path fs project_root with
    | None => disk
    | Some config_file_path =>
        let relative_folder_states :=
          fold_left
            (fun acc '(abs_path_str, state) =>
               dict_set (relative_key project_root abs_path_str) (state_str state) acc)
            folder_tree_item_states [] in
        let config_to_save :=
          {| folder_states := relative_folder_states;
             dynamic_file_exclusions :=
               sorted String.leb (elements dynamic_global_excluded_filenames) |} in
        if fs_writable fs config_file_path
        then <[path_str config_file_path := ConfigJson config_to_save]> disk
        else disk
    end.

(** One round of the [for rel_path_str, state in ...] loop of
    [load_project_config]. *)
Definition load_folder_state (fs : FileSystem) (project_root : Path)
    (loaded_abs_folder_states : dict check_state)
    (rel_path_str state : string) : dict check_state :=
  match state_of_str state with
  | None => loaded_abs_folder_states
  | Some st =>
      match fs_resolve fs (joinpath project_root (Path_of_str rel_path_str)) with
      | Some abs_path => dict_set (path_str abs_path) st loaded_abs_folder_states
      | None =>
          let potential_abs_path := Path_of_str rel_path_str in
          if is_absolute potential_abs_path && fs_exists fs potential_abs_path
          then dict_set (path_str potential_abs_path) st loaded_abs_folder_states
          else loaded_abs_folder_states
      end
  end.

(** [load_project_config]: the states it returns, and the value it leaves in
    [dynamic_global_excluded_filenames]. *)
Definition load_project_config (fs : FileSystem) (project_root : Path)
    (disk : files) : dict check_state * gset string :=
  if negb (fs_is_dir fs project_root) then ([], ∅)
  else
    match get_project_config_file_path fs project_root with
    | None => ([], ∅)
    | Some config_file_path =>
        match disk !! path_str config_file_path with
        | None => ([], ∅)
        | Some NotJson => ([], ∅)
        | Some (ConfigJson config_data) =>
            (fold_left
               (fun acc '(rel_path_str, state) =>
                  load_folder_state fs project_root acc rel_path_str state)
               (folder_states config_data) [],
             list_to_set (dynamic_file_exclusions config_data))
        end
    end.

(* ===================================================================== *)
(** * The directory scan *)
(* ===================================================================== *)

(** What is on disk below a directory: files, and directories with their
    entries in [iterdir] order.  A directory without a listing is one whose
    [iterdir] raises [PermissionError] or [FileNotFoundError]. *)
#[warnings="-register-all"] Inductive fs_node :=
| File (fname : string)
| Dir (dname : string) (listing : option (list fs_node)).

Definition node_name (n : fs_node) : string :=
  match n with
  | File fname => fname
  | Dir dname _ => dname
  end.

Definition node_is_dir (n : fs_node) : bool :=
  match n with
  | File _ => false
  | Dir _ _ => true
  end.

(** One element of [tree_data]. *)
Record entry := {
  e_parent : string;
  e_iid : string;
  e_text : string;
  e_open : bool
}.

(** The clock and the user, as the worker meets them: the value of the
    [n]-th call of [time.time()] (in seconds), and the answer to the [n]-th
    "continue scanning?" request. *)
Record scan_env := {
  clock : nat -> Z;
  user_continues : nat -> bool
}.

Record scan_state := {
  start_time : Z;
  clock_reads : nat;
  user_asked : nat;
  tree_data : list entry;
  item_states : dict check_state     (* [folder_tree_item_states] *)
}.

Inductive scan_exn :=
| TimeoutError          (* raised by [_scan_recursive] on "abort" *)
| OtherException.       (* anything else that reaches [except Exception] *)

(** A computation of the worker: it ends normally or by an exception, and
    leaves a state either way. *)
Definition scan (A : Type) := scan_state -> (scan_exn + A) * scan_state.

Definition scan_ret {A} (a : A) : scan A := fun st => (inr a, st).

Definition scan_bind {A B} (m : scan A) (k : A -> scan B) : scan B :=
  fun st =>
    match m st with
    | (inl e, st') => (inl e, st')
    | (inr a, st') => k a st'
    end.

Definition scan_raise {A} (e : scan_exn) : scan A := fun st => (inl e, st).

Declare Scope scan_scope.
Delimit Scope scan_scope with scan.
Notation "x <- m ;; k" := (scan_bind m (fun x => k))
  (at level 100, m at next level, right associativity) : scan_scope.
Notation "m ;;; k" := (scan_bind m (fun _ => k))
  (at level 100, right associativity) : scan_scope.

(** [time.time()] *)
Definition time_time (env : scan_env) : scan Z :=
  fun st =>
    (inr (clock env (clock_reads st)),
     {| start_time := start_time st; clock_reads := S (clock_reads st);
        user_asked := user_asked st; tree_data := tree_data st;
        item_states := item_states st |}).

(** [ask_user_to_continue_safely()] *)
Definition ask_user_to_continue_safely (env : scan_env) : scan bool :=
  fun st =>
    (inr (user_continues env (user_asked st)),
     {| start_time := start_time st; clock_reads := clock_reads st;
        user_asked := S (user_asked st); tree_data := tree_data st;
        item_states := item_states st |}).

Definition set_start_time (t : Z) : scan unit :=
  fun st =>
    (inr tt,
     {| start_time := t; clock_reads := clock_reads st;
        user_asked := user_asked st; tree_data := tree_data st;
        item_states := item_states st |}).

Definition get_start_time : scan Z := fun st => (inr (start_time st), st).

(** [tree_data.append(e)] *)
Definition tree_data_append (e : entry) : scan unit :=
  fun st =>
    (inr tt,
     {| start_time := start_time st; clock_reads := clock_reads st;
        user_asked := user_asked st; tree_data := tree_data st ++ [e];
        item_states := item_states st |}).

(** [folder_tree_item_states[k] = v] *)
Definition set_item_state (k : string) (v : check_state) : scan unit :=
  fun st =>
    (inr tt,
     {| start_time := start_time st; clock_reads := clock_reads st;
        user_asked := user_asked st; tree_data := tree_data st;
        item_states := dict_set k v (item_states st) |}).

(** A [for] loop whose body may raise. *)
Fixpoint for_each {A} (l : list A) (body : A -> scan unit) : scan unit :=
  match l with
  | [] => scan_ret tt
  | x :: l' => scan_bind (body x) (fun _ => for_each l' body)
  end.

(** The head of [_scan_recursive]: the budget check and the round trip to
    the user. *)
Definition check_scan_timeout (env : scan_env) : scan unit :=
  (now <- time_time env ;;
   start <- get_start_time ;;
   if (now - start >? MAX_SCAN_TIME_SECONDS)%Z then
     (continue <- ask_user_to_continue_safely env ;;
      if negb continue then scan_raise TimeoutError
      else (t <- time_time env ;; set_start_time t))
   else scan_ret tt)%scan.

Definition error_entry (current_path : Path) (parent_iid : string) : entry :=
  {| e_parent := parent_iid;
     e_iid := "error_" +:+ Path_name current_path +:+ "_" +:+ parent_iid;
     e_text := "🚫 Error reading " +:+ Path_name current_path;
     e_open := false |}.

(** The body of the [for p in dirs_to_process] loop; [scan_p] is the
    recursive call on [p]. *)
Definition scan_directory_entry (fs : FileSystem) (project_root : Path)
    (persisted_states : dict check_state) (parent_iid : string)
    (p : Path) (scan_p : Path -> string -> scan unit) : scan unit :=
  match fs_resolve fs p with
  | None => scan_raise OtherException
  | Some resolved =>
      let path_str_ := path_str resolved in
      match relative_to p project_root with
      | None => scan_raise OtherException
      | Some rel =>
          let relative_path_str := path_str rel in
          let initial_state :=
            seed_state persisted_states path_str_ relative_path_str (Path_name p) in
          (set_item_state path_str_ initial_state ;;;
           tree_data_append
             {| e_parent := parent_iid; e_iid := path_str_;
                e_text := Path_name p +:+ " " +:+ fs_size_label fs p;
                e_open := false |} ;;;
           scan_p p path_str_)%scan
      end
  end.

(** The order of [sorted(..., key=lambda x: x.name.lower())]. *)
Definition name_lower_le {A} (x y : fs_node * A) : bool :=
  String.leb (Str.lower (node_name x.1)) (Str.lower (node_name y.1)).

(** [_scan_recursive(current_path, parent_iid)], where [t] is what the disk
    holds at [current_path]: a directory with its entries, a directory whose
    [iterdir] raises one of the two errors caught per directory, or a file,
    on which [iterdir] raises an error that is not caught there. *)
Fixpoint scan_recursive (env : scan_env) (fs : FileSystem) (project_root : Path)
    (persisted_states : dict check_state) (t : fs_node)
    (current_path : Path) (parent_iid : string) {struct t} : scan unit :=
  (check_scan_timeout env ;;;
   match t with
   | Dir _ (Some items) =>
       let dirs_to_process :=
         sorted name_lower_le
           (List.filter (fun it => node_is_dir it.1)
              ((fun item =>
                  (item, scan_recursive env fs project_root persisted_states item))
                 <$> items)) in
       for_each dirs_to_process
         (fun it =>
            scan_directory_entry fs project_root persisted_states parent_iid
              (child current_path (node_name it.1)) it.2)
   | Dir _ None => tree_data_append (error_entry current_path parent_iid)
   | File _ => scan_raise OtherException    (* [NotADirectoryError] *)
   end)%scan.

Definition timeout_entry : entry :=
  {| e_parent := ""; e_iid := "timeout_error";
     e_text := "⚠️ Scan Aborted by User (Timeout)"; e_open := true |}.

Definition scan_error_entry : entry :=
  {| e_parent := ""; e_iid := "scan_error";
     e_text := "CRITICAL: Failed to scan directory."; e_open := true |}.

(** The [try] block of [_worker_build_tree_data]. *)
Definition worker_try (env : scan_env) (fs : FileSystem) (disk : files)
    (project_root : Path) (t : fs_node) : scan unit :=
  let persisted_states := (load_project_config fs project_root disk).1 in
  match fs_resolve fs project_root with
  | None => scan_raise OtherException
  | Some resolved =>
      let root_path_str := path_str resolved in
      let root_state := root_seed_state persisted_states root_path_str in
      (set_item_state root_path_str root_state ;;;
       tree_data_append
         {| e_parent := ""; e_iid := root_path_str;
            e_text := Path_name project_root +:+ " (Project Root) "
                      +:+ fs_size_label fs project_root;
            e_open := true |} ;;;
       scan_recursive env fs project_root persisted_states t
         project_root root_path_str)%scan
  end.

(** How a scan ends (the state machine of the scanner). *)
Inductive scan_outcome := Completed | TimedOutAborted | Failed.

(** [_worker_build_tree_data]: the outcome, the [tree_data] handed to the
    coordinator and the [folder_tree_item_states] it leaves. *)
Definition worker_build_tree_data (env : scan_env) (fs : FileSystem)
    (disk : files) (project_root : Path) (t : fs_node)
    : scan_outcome * list entry * dict check_state :=
  let st0 :=
    {| start_time := clock env 0; clock_reads := 1; user_asked := 0;
       tree_data := []; item_states := [] |} in
  match worker_try env fs disk project_root t st0 with
  | (inr _, st) => (Completed, tree_data st, item_states st)
  | (inl TimeoutError, st) =>
      (TimedOutAborted, tree_data st ++ [timeout_entry], item_states st)
  | (inl OtherException, st) => (Failed, [scan_error_entry], item_states st)
  end.

(* ===================================================================== *)
(** * Display projection *)
(* ===================================================================== *)

(** An item of the tree widget with the items below it. *)
#[warnings="-register-all"] Inductive tree_item :=
| TreeItem (iid : string) (tags : list string) (children : list tree_item).

Definition item_iid (it : tree_item) : string :=
  match it with TreeItem iid _ _ => iid end.

Definition item_tags (it : tree_item) : list string :=
  match it with TreeItem _ tags _ => tags end.

(** [tree.get_children(item)] *)
Definition get_children (it : tree_item) : list tree_item :=
  match it with TreeItem _ _ children => children end.

(** The counting loop over the children of a node: the number of children
    that have an entry in the store, and how many of those are checked. *)
Definition count_children (folder_tree_item_states : dict check_state)
    (children : list string) : nat * nat :=
  fold_left
    (fun '(num_relevant_children, num_children_explicitly_checked) child_id =>
       if dict_has folder_tree_item_states child_id then
         (S num_relevant_children,
          if bool_decide (dict_get folder_tree_item_states child_id = Some S_CHECKED)
          then S num_children_explicitly_checked
          else num_children_explicitly_checked)
       else (num_relevant_children, num_children_explicitly_checked))
    children (0, 0).

(** The glyph [_update_node_visual_recursive] gives a node, and what it
    passes down as [parent_effectively_unchecked]. *)
Definition node_visual (folder_tree_item_states : dict check_state)
    (item_id_to_update : string) (children : list string)
    (parent_effectively_unchecked : bool) : glyph * bool :=
  let item_explicit_state :=
    dict_get_default folder_tree_item_states item_id_to_update S_UNCHECKED in
  if parent_effectively_unchecked || bool_decide (item_explicit_state = S_UNCHECKED)
  then (GLYPH_UNCHECKED, true)
  else
    match children with
    | [] => (GLYPH_CHECKED, false)
    | _ =>
        let '(num_relevant_children, num_children_explicitly_checked) :=
          count_children folder_tree_item_states children in
        if (num_relevant_children =? 0)%nat then (GLYPH_CHECKED, false)
        else if (num_children_explicitly_checked =? num_relevant_children)%nat
        then (GLYPH_CHECKED, false)
        else if (num_children_explicitly_checked =? 0)%nat
                && (0 <? num_relevant_children)%nat
        then (GLYPH_TRISTATE, false)
        else (GLYPH_TRISTATE, false)
    end.

(** [_update_node_visual_recursive]: the glyph every visited item is
    redrawn with, in the order of the visits. *)
Fixpoint update_node_visual_recursive (folder_tree_item_states : dict check_state)
    (item : tree_item) (parent_effectively_unchecked : bool)
    : list (string * glyph) :=
  match item with
  | TreeItem item_id_to_update tags children =>
      if bool_decide ("error_node" ∈ tags) then []
      else
        let '(current_visual_glyph, node_is_effectively_unchecked_for_children) :=
          node_visual folder_tree_item_states item_id_to_update
            (item_iid <$> children) parent_effectively_unchecked in
        (item_id_to_update, current_visual_glyph)
        :: concat
             ((fun child_id =>
                 update_node_visual_recursive folder_tree_item_states child_id
                   node_is_effectively_unchecked_for_children)
                <$> children)
  end.

(** The item with a given id among the items of the widget. *)
Fixpoint find_item (item_id : string) (it : tree_item) : option tree_item :=
  match it with
  | TreeItem iid _ children =>
      if String.eqb iid item_id then Some it
      else
        (fix find_in (l : list tree_item) : option tree_item :=
           match l with
           | [] => None
           | c :: l' =>
               match find_item item_id c with
               | Some r => Some r
               | None => find_in l'
               end
           end) children
  end.

Fixpoint find_top_level_item (item_id : string) (top_level : list tree_item)
    : option tree_item :=
  match top_level with
  | [] => None
  | it :: rest =>
      match find_item item_id it with
      | Some r => Some r
      | None => find_top_level_item item_id rest
      end
  end.

(** [refresh_tree_visuals(tree, root_item_id)] *)
Definition refresh_tree_visuals (folder_tree_item_states : dict check_state)
    (tree : list tree_item) (root_item_id : string) : list (string * glyph) :=
  match find_top_level_item root_item_id tree with
  | Some root_item => update_node_visual_recursive folder_tree_item_states root_item false
  | None => []
  end.

(* ===================================================================== *)
(** * Backup *)
(* ===================================================================== *)

(** The stem and the suffix that [pathlib] gives a final path component:
    the component is cut at its last dot unless that dot is its first or its
    last character. *)
Fixpoint rsplit_dot (s : string) : option (string * string) :=
  match s with
  | EmptyString => None
  | String c s' =>
      match rsplit_dot s' with
      | Some (a, b) => Some (String c a, b)
      | None => if Ascii.eqb c dot then Some (EmptyString, s) else None
      end
  end.

Definition stem_suffix (name : string) : string * string :=
  match rsplit_dot name with
  | Some (a, b) =>
      if negb (String.eqb a "") && negb (String.eqb b ".") then (a, b)
      else (name, "")
  | None => (name, "")
  end.

(** [apply_timestamp(name)], for the reading [timestamp] of the clock:
    [path_obj.stem] and [path_obj.suffix] are those of the final component
    of [Path(name)], which is empty for a path without components. *)
Definition apply_timestamp (timestamp name : string) : string :=
  let path_obj := Path_of_str name in
  let '(stem, suffix) := stem_suffix (Path_name path_obj) in
  stem +:+ "_" +:+ timestamp +:+ suffix.

(** The archive being written: the names added so far. *)
Record tar_state := {
  members : list Path;
  files_added_count : nat
}.

(** [os.path.abspath(p)]: the path made absolute with the working directory
    and normalised, a [".."] component taking back the component before it
    (and none at the root). *)
Fixpoint normpath_parts (stack ps : list string) : list string :=
  match ps with
  | [] => rev stack
  | c :: rest =>
      if String.eqb c ".." then normpath_parts (tail stack) rest
      else if keeps_component c then normpath_parts (c :: stack) rest
      else normpath_parts stack rest
  end.

Definition os_path_abspath (fs : FileSystem) (p : Path) : Path :=
  {| is_absolute := true;
     parts := normpath_parts [] (parts (joinpath (fs_cwd fs) p)) |}.

(** The [for file_name in file_names] loop, [tar_name] being the [name] of
    the open archive, the absolute path of its file: [inl] when
    [relative_to] or [tar.add] raised.  [tar.add] returns without adding
    anything when it is given the archive itself; the loop counts the file
    all the same. *)
Fixpoint add_files (fs : FileSystem) (dynamic : gset string) (tar_name : Path)
    (selected_root_path current_scan_dir : Path) (file_names : list string)
    (tar : tar_state) : tar_state + tar_state :=
  match file_names with
  | [] => inr tar
  | file_name :: rest =>
      if should_exclude_file dynamic file_name
      then add_files fs dynamic tar_name selected_root_path current_scan_dir rest tar
      else
        let file_path := child current_scan_dir file_name in
        match relative_to file_path selected_root_path with
        | None => inl tar
        | Some arcname =>
            if bool_decide (os_path_abspath fs file_path = tar_name)
            then
              add_files fs dynamic tar_name selected_root_path current_scan_dir rest
                {| members := members tar;
                   files_added_count := S (files_added_count tar) |}
            else
              match fs_read fs file_path with
              | Some _ =>
                  add_files fs dynamic tar_name selected_root_path current_scan_dir
                    rest
                    {| members := members tar ++ [arcname];
                       files_added_count := S (files_added_count tar) |}
              | None => inl tar
              end
        end
  end.

(** The [os.walk(selected_root_path, topdown=True)] loop with its body, at
    the directory [t] found at [current_scan_dir]. *)
Fixpoint walk_backup (fs : FileSystem) (store : dict check_state)
    (dynamic : gset string) (tar_name : Path) (selected_root_path : Path)
    (t : fs_node) (current_scan_dir : Path) (tar : tar_state) {struct t}
    : tar_state + tar_state :=
  match t with
  | Dir _ (Some items) =>
      let file_names := node_name <$> List.filter (fun n => negb (node_is_dir n)) items in
      let visits :=
        (fun d => (node_name d, node_is_dir d,
                   walk_backup fs store dynamic tar_name selected_root_path d))
          <$> items in
      let dir_names :=
        List.filter
          (fun v =>
             v.1.2 && is_path_effectively_selected fs store
                        (child current_scan_dir v.1.1) (Some selected_root_path))
          visits in
      let after_files :=
        if negb (is_path_effectively_selected fs store current_scan_dir
                   (Some selected_root_path))
        then inr tar
        else add_files fs dynamic tar_name selected_root_path current_scan_dir
               file_names tar in
      match after_files with
      | inl tar' => inl tar'
      | inr tar' =>
          fold_left
            (fun acc v =>
               match acc with
               | inl tar'' => inl tar''
               | inr tar'' => v.2 (child current_scan_dir v.1.1) tar''
               end)
            dir_names (inr tar')
      end
  | _ => inr tar
  end.

(** What the backup leaves behind: the archive file, if one is on disk, with
    the names it holds. *)
Record backup_result := {
  archive_on_disk : option (string * list Path);
  added : nat
}.

(** [backup_project_impl], for the root string of the entry field, the
    directory [t] on disk there, the reading [timestamp] of the clock, and
    [tgz_size name members]: the size in bytes of the [tar.gz] file of that
    name holding those members.  [None]: it returned before opening an
    archive. *)
Definition backup_project_impl (fs : FileSystem) (store : dict check_state)
    (dynamic : gset string) (tgz_size : string -> list Path -> nat)
    (timestamp : string) (selected_root_path_str : string) (t : fs_node)
    : option backup_result :=
  if String.eqb selected_root_path_str "" then None
  else
    let selected_root_path := Path_of_str selected_root_path_str in
    if negb (fs_is_dir fs selected_root_path) then None
    else
      match get_log_output_dir fs selected_root_path (Some LOG_SUBDIR_BACKUP) with
      | None => None
      | Some output_dir =>
          let backup_filename_base := Path_name selected_root_path +:+ "_backup" in
          let backup_file_name :=
            apply_timestamp timestamp (backup_filename_base +:+ ".tar.gz") in
          let backup_file_path := child output_dir backup_file_name in
          if negb (fs_writable fs backup_file_path)
          then Some {| archive_on_disk := None; added := 0 |}
          else
            let tar0 := {| members := []; files_added_count := 0 |} in
            let written :=
              if negb (is_path_effectively_selected fs store selected_root_path
                         (Some selected_root_path))
              then inr tar0
              else walk_backup fs store dynamic (os_path_abspath fs backup_file_path)
                     selected_root_path t selected_root_path tar0 in
            match written with
            | inl tar =>
                Some {| archive_on_disk := Some (backup_file_name, members tar);
                        added := files_added_count tar |}
            | inr tar =>
                if (0 <? files_added_count tar)%nat
                then Some {| archive_on_disk := Some (backup_file_name, members tar);
                             added := files_added_count tar |}
                else
                  if (tgz_size backup_file_name (members tar) <? 100)%nat
                     && fs_removable fs backup_file_path
                  then Some {| archive_on_disk := None; added := 0 |}
                  else Some {| archive_on_disk := Some (backup_file_name, members tar);
                               added := 0 |}
            end
      end.

(* ===================================================================== *)
(** * Vocabulary of the statements *)
(* ===================================================================== *)

(** [d] is a directory on the way from [root] down to [p], both included. *)
Definition on_chain (root p d : Path) : Prop :=
  is_relative_to d root = true /\ is_relative_to p d = true.

(** The explicit state of [d] as the selection query reads it: a missing
    state counts as unchecked, except for the root, where it counts as
    checked. *)
Definition chain_state (store : dict check_state) (root d : Path) : check_state :=
  match dict_get store (path_str d) with
  | Some s => s
  | None => if bool_decide (d = root) then S_CHECKED else S_UNCHECKED
  end.

(** The matching rule of the exclusion matcher, in the words of the
    specification: a pattern that starts with ["*."] excludes the names that
    end with what follows the star, any other pattern excludes the name
    equal to it. *)
Definition pattern_excludes (pattern filename : string) : Prop :=
  if Str.startswith pattern "*."
  then exists stem, filename = stem +:+ Str.slice_from_1 pattern
  else pattern = filename.

(** The first 1KB of [content] holds a zero byte. *)
Definition zero_byte_in_first_kb (content : list Byte.byte) : Prop :=
  exists i, i < 1024 /\ content !! i = Some Byte.x00.

(** The binary classification with the suffix test read literally: the
    compound suffix, as it is spelled, is a member of the extension set. *)
Definition binary_by_literal_suffix (fs : FileSystem) (file_path : Path) : Prop :=
  String.concat "" (suffixes file_path) ∈ FORCE_BINARY_EXTENSIONS_FOR_DUMP
  \/ fs_read fs file_path = None
  \/ exists content, fs_read fs file_path = Some content
                     /\ zero_byte_in_first_kb content.

(** The seeding rule in the words of the specification. *)
Definition seeding_rule (persisted_states : dict check_state)
    (abs_key rel_key p_name : string) : check_state :=
  match dict_get persisted_states abs_key with
  | Some s => s
  | None =>
      match dict_get persisted_states rel_key with
      | Some s => s
      | None => if bool_decide (p_name ∈ EXCLUDED_FOLDERS) then S_UNCHECKED
                else S_CHECKED
      end
  end.

(** [n] occurs in the tree under [t], below the items [above] (from [t]
    downwards, [n] itself not included). *)
Inductive occurs_at : tree_item -> list tree_item -> tree_item -> Prop :=
| occurs_here t : occurs_at t [] t
| occurs_below t c above n :
    c ∈ get_children t -> occurs_at c above n -> occurs_at t (t :: above) n.

(** The explicit state of an item is Unchecked, or the item has none. *)
Definition unchecked_or_untracked (store : dict check_state) (it : tree_item) : bool :=
  bool_decide (dict_get store (item_iid it) <> Some S_CHECKED).

(** The children of [n] that have a state in the store, and those of them
    that are checked. *)
Definition tracked_children (store : dict check_state) (n : tree_item) : list string :=
  List.filter (dict_has store) (item_iid <$> get_children n).

Definition checked_children (store : dict check_state) (n : tree_item) : list string :=
  List.filter (fun c => bool_decide (dict_get store c = Some S_CHECKED))
    (tracked_children store n).

(** The projection of a node none of whose ancestors, itself included, is
    unchecked: decided by its tracked children. *)
Definition children_rule (store : dict check_state) (n : tree_item) : glyph :=
  match tracked_children store n with
  | [] => GLYPH_CHECKED
  | _ =>
      if (length (checked_children store n) =? length (tracked_children store n))%nat
      then GLYPH_CHECKED
      else if (length (checked_children store n) =? 0)%nat then GLYPH_TRISTATE
      else GLYPH_TRISTATE
  end.

(** The tri-state rule as the code applies it: a node is shown unchecked
    when it or an item above it is unchecked or has no state. *)
Definition tri_state_rule (store : dict check_state)
    (above : list tree_item) (n : tree_item) : glyph :=
  if existsb (unchecked_or_untracked store) (above ++ [n]) then GLYPH_UNCHECKED
  else children_rule store n.

(** The tri-state rule read literally: a node is shown unchecked when the
    explicit state of it or of an item above it is Unchecked. *)
Definition literal_tri_state_rule (store : dict check_state)
    (above : list tree_item) (n : tree_item) : glyph :=
  if existsb (fun a => bool_decide (dict_get store (item_iid a) = Some S_UNCHECKED))
       (above ++ [n])
  then GLYPH_UNCHECKED
  else children_rule store n.

(** The synthetic abort marker of a snapshot. *)
Definition is_abort_marker (e : entry) : bool :=
  String.eqb (e_iid e) "timeout_error".

(** At the state [st], the scan has used up its budget. *)
Definition over_budget (env : scan_env) (st : scan_state) : Prop :=
  (clock env (clock_reads st) - start_time st > MAX_SCAN_TIME_SECONDS)%Z.

(** At the state [st], the next answer of the user is "abort". *)
Definition user_aborts (env : scan_env) (st : scan_state) : Prop :=
  user_continues env (user_asked st) = false.

(** What every step of the scan keeps: it only appends to [tree_data], it
    appends no abort marker, and when it ends by [TimeoutError] the state it
    leaves is the one in which a budget check raised. *)
Definition scan_sound {A} (env : scan_env) (m : scan A) : Prop :=
  forall st r st',
    m st = (r, st') ->
    tree_data st `prefix_of` tree_data st'
    /\ (Forall (fun e => is_abort_marker e = false) (tree_data st) ->
        Forall (fun e => is_abort_marker e = false) (tree_data st'))
    /\ (r = inl TimeoutError ->
        exists st_check,
          check_scan_timeout env st_check = (inl TimeoutError, st')
          /\ tree_data st `prefix_of` tree_data st_check).

(** A component as [Path(s)] produces them: not empty, not ["."], without
    a slash. *)
Definition clean_component (c : string) : bool :=
  keeps_component c && negb (Str.contains slash c).

(** [k] is the string of an absolute path that the disk resolves to itself:
    the form of the keys that the scan puts in the store. *)
Definition resolved_path_key (fs : FileSystem) (k : string) : Prop :=
  is_absolute (Path_of_str k) = true
  /\ path_str (Path_of_str k) = k
  /\ fs_resolve fs (Path_of_str k) = Some (Path_of_str k).

(** The store as the scan builds it: no key twice, and every key the string
    of an absolute path that resolves to itself. *)
Definition store_well_formed (fs : FileSystem) (d : dict check_state) : Prop :=
  NoDup (dict_keys d) /\ Forall (resolved_path_key fs) (dict_keys d).

(** What [resolve()] returns is an absolute path with clean components that
    resolves to itself. *)
Definition resolves_to_canonical (fs : FileSystem) : Prop :=
  forall p q, fs_resolve fs p = Some q -> resolved_path_key fs (path_str q).

(** A step of the scan that keeps the store well formed. *)
Definition scan_keeps_store {A} (fs : FileSystem) (m : scan A) : Prop :=
  forall st r st',
    m st = (r, st') ->
    store_well_formed fs (item_states st) ->
    store_well_formed fs (item_states st').

(* ===================================================================== *)
(** * Sample inputs *)
(* ===================================================================== *)

(** A disk without symbolic links on which every operation succeeds: every
    path is a directory, an absolute path resolves to itself and a relative
    one resolves below the working directory, every file is empty. *)
Definition plain_fs : FileSystem :=
  {| fs_app_dir := mkPath true ["opt"; "mapper"];
     fs_cwd := mkPath true ["work"];
     fs_is_dir := fun _ => true;
     fs_is_dir_raises := fun _ => false;
     fs_exists := fun _ => true;
     fs_resolve := fun p => Some (joinpath (mkPath true ["work"]) p);
     fs_read := fun _ => Some [];
     fs_mkdir := fun _ => true;
     fs_writable := fun _ => true;
     fs_removable := fun _ => true;
     fs_size_label := fun _ => "(0 B)" |}.

Definition proj : Path := mkPath true ["proj"].
Definition proj_src : Path := mkPath true ["proj"; "src"].
Definition proj_src_vendor : Path := mkPath true ["proj"; "src"; "vendor"].
Definition proj_src_vendor_lib : Path := mkPath true ["proj"; "src"; "vendor"; "lib"].
Definition proj_docs : Path := mkPath true ["proj"; "docs"].

(** The store of the scenario of the specification: [src] and [docs]
    checked, [src/vendor] unchecked. *)
Definition sample_store : dict check_state :=
  [ ("/proj", S_CHECKED); ("/proj/src", S_CHECKED);
    ("/proj/src/vendor", S_UNCHECKED); ("/proj/src/vendor/lib", S_CHECKED);
    ("/proj/docs", S_CHECKED) ].

(** A disk like [plain_fs] whose files all hold the two bytes of ["hi"]. *)
Definition text_fs : FileSystem :=
  {| fs_app_dir := fs_app_dir plain_fs;
     fs_cwd := fs_cwd plain_fs;
     fs_is_dir := fs_is_dir plain_fs;
     fs_is_dir_raises := fs_is_dir_raises plain_fs;
     fs_exists := fs_exists plain_fs;
     fs_resolve := fs_resolve plain_fs;
     fs_read := fun _ => Some [Byte.x68; Byte.x69];
     fs_mkdir := fs_mkdir plain_fs;
     fs_writable := fs_writable plain_fs;
     fs_removable := fs_removable plain_fs;
     fs_size_label := fs_size_label plain_fs |}.

Definition notes_upper_bak : Path := mkPath true ["proj"; "NOTES.BAK"].

Definition empty_scan_state : scan_state :=
  {| start_time := 0; clock_reads := 1; user_asked := 0;
     tree_data := []; item_states := [] |}.

(** A project with one directory that cannot be listed: the scan leaves an
    error placeholder below it. *)
Definition error_placeholder : tree_item :=
  TreeItem "error_locked_/proj/locked" [] [].

Definition locked_item : tree_item :=
  TreeItem "/proj/locked" [] [error_placeholder].

Definition locked_tree : tree_item := TreeItem "/proj" [] [locked_item].

Definition locked_store : dict check_state :=
  [ ("/proj", S_CHECKED); ("/proj/locked", S_CHECKED) ].

Definition locked_disk : fs_node := Dir "proj" (Some [Dir "locked" None]).

(** The clock of a scan that never runs over its budget. *)
Definition quick_env : scan_env :=
  {| clock := fun _ => 0%Z; user_continues := fun _ => true |}.

(** The tree of the scenario of the specification. *)
Definition sample_tree : tree_item :=
  TreeItem "/proj" []
    [ TreeItem "/proj/docs" [] [];
      TreeItem "/proj/src" []
        [ TreeItem "/proj/src/vendor" [] [ TreeItem "/proj/src/vendor/lib" [] [] ] ] ].

(** The size of the [tar.gz] file that [tarfile] writes for an archive
    without members (CPython 3.11): the gzip header carries the file name, so
    the size is the length of the name plus 43 bytes. *)
Definition empty_tgz_size (archive_name : string) (members : list Path) : nat :=
  String.length archive_name + 43.

(** A project in a directory with a 27-character name, its root unchecked. *)
Definition billing_root_str : string := "/home/dev/customer-billing-service-v2".

Definition billing_store : dict check_state :=
  [ ("/home/dev/customer-billing-service-v2", S_UNCHECKED);
    ("/home/dev/customer-billing-service-v2/src", S_CHECKED) ].

Definition billing_disk : fs_node :=
  Dir "customer-billing-service-v2"
    (Some [ File "README.md"; Dir "src" (Some [ File "main.py" ]) ]).

(** A clock that jumps past the budget at its fourth reading, and a user
    who then declines to continue. *)
Definition slow_env : scan_env :=
  {| clock := fun n => if (n <? 3)%nat then 0%Z else 100%Z;
     user_continues := fun _ => false |}.

Definition sample_disk : fs_node :=
  Dir "proj"
    (Some [ File "README.md";
            Dir "src" (Some [ Dir "vendor" (Some []); File "main.py" ]);
            Dir "docs" (Some []) ]).

(** A project with a saved configuration and some directories with
    built-in excluded names. *)
Definition configured_files : files :=
  {[ "/proj/_logs/_project_mapper_config.json" :=
       ConfigJson
         {| folder_states :=
              [ ("build", "checked"); ("/proj/dist", "checked");
                ("src", "unchecked"); ("docs", "maybe") ];
            dynamic_file_exclusions := ["*.log"] |} ]}.

Definition configured_disk : fs_node :=
  Dir "proj"
    (Some [ Dir "src" (Some []); Dir "node_modules" (Some []);
            Dir "build" (Some []); Dir "dist" (Some []);
            Dir "docs" (Some []); File "setup.py" ]).

(** A disk like [plain_fs] on which only paths with clean components
    resolve. *)
Definition tidy_fs : FileSystem :=
  {| fs_app_dir := fs_app_dir plain_fs;
     fs_cwd := fs_cwd plain_fs;
     fs_is_dir := fs_is_dir plain_fs;
     fs_is_dir_raises := fs_is_dir_raises plain_fs;
     fs_exists := fs_exists plain_fs;
     fs_resolve :=
       fun p =>
         if forallb clean_component (parts p)
         then Some (joinpath (mkPath true ["work"]) p)
         else None;
     fs_read := fs_read plain_fs;
     fs_mkdir := fs_mkdir plain_fs;
     fs_writable := fs_writable plain_fs;
     fs_removable := fs_removable plain_fs;
     fs_size_label := fs_size_label plain_fs |}.

(* ===================================================================== *)
(** * Managing the dynamic exclusions *)
(* ===================================================================== *)

(** [c.isspace()] on the ASCII range. *)
Definition is_space (c : ascii) : bool :=
  let n := nat_of_ascii c in
  ((9 <=? n)%nat && (n <=? 13)%nat)
  || ((28 <=? n)%nat && (n <=? 32)%nat).

(** [s.lstrip()] *)
Fixpoint lstrip_space (s : string) : string :=
  match s with
  | EmptyString => EmptyString
  | String c s' => if is_space c then lstrip_space s' else s
  end.

(** [s.rstrip()] *)
Fixpoint rstrip_space (s : string) : string :=
  match s with
  | EmptyString => EmptyString
  | String c s' =>
      let r := rstrip_space s' in
      if String.eqb r "" && is_space c then EmptyString else String c r
  end.

(** [s.strip()] *)
Definition strip (s : string) : string := rstrip_space (lstrip_space s).

(** [add_excluded_filename(entry_widget)]: the text of the entry, the value
    of the project root field, and the disk; it gives the dynamic exclusions,
    the disk and the text left in the entry. *)
Definition add_excluded_filename (fs : FileSystem)
    (folder_tree_item_states : dict check_state)
    (dynamic_global_excluded_filenames : gset string)
    (entry_text project_root_path_str : string) (disk : files)
    : gset string * files * string :=
  let filename_pattern := strip entry_text in
  if negb (String.eqb filename_pattern "") then
    if bool_decide (filename_pattern ∉ dynamic_global_excluded_filenames) then
      let added := dynamic_global_excluded_filenames ∪ {[filename_pattern]} in
      (added,
       if negb (String.eqb project_root_path_str "")
       then save_project_config fs folder_tree_item_states added
              (Path_of_str project_root_path_str) disk
       else disk,
       "")
    else (dynamic_global_excluded_filenames, disk, entry_text)
  else (dynamic_global_excluded_filenames, disk, entry_text).

(** The removal loop of [_remove_checked_from_popup]. *)
Fixpoint remove_loop (to_remove : list string) (dynamic : gset string)
    (actual_removed_count : nat) : gset string * nat :=
  match to_remove with
  | [] => (dynamic, actual_removed_count)
  | item :: rest =>
      if bool_decide (item ∈ dynamic)
      then remove_loop rest (dynamic ∖ {[item]}) (S actual_removed_count)
      else remove_loop rest dynamic actual_removed_count
  end.

(** The message box [_remove_checked_from_popup] ends with. *)
Inductive popup_message :=
| NoSelection
| Success (actual_removed_count : nat)
| NotFound.

(** [_remove_checked_from_popup()], for the patterns whose check box is
    ticked. *)
Definition remove_checked_from_popup (fs : FileSystem)
    (folder_tree_item_states : dict check_state)
    (dynamic_global_excluded_filenames : gset string)
    (to_remove : list string) (project_root_path_str : string) (disk : files)
    : gset string * files * popup_message :=
  match to_remove with
  | [] => (dynamic_global_excluded_filenames, disk, NoSelection)
  | _ =>
      let '(remaining, actual_removed_count) :=
        remove_loop to_remove dynamic_global_excluded_filenames 0 in
      if (0 <? actual_removed_count)%nat then
        (remaining,
         if negb (String.eqb project_root_path_str "")
         then save_project_config fs folder_tree_item_states remaining
                (Path_of_str project_root_path_str) disk
         else disk,
         Success actual_removed_count)
      else (remaining, disk, NotFound)
  end.

(* ===================================================================== *)
(** * Moving a project *)
(* ===================================================================== *)

(** Where the path written [k], a path at or below [old_root], lies once
    the project has moved from [old_root] to [new_root]. *)
Definition moved (old_root new_root : Path) (k : string) : Path :=
  {| is_absolute := is_absolute new_root;
     parts := parts new_root
              ++ drop (length (parts old_root)) (parts (Path_of_str k)) |}.

(** The disk that holds, at [new_path], what [disk] holds at [old_path]. *)
Definition carried (disk : files) (old_path new_path : string) : files :=
  match disk !! old_path with
  | Some content => {[ new_path := content ]}
  | None => ∅
  end.

(* ===================================================================== *)
(** * Files below a directory *)
(* ===================================================================== *)

(** The directory [dir] lists the file [fname], where [dir] is the
    directory [t], found at [at_path], or a directory below it. *)
Inductive holds_file : fs_node -> Path -> Path -> string -> Prop :=
| holds_here dname items at_path fname :
    File fname ∈ items ->
    holds_file (Dir dname (Some items)) at_path at_path fname
| holds_below dname items at_path d dir fname :
    d ∈ items ->
    holds_file d (child at_path (node_name d)) dir fname ->
    holds_file (Dir dname (Some items)) at_path dir fname.

(** The archive as it is when the walk ends, normally or not. *)
Definition tar_of (r : tar_state + tar_state) : tar_state :=
  match r with
  | inl tar => tar
  | inr tar => tar
  end.

(** The archive counts no fewer files than it has members, and each member
    satisfies [Q]. *)
Definition tar_holds (Q : Path -> Prop) (tar : tar_state) : Prop :=
  length (members tar) <= files_added_count tar /\ Forall Q (members tar).

(** A disk without symbolic links: an absolute path resolves to itself. *)
Definition no_symlinks (fs : FileSystem) : Prop :=
  forall p, is_absolute p = true -> fs_resolve fs p = Some p.

(* ===================================================================== *)
(** * The snapshot of a scan *)
(* ===================================================================== *)

(** [tree.insert(parent, "end", iid=...)] finds its parent for every entry
    of the snapshot, in the order of the list: every entry hangs below the
    top level ([""]) or below an entry before it.  [seen]: the ids of the
    entries so far. *)
Fixpoint link_check (seen : list string) (data : list entry) : bool :=
  match data with
  | [] => true
  | e :: rest =>
      (String.eqb (e_parent e) "" || bool_decide (e_parent e ∈ seen))
      && link_check (e_iid e :: seen) rest
  end.

(** The entries that stand for no directory: the error placeholders and the
    abort marker. *)
Definition is_placeholder (e : entry) : bool :=
  Str.startswith (e_iid e) "error_" || String.eqb (e_iid e) "timeout_error".

(** The snapshot and the store go together: the entries can be inserted in
    order, every entry is tracked or a placeholder, and every tracked path
    has an entry. *)
Definition snapshot_inv (st : scan_state) : Prop :=
  link_check [] (tree_data st) = true
  /\ Forall (fun e => dict_has (item_states st) (e_iid e) || is_placeholder e = true)
       (tree_data st)
  /\ Forall (fun k => k ∈ (e_iid <$> tree_data st)) (dict_keys (item_states st)).

Definition parent_ok (parent_iid : string) (st : scan_state) : Prop :=
  parent_iid = "" \/ parent_iid ∈ (e_iid <$> tree_data st).

(** A step of the scan, below the entry [parent_iid], that keeps the
    snapshot and the store together and only appends to the snapshot. *)
Definition scan_keeps_snapshot {A} (parent_iid : string) (m : scan A) : Prop :=
  forall st r st',
    m st = (r, st') ->
    snapshot_inv st -> parent_ok parent_iid st ->
    snapshot_inv st' /\ tree_data st `prefix_of` tree_data st'.

(* ===================================================================== *)
(** * Where the states of a scan come from *)
(* ===================================================================== *)

(** The walk over the disk [t], found at [at_path], finds the directory
    [p]: a directory listed in [t], or found by the walk over one of them. *)
Inductive finds : fs_node -> Path -> Path -> Prop :=
| finds_here dname items at_path d :
    d ∈ items -> node_is_dir d = true ->
    finds (Dir dname (Some items)) at_path (child at_path (node_name d))
| finds_below dname items at_path d p :
    d ∈ items -> node_is_dir d = true ->
    finds d (child at_path (node_name d)) p ->
    finds (Dir dname (Some items)) at_path p.

(** The state [v] is the one that the scan of [project_root], holding [t]
    on disk, gives over the persisted states to a directory whose resolved
    path is written [k]: the root with its own rule, or a directory [p]
    that the walk finds, with the seeding rule. *)
Definition seeded_state (fs : FileSystem) (persisted_states : dict check_state)
    (project_root : Path) (t : fs_node) (k : string) (v : check_state) : Prop :=
  (exists resolved,
     fs_resolve fs project_root = Some resolved /\ k = path_str resolved
     /\ v = root_seed_state persisted_states k)
  \/ (exists p resolved rel,
        finds t project_root p
        /\ fs_resolve fs p = Some resolved /\ k = path_str resolved
        /\ relative_to p project_root = Some rel
        /\ v = seeding_rule persisted_states k (path_str rel) (Path_name p)).

(** A step of the scan that keeps a property of every entry of the store. *)
Definition scan_keeps_entries {A} (P : string -> check_state -> Prop)
    (m : scan A) : Prop :=
  forall st r st',
    m st = (r, st') ->
    Forall (fun kv => P kv.1 kv.2) (item_states st) ->
    Forall (fun kv => P kv.1 kv.2) (item_states st').

(* ===================================================================== *)
(** * The file dump *)
(* ===================================================================== *)

Definition LOG_SUBDIR_DUMP : string := "_projectDUMP_contents".

Definition newline : string := String (ascii_of_nat 10) "".

(** [c * n] *)
Fixpoint repeat_char (c : ascii) (n : nat) : string :=
  match n with
  | 0 => ""
  | S n' => String c (repeat_char c n')
  end.

(** [max_dump_file_size], in bytes. *)
Definition max_dump_file_size : N := 1 * 1024 * 1024.

(** [file_header] and [omitted_footer] of one file section
    ([len] counts the bytes of the path string). *)
Definition file_header (relative_file_path : Path) : string :=
  newline +:+ repeat_char "-" 20 +:+ " FILE: " +:+ path_str relative_file_path
  +:+ " " +:+ repeat_char "-" (60 - String.length (path_str relative_file_path))
  +:+ newline.

Definition omitted_footer : string := newline +:+ repeat_char "-" 80 +:+ newline.

Definition omitted_for_size : string :=
  "[CONTENT OMITTED: File size > 1MB]" +:+ newline.

Definition omitted_as_binary : string :=
  "[CONTENT OMITTED: Detected as binary]" +:+ newline.

Definition omitted_for_error (e : string) : string :=
  "[CONTENT OMITTED: Error during processing - " +:+ e +:+ "]" +:+ newline.

(** What the dump consults besides the file system of the selection code:
    [stat().st_size] of a file ([None]: [stat] raised), the text that
    reading a file with [errors="ignore"] makes of its bytes, and the text
    of the exception met at a file. *)
Record dump_env := {
  st_size : Path -> option N;
  decode : list Byte.byte -> string;
  error_text : Path -> string
}.

Record dump_state := {
  dump_content : list string;
  files_dumped_count : nat
}.

(** [dump_content.extend(l)] *)
Definition dump_extend (l : list string) (ds : dump_state) : dump_state :=
  {| dump_content := dump_content ds ++ l;
     files_dumped_count := files_dumped_count ds |}.

(** The body of the [try] block for one file, with its [except] clause. *)
Definition dump_one_file (fs : FileSystem) (de : dump_env) (file_path : Path)
    (header : string) (ds : dump_state) : dump_state :=
  match st_size de file_path with
  | None => dump_extend [header; omitted_for_error (error_text de file_path);
                         omitted_footer] ds
  | Some size =>
      if (max_dump_file_size <? size)%N
      then dump_extend [header; omitted_for_size; omitted_footer] ds
      else if is_binary fs file_path
      then dump_extend [header; omitted_as_binary; omitted_footer] ds
      else
        match fs_read fs file_path with
        | Some content =>
            {| dump_content := dump_content ds ++ [header; decode de content;
                                                   omitted_footer];
               files_dumped_count := S (files_dumped_count ds) |}
        | None =>
            dump_extend [header; omitted_for_error (error_text de file_path);
                         omitted_footer]
              (dump_extend [header] ds)
        end
  end.

(** The [for file_name in file_names] loop of the dump: [inl] when
    [relative_to] raised, which nothing in [dump_files_impl] catches. *)
Fixpoint dump_file_names (fs : FileSystem) (dynamic : gset string) (de : dump_env)
    (selected_root_path current_scan_dir : Path) (file_names : list string)
    (ds : dump_state) : dump_state + dump_state :=
  match file_names with
  | [] => inr ds
  | file_name :: rest =>
      let file_path := child current_scan_dir file_name in
      if should_exclude_file dynamic file_name
      then dump_file_names fs dynamic de selected_root_path current_scan_dir rest ds
      else
        match relative_to file_path selected_root_path with
        | None => inl ds
        | Some relative_file_path =>
            dump_file_names fs dynamic de selected_root_path current_scan_dir rest
              (dump_one_file fs de file_path (file_header relative_file_path) ds)
        end
  end.

(** The directories that the dump goes down into: not named like a built-in
    excluded folder, and effectively selected. *)
Definition dump_keeps (fs : FileSystem) (store : dict check_state)
    (selected_root_path : Path) (d : Path) : bool :=
  bool_decide (Path_name d ∉ EXCLUDED_FOLDERS)
  && is_path_effectively_selected fs store d (Some selected_root_path).

(** The [os.walk(selected_root_path, topdown=True)] loop of the dump with
    its body, at the directory [t] found at [current_scan_dir]. *)
Fixpoint walk_dump (fs : FileSystem) (store : dict check_state)
    (dynamic : gset string) (de : dump_env) (selected_root_path : Path)
    (t : fs_node) (current_scan_dir : Path) (ds : dump_state) {struct t}
    : dump_state + dump_state :=
  match t with
  | Dir _ (Some items) =>
      let file_names := node_name <$> List.filter (fun n => negb (node_is_dir n)) items in
      let visits :=
        (fun d => (node_name d, node_is_dir d,
                   walk_dump fs store dynamic de selected_root_path d)) <$> items in
      let dir_names :=
        List.filter
          (fun v =>
             v.1.2 && dump_keeps fs store selected_root_path
                        (child current_scan_dir v.1.1))
          visits in
      let after_files :=
        if negb (is_path_effectively_selected fs store current_scan_dir
                   (Some selected_root_path))
        then inr ds
        else dump_file_names fs dynamic de selected_root_path current_scan_dir
               file_names ds in
      match after_files with
      | inl ds' => inl ds'
      | inr ds' =>
          fold_left
            (fun acc v =>
               match acc with
               | inl ds'' => inl ds''
               | inr ds'' => v.2 (child current_scan_dir v.1.1) ds''
               end)
            dir_names (inr ds')
      end
  | _ => inr ds
  end.

(** How [dump_files_impl] ends: it returned before the walk; an exception
    left it; it found no text file and wrote nothing; it wrote the dump
    file, of the given name, with the pieces of [dump_content] (the file
    holds them joined) and the number of files dumped; or the file could
    not be written. *)
Inductive dump_outcome :=
| Dump_returned
| Dump_raised
| Dump_nothing
| Dump_written (file_name : string) (content : list string) (count : nat)
| Dump_not_saved.

Definition dump_preamble (selected_root_path : Path) (generated : string)
    : list string :=
  [ "File Dump from Project: " +:+ path_str selected_root_path +:+ newline;
    "Generated: " +:+ generated +:+ newline ].

(** [dump_files_impl], for the root string of the entry field, the
    directory [t] on disk there, and the two readings of the clock:
    [timestamp] for the file name and [generated] for the first lines. *)
Definition dump_files_impl (fs : FileSystem) (store : dict check_state)
    (dynamic : gset string) (de : dump_env) (timestamp generated : string)
    (selected_root_path_str : string) (t : fs_node) : dump_outcome :=
  if String.eqb selected_root_path_str "" then Dump_returned
  else
    let selected_root_path := Path_of_str selected_root_path_str in
    if negb (fs_is_dir fs selected_root_path) then Dump_returned
    else
      match get_log_output_dir fs selected_root_path (Some LOG_SUBDIR_DUMP) with
      | None => Dump_returned
      | Some output_dir =>
          let file_name := apply_timestamp timestamp "project_file_dump.txt" in
          let output_file_path := child output_dir file_name in
          let ds0 := {| dump_content := dump_preamble selected_root_path generated;
                        files_dumped_count := 0 |} in
          match walk_dump fs store dynamic de selected_root_path t
                  selected_root_path ds0 with
          | inl _ => Dump_raised
          | inr ds =>
              if (0 <? files_dumped_count ds)%nat
              then if fs_writable fs output_file_path
                   then Dump_written file_name (dump_content ds) (files_dumped_count ds)
                   else Dump_not_saved
              else Dump_nothing
          end
      end.

(** The directory [dir] lists the file [fname], and is [t], found at
    [at_path], or is reached from it through directories that [keep]
    keeps. *)
Inductive reaches (keep : Path -> bool) : fs_node -> Path -> Path -> string -> Prop :=
| reaches_here dname items at_path fname :
    File fname ∈ items ->
    reaches keep (Dir dname (Some items)) at_path at_path fname
| reaches_below dname items at_path d dir fname :
    d ∈ items ->
    keep (child at_path (node_name d)) = true ->
    reaches keep d (child at_path (node_name d)) dir fname ->
    reaches keep (Dir dname (Some items)) at_path dir fname.

(** What the pieces of a dump are: the first lines, the header of a file
    that the dump reaches and does not exclude, a notice or the footer, or
    the text of such a file, which is then not binary and not over the size
    limit. *)
Definition dump_piece (fs : FileSystem) (store : dict check_state)
    (dynamic : gset string) (de : dump_env) (generated : string)
    (root : Path) (t : fs_node) (s : string) : Prop :=
  s ∈ dump_preamble root generated
  \/ s = omitted_footer \/ s = omitted_for_size \/ s = omitted_as_binary
  \/ exists dir fname rel,
       reaches (dump_keeps fs store root) t root dir fname
       /\ is_path_effectively_selected fs store dir (Some root) = true
       /\ should_exclude_file dynamic fname = false
       /\ relative_to (child dir fname) root = Some rel
       /\ (s = file_header rel
           \/ s = omitted_for_error (error_text de (child dir fname))
           \/ exists size content,
                st_size de (child dir fname) = Some size
                /\ (size <= max_dump_file_size)%N
                /\ is_binary fs (child dir fname) = false
                /\ fs_read fs (child dir fname) = Some content
                /\ s = decode de content).

(** A disk whose files hold text, with their sizes: [big.log] is over the
    limit of the dump. *)
Definition text_env : dump_env :=
  {| st_size := fun p => if String.eqb (Path_name p) "big.log"
                         then Some 2000000%N else Some 2%N;
     decode := fun _ => "hi";
     error_text := fun _ => "" |}.

(** A project whose [node_modules] directory is checked. *)
Definition vendored_store : dict check_state :=
  [ ("/proj", S_CHECKED); ("/proj/src", S_CHECKED);
    ("/proj/node_modules", S_CHECKED); ("/proj/docs", S_UNCHECKED) ].

Definition vendored_disk : fs_node :=
  Dir "proj"
    (Some [ File "main.py"; File "big.log"; File "logo.png";
            Dir "src" (Some [ File "util.py" ]);
            Dir "node_modules" (Some [ File "index.js" ]);
            Dir "docs" (Some [ File "guide.txt" ]) ]).

(** The dump as it is when the walk ends, normally or not. *)
Definition dump_of (r : dump_state + dump_state) : dump_state :=
  match r with
  | inl ds => ds
  | inr ds => ds
  end.

(** What [Q] has to hold of the pieces that belong to the file [fname] of
    the directory [dir]. *)
Definition file_pieces (fs : FileSystem) (de : dump_env) (root : Path)
    (Q : string -> Prop) (dir : Path) (fname : string) : Prop :=
  forall rel,
    relative_to (child dir fname) root = Some rel ->
    Q (file_header rel)
    /\ Q (omitted_for_error (error_text de (child dir fname)))
    /\ forall size content,
         st_size de (child dir fname) = Some size ->
         (size <= max_dump_file_size)%N ->
         is_binary fs (child dir fname) = false ->
         fs_read fs (child dir fname) = Some content ->
         Q (decode de content).

(** A project whose log directories are checked, with the archive of the
    running backup listed in the backup directory. *)
Definition archive_store : dict check_state :=
  [ ("/proj", S_CHECKED); ("/proj/_logs", S_CHECKED);
    ("/proj/_logs/_projectBACKUP_zips", S_CHECKED) ].

Definition archive_disk : fs_node :=
  Dir "proj"
    (Some [ File "a.txt";
            Dir "_logs"
              (Some [ Dir "_projectBACKUP_zips"
                        (Some [ File "proj_backup.tar_2026-11-04_12-00-00.gz";
                                File "old.txt" ]) ]) ]).

(* ===================================================================== *)
(** * A root whose name is too long *)
(* ===================================================================== *)

(** A disk like [plain_fs] on which [is_dir] raises [OSError]
    (ENAMETOOLONG) for a path with a component of more than 255 bytes, while
    [resolve] returns such a path as it is. *)
Definition long_name_fs : FileSystem :=
  {| fs_app_dir := fs_app_dir plain_fs;
     fs_cwd := fs_cwd plain_fs;
     fs_is_dir := fun _ => false;
     fs_is_dir_raises :=
       fun p => existsb (fun c => (255 <? String.length c)%nat) (parts p);
     fs_exists := fun _ => false;
     fs_resolve := fs_resolve plain_fs;
     fs_read := fun _ => None;
     fs_mkdir := fun _ => false;
     fs_writable := fun _ => false;
     fs_removable := fun _ => false;
     fs_size_label := fs_size_label plain_fs |}.

(** The path [/tmp/aaa...a], with 300 letters. *)
Definition long_root : Path :=
  mkPath true ["tmp"; String.concat "" (replicate 300 "a")].

(* ===================================================================== *)
(** * The patient user *)
(* ===================================================================== *)

(** The same clock with a user who always answers "continue": under it the
    scan is never aborted, and [user_asked] counts how often it found its
    budget used up. *)
Definition patient (env : scan_env) : scan_env :=
  {| clock := clock env; user_continues := fun _ => true |}.

(** The computation [m] follows [m_patient] as long as no more than [k]
    continuation requests have been made, and ends by [TimeoutError] where
    [m_patient] makes one more, with a part of the snapshot that
    [m_patient] leaves. *)
Definition scan_follows (k : nat) {A} (m m_patient : scan A) : Prop :=
  forall st r st',
    m_patient st = (r, st') ->
    user_asked st <= user_asked st'
    /\ tree_data st `prefix_of` tree_data st'
    /\ (user_asked st <= k ->
        (user_asked st' <= k -> m st = (r, st'))
        /\ (k < user_asked st' ->
            exists st_abort,
              m st = (inl TimeoutError, st_abort)
              /\ tree_data st `prefix_of` tree_data st_abort
              /\ tree_data st_abort `prefix_of` tree_data st')).

(* ===================================================================== *)
(** * Dictionaries *)
(* ===================================================================== *)

Section dict_facts.
Context {V : Type}.
Implicit Types (d : dict V) (k : string) (v : V).

Lemma dict_get_set_eq d k v : dict_get (dict_set k v d) k = Some v.
Proof.
  induction d as [|[k' v'] d IH]; simpl.
  - by rewrite String.eqb_refl.
  - destruct (String.eqb k' k) eqn:E; simpl.
    + by rewrite String.eqb_refl.
    + by rewrite E.
Qed.

Lemma dict_get_set_ne d k k' v :
  k <> k' -> dict_get (dict_set k v d) k' = dict_get d k'.
Proof.
  intros Hne. induction d as [|[k0 v0] d IH]; simpl.
  - by apply String.eqb_neq in Hne as ->.
  - destruct (String.eqb k0 k) eqn:E; simpl.
    + apply String.eqb_eq in E as ->.
      by apply String.eqb_neq in Hne as ->.
    + by rewrite IH.
Qed.

Lemma dict_keys_set_present d k v :
  is_Some (dict_get d k) -> dict_keys (dict_set k v d) = dict_keys d.
Proof.
  unfold dict_keys. induction d as [|[k0 v0] d IH]; simpl.
  - by intros [? ?].
  - destruct (String.eqb k0 k) eqn:E; simpl.
    + apply String.eqb_eq in E as ->. done.
    + intros H. f_equal. by apply IH.
Qed.

Lemma dict_has_true d k : dict_has d k = true <-> is_Some (dict_get d k).
Proof.
  unfold dict_has. destruct (dict_get d k); split; done || by intros [? ?].
Qed.

Lemma dict_has_false d k : dict_has d k = false <-> dict_get d k = None.
Proof. unfold dict_has. by destruct (dict_get d k). Qed.
End dict_facts.

(* ===================================================================== *)
(** * Paths *)
(* ===================================================================== *)

Lemma is_relative_to_spec p r :
  is_relative_to p r = true <->
  is_absolute p = is_absolute r /\ parts r `prefix_of` parts p.
Proof.
  unfold is_relative_to. rewrite andb_true_iff, !bool_decide_eq_true. done.
Qed.

Lemma is_relative_to_refl p : is_relative_to p p = true.
Proof. by apply is_relative_to_spec. Qed.

Lemma is_relative_to_trans p q r :
  is_relative_to p q = true -> is_relative_to q r = true ->
  is_relative_to p r = true.
Proof.
  rewrite !is_relative_to_spec. intros [-> Hpq] [-> Hqr]. split; [done|].
  by etrans.
Qed.

(** The directories between [root] and [p] are the prefixes of [p] that are
    at least as long as [root]. *)
Lemma on_chain_take root p d :
  is_relative_to p root = true ->
  on_chain root p d <->
  exists k, length (parts root) <= k <= length (parts p)
            /\ d = mkPath (is_absolute p) (take k (parts p)).
Proof.
  intros [Ha Hpre]%is_relative_to_spec. unfold on_chain.
  rewrite !is_relative_to_spec. split.
  - intros [[Hda Hrd] [Hpa Hdp]].
    exists (length (parts d)). split.
    + split; [by apply prefix_length | by apply prefix_length].
    + destruct d as [da dps]; simpl in *. f_equal; [congruence|].
      destruct Hdp as [suf ->]. by rewrite take_app_length.
  - intros (k & [Hk1 Hk2] & ->); simpl. repeat split.
    + done.
    + destruct Hpre as [suf Hsuf]. rewrite Hsuf.
      rewrite take_app_ge by done.
      by apply prefix_app_r.
    + eexists. symmetry. apply take_drop.
Qed.

(* ===================================================================== *)
(** * Effective selection *)
(* ===================================================================== *)

(** [path_chain] lists the iterates of [p = p.parent]: it starts with [p]
    and goes on with the chain of the parent, until the parent of a path is
    the path itself. *)
Lemma path_chain_parent p :
  path_chain p
  = p :: (if bool_decide (Path_parent p = p) then []
          else path_chain (Path_parent p)).
Proof.
  destruct p as [a ps]. unfold path_chain, Path_parent. simpl is_absolute.
  simpl parts. destruct ps as [|c l _] using rev_ind.
  - by rewrite bool_decide_eq_true_2.
  - rewrite removelast_last, length_app. simpl length.
    replace (length l + 1) with (S (length l)) by lia.
    rewrite bool_decide_eq_false_2.
    2:{ intros [= Heq]. apply (f_equal length) in Heq.
        rewrite length_app in Heq. simpl in Heq. lia. }
    rewrite (seq_S (S (length l))), rev_app_distr. simpl rev at 1.
    simpl app. rewrite fmap_cons. f_equal.
    + f_equal. apply take_ge. rewrite length_app. simpl. lia.
    + apply list_fmap_ext. intros i k Hk. f_equal.
      apply list_elem_of_lookup_2, list_elem_of_In, in_rev, in_seq in Hk.
      apply take_app_le. lia.
Qed.

Section selection.
Variable store : dict check_state.

Lemma chain_state_root root :
  chain_state store root root = S_CHECKED <->
  dict_get_default store (path_str root) S_CHECKED = S_CHECKED.
Proof.
  unfold chain_state, dict_get_default.
  destruct (dict_get store (path_str root)); [done|].
  by rewrite bool_decide_eq_true_2.
Qed.

Lemma chain_state_below root d :
  d <> root ->
  chain_state store root d = S_CHECKED <->
  dict_get store (path_str d) = Some S_CHECKED.
Proof.
  intros Hne. unfold chain_state.
  destruct (dict_get store (path_str d)) as [s|].
  - split; congruence.
  - by rewrite bool_decide_eq_false_2.
Qed.

(** The loop, started [m - r] levels below the root, answers [true]
    exactly when every level down to the root reads as checked. *)
Lemma select_loop_take a ps r m :
  r <= m <= length ps ->
  let root := mkPath a (take r ps) in
  select_loop store root
    ((fun n => mkPath a (take n ps)) <$> rev (seq 0 (S m))) = true <->
  forall k, r <= k <= m ->
    chain_state store root (mkPath a (take k ps)) = S_CHECKED.
Proof.
  intros Hrm root. induction m as [|m IH].
  - assert (r = 0) as Hr by lia. subst root. subst r. simpl.
    rewrite (bool_decide_eq_true_2 (mkPath a [] = mkPath a [])) by done.
    rewrite (bool_decide_eq_false_2 (mkPath a [] <> mkPath a [])) by tauto.
    rewrite andb_false_r.
    case_bool_decide as Hu.
    + split; [done|]. intros H. specialize (H 0 ltac:(lia)).
      unfold chain_state in H. simpl in H. rewrite Hu in H. done.
    + rewrite bool_decide_eq_true. rewrite <- (chain_state_root (mkPath a [])).
      split.
      * intros H k Hk. by replace k with 0 by lia.
      * intros H. by apply (H 0).
  - rewrite seq_S, rev_app_distr. simpl rev. simpl app.
    rewrite fmap_cons. simpl select_loop.
    destruct (decide (r = S m)) as [->|Hne].
    + (* we are at the root *)
      fold root.
      rewrite (bool_decide_eq_true_2 (root = root)) by done.
      rewrite (bool_decide_eq_false_2 (root <> root)) by tauto.
      rewrite andb_false_r.
      case_bool_decide as Hu.
      * split; [done|]. intros H. specialize (H (S m) ltac:(lia)).
        unfold chain_state in H. fold root in H. rewrite Hu in H. done.
      * rewrite bool_decide_eq_true. rewrite <- (chain_state_root root).
        split.
        -- intros H k Hk. by replace k with (S m) by lia.
        -- intros H. by apply (H (S m)).
    + (* strictly below the root *)
      assert (mkPath a (take (S m) ps) <> root) as Hneq.
      { unfold root. intros [= Heq]. apply (f_equal length) in Heq.
        rewrite !length_take in Heq. lia. }
      rewrite (bool_decide_eq_false_2 (_ = root)) by done.
      rewrite (bool_decide_eq_true_2 (_ <> root)) by done.
      rewrite andb_true_r.
      pose proof (chain_state_below root _ Hneq) as Hbelow.
      case_bool_decide as Hu.
      * split; [done|]. intros H. specialize (H (S m) ltac:(lia)).
        apply Hbelow in H. congruence.
      * case_bool_decide as Hn.
        -- split; [done|]. intros H. specialize (H (S m) ltac:(lia)).
           apply Hbelow in H. congruence.
        -- rewrite IH by lia. split.
           ++ intros H k Hk. destruct (decide (k = S m)) as [->|].
              ** apply Hbelow.
                 destruct (dict_get store _) as [[]|]; done.
              ** apply H. lia.
           ++ intros H k Hk. apply H. lia.
Qed.

Lemma select_loop_chain root p :
  is_relative_to p root = true ->
  select_loop store root (path_chain p) = true <->
  forall d, on_chain root p d -> chain_state store root d = S_CHECKED.
Proof.
  intros Hrel. pose proof Hrel as [Ha Hpre]%is_relative_to_spec.
  assert (root = mkPath (is_absolute p) (take (length (parts root)) (parts p)))
    as Hroot.
  { destruct root as [ra rps]; simpl in *. f_equal; [done|].
    destruct Hpre as [suf ->]. by rewrite take_app_length. }
  unfold path_chain. rewrite Hroot at 1.
  rewrite select_loop_take.
  2:{ split; [by apply prefix_length | done]. }
  rewrite <- Hroot. split.
  - intros H d (k & Hk & ->)%on_chain_take; [|done]. by apply H.
  - intros H k Hk. apply H. apply on_chain_take; [done|]. by exists k.
Qed.
End selection.

Section selection_query.
Variable fs : FileSystem.
Variable store : dict check_state.

(** For a valid root and paths that resolve, the query answers [true]
    exactly when the path is at or under the root and every directory from
    the root down to it reads as checked. *)
Lemma is_path_effectively_selected_iff P R P' R' :
  fs_is_dir fs R = true ->
  fs_resolve fs P = Some P' ->
  fs_resolve fs R = Some R' ->
  is_path_effectively_selected fs store P (Some R) = true <->
  is_relative_to P' R' = true
  /\ forall d, on_chain R' P' d -> chain_state store R' d = S_CHECKED.
Proof.
  intros Hdir HP HR. unfold is_path_effectively_selected.
  rewrite Hdir, HP, HR. simpl negb. cbv iota.
  destruct (is_relative_to P' R') eqn:Hrel.
  - simpl negb. rewrite andb_false_r.
    rewrite select_loop_chain by done. tauto.
  - assert (P' <> R') as Hne.
    { intros ->. by rewrite is_relative_to_refl in Hrel. }
    rewrite (bool_decide_eq_true_2 _ Hne). simpl. split; [done|].
    by intros [? _].
Qed.

Lemma unchecked_on_chain_not_selected P R P' R' d :
  fs_resolve fs P = Some P' ->
  fs_resolve fs R = Some R' ->
  on_chain R' P' d ->
  dict_get store (path_str d) = Some S_UNCHECKED ->
  is_path_effectively_selected fs store P (Some R) = false.
Proof.
  intros HP HR Hd Hu.
  destruct (fs_is_dir fs R) eqn:Hdir.
  - apply not_true_is_false.
    intros [_ H]%(is_path_effectively_selected_iff P R P' R'); [|done..].
    specialize (H d Hd). unfold chain_state in H. by rewrite Hu in H.
  - unfold is_path_effectively_selected. by rewrite Hdir.
Qed.
End selection_query.

(** C1. For a valid project root [R] and a path [P] (both resolving),
    [is_path_effectively_selected(P, R)] is true if and only if [P] lies at
    or under [R] and every directory on the chain from [R] down to [P]
    inclusive reads as Checked, where a missing state of a non-root
    directory reads as Unchecked and a missing state of the root reads as
    Checked; consequently the answer is false as soon as one directory on
    that chain is explicitly Unchecked, whatever [P]'s own stored state. *)
Theorem effective_selection_characterised
    (fs : FileSystem) (store : dict check_state) (P R P' R' : Path) :
  fs_is_dir fs R = true ->
  fs_resolve fs P = Some P' ->
  fs_resolve fs R = Some R' ->
  (is_path_effectively_selected fs store P (Some R) = true <->
   is_relative_to P' R' = true
   /\ forall d, on_chain R' P' d -> chain_state store R' d = S_CHECKED)
  /\ (forall d, on_chain R' P' d -> d <> R' ->
        dict_get store (path_str d) = None ->
        is_path_effectively_selected fs store P (Some R) = false)
  /\ (forall d, on_chain R' P' d ->
        dict_get store (path_str d) = Some S_UNCHECKED ->
        is_path_effectively_selected fs store P (Some R) = false).
Proof.
  intros Hdir HP HR. split; [|split].
  - by apply is_path_effectively_selected_iff.
  - intros d Hd Hne Hnone. apply not_true_is_false.
    intros [_ H]%(is_path_effectively_selected_iff fs store P R P' R'); [|done..].
    specialize (H d Hd). unfold chain_state in H. rewrite Hnone in H.
    by rewrite bool_decide_eq_false_2 in H.
  - intros d Hd Hu. by eapply unchecked_on_chain_not_selected.
Qed.

Lemma effective_selection_characterised_witness :
  (is_path_effectively_selected plain_fs sample_store proj_src_vendor_lib (Some proj)
   = true <->
   is_relative_to proj_src_vendor_lib proj = true
   /\ forall d, on_chain proj proj_src_vendor_lib d ->
                chain_state sample_store proj d = S_CHECKED)
  /\ (forall d, on_chain proj proj_src_vendor_lib d -> d <> proj ->
        dict_get sample_store (path_str d) = None ->
        is_path_effectively_selected plain_fs sample_store proj_src_vendor_lib
          (Some proj) = false)
  /\ (forall d, on_chain proj proj_src_vendor_lib d ->
        dict_get sample_store (path_str d) = Some S_UNCHECKED ->
        is_path_effectively_selected plain_fs sample_store proj_src_vendor_lib
          (Some proj) = false).
Proof.
  apply (effective_selection_characterised plain_fs sample_store
           proj_src_vendor_lib proj proj_src_vendor_lib proj); reflexivity.
Defined.

(** The scenario of the specification: [src] and [docs] are selected,
    [src/vendor] and what lies below it are not, whatever the state stored
    below; a directory without a state is not selected. *)
Example selection_scenario :
  is_path_effectively_selected plain_fs sample_store proj (Some proj) = true
  /\ is_path_effectively_selected plain_fs sample_store proj_src (Some proj) = true
  /\ is_path_effectively_selected plain_fs sample_store proj_docs (Some proj) = true
  /\ is_path_effectively_selected plain_fs sample_store proj_src_vendor (Some proj)
     = false
  /\ is_path_effectively_selected plain_fs sample_store proj_src_vendor_lib (Some proj)
     = false
  /\ is_path_effectively_selected plain_fs sample_store
       (mkPath true ["proj"; "fresh"]) (Some proj) = false.
Proof. by vm_compute. Qed.

(** The value of the query fails closed: it is false when the project root
    is [None] or [is_dir] returns false for it, when resolving either path
    fails, and when the resolved path does not lie under the resolved root;
    so a path reported as selected resolves under a valid root. *)
Theorem selection_fails_closed
    (fs : FileSystem) (store : dict check_state) (P : Path) :
  is_path_effectively_selected fs store P None = false
  /\ (forall R, fs_is_dir fs R = false ->
        is_path_effectively_selected fs store P (Some R) = false)
  /\ (forall R, fs_resolve fs P = None ->
        is_path_effectively_selected fs store P (Some R) = false)
  /\ (forall R, fs_resolve fs R = None ->
        is_path_effectively_selected fs store P (Some R) = false)
  /\ (forall R P' R', fs_resolve fs P = Some P' -> fs_resolve fs R = Some R' ->
        is_relative_to P' R' = false ->
        is_path_effectively_selected fs store P (Some R) = false)
  /\ (forall R, is_path_effectively_selected fs store P (Some R) = true ->
        fs_is_dir fs R = true
        /\ exists P' R', fs_resolve fs P = Some P' /\ fs_resolve fs R = Some R'
                         /\ is_relative_to P' R' = true).
Proof.
  unfold is_path_effectively_selected. repeat split.
  - intros R ->. done.
  - intros R ->. by destruct (fs_is_dir fs R).
  - intros R ->. by destruct (fs_is_dir fs R), (fs_resolve fs P).
  - intros R P' R' -> -> Hrel. destruct (fs_is_dir fs R); [|done]. simpl.
    rewrite Hrel. rewrite bool_decide_eq_true_2; [done|].
    intros ->. by rewrite is_relative_to_refl in Hrel.
  - by destruct (fs_is_dir fs R).
  - destruct (fs_is_dir fs R); [|done]. simpl in H.
    destruct (fs_resolve fs P) as [P'|]; [|done].
    destruct (fs_resolve fs R) as [R'|]; [|done].
    exists P', R'. repeat split.
    destruct (is_relative_to P' R') eqn:Hrel; [done|].
    rewrite bool_decide_eq_true_2 in H; [done|].
    intros ->. by rewrite is_relative_to_refl in Hrel.
Qed.

Lemma selection_fails_closed_witness :
  is_path_effectively_selected plain_fs sample_store (mkPath true ["elsewhere"])
    (Some proj) = false.
Proof.
  destruct (selection_fails_closed plain_fs sample_store (mkPath true ["elsewhere"]))
    as (_ & _ & _ & _ & H & _).
  apply (H proj (mkPath true ["elsewhere"]) proj); reflexivity.
Defined.

(** Where [is_dir] returns, the call returns the value of the query. *)
Lemma selection_call_returns fs store P R :
  fs_is_dir_raises fs R = false ->
  is_path_effectively_selected_call fs store P (Some R)
  = Returns (is_path_effectively_selected fs store P (Some R)).
Proof.
  intros Hreturns. unfold is_path_effectively_selected_call,
    is_path_effectively_selected. rewrite Hreturns.
  destruct (fs_is_dir fs R); [|done]. cbn [negb].
  destruct (fs_resolve fs P) as [P'|]; [|done].
  destruct (fs_resolve fs R) as [R'|]; [|done].
  by destruct (_ && _).
Qed.


(* ===================================================================== *)
(** * Toggling *)
(* ===================================================================== *)

Lemma on_tree_item_click_checked store item_id :
  dict_get store item_id = Some S_CHECKED ->
  on_tree_item_click store item_id = dict_set item_id S_UNCHECKED store.
Proof. intros H. unfold on_tree_item_click. by rewrite H. Qed.

Lemma on_tree_item_click_other store item_id k :
  k <> item_id ->
  dict_get (on_tree_item_click store item_id) k = dict_get store k.
Proof.
  intros Hne. unfold on_tree_item_click.
  destruct (dict_get store item_id); [|done].
  by apply dict_get_set_ne.
Qed.

Lemma on_tree_item_click_keys store item_id :
  dict_keys (on_tree_item_click store item_id) = dict_keys store.
Proof.
  unfold on_tree_item_click.
  destruct (dict_get store item_id) eqn:E; [|done].
  apply dict_keys_set_present. by rewrite E.
Qed.

(** C3. For a tracked directory [D] under the root [R] whose explicit state
    is Checked, the toggle sets [D] to Unchecked; afterwards
    [is_path_effectively_selected(P, R)] is false for every descendant [P]
    of [D], and the toggle changed [D]'s own entry only: the stored state of
    every other path is what it was, and no key was added or removed. *)
Theorem toggle_unchecks_subtree_lazily
    (fs : FileSystem) (store : dict check_state) (D R R' : Path) :
  dict_get store (path_str D) = Some S_CHECKED ->
  fs_resolve fs R = Some R' ->
  is_relative_to D R' = true ->
  let store' := on_tree_item_click store (path_str D) in
  dict_get store' (path_str D) = Some S_UNCHECKED
  /\ (forall P P', fs_resolve fs P = Some P' -> is_relative_to P' D = true ->
        is_path_effectively_selected fs store' P (Some R) = false)
  /\ (forall k, k <> path_str D -> dict_get store' k = dict_get store k)
  /\ dict_keys store' = dict_keys store.
Proof.
  intros HD HR HDR store'.
  assert (dict_get store' (path_str D) = Some S_UNCHECKED) as Hnew.
  { unfold store'. rewrite on_tree_item_click_checked by done.
    apply dict_get_set_eq. }
  split; [done|]. split; [|split].
  - intros P P' HP HPD.
    apply (unchecked_on_chain_not_selected fs store' P R P' R' D); try done.
  - intros k Hk. by apply on_tree_item_click_other.
  - apply on_tree_item_click_keys.
Qed.

Lemma toggle_unchecks_subtree_lazily_witness :
  let store' := on_tree_item_click sample_store (path_str proj_docs) in
  dict_get store' (path_str proj_docs) = Some S_UNCHECKED
  /\ (forall P P', fs_resolve plain_fs P = Some P' ->
        is_relative_to P' proj_docs = true ->
        is_path_effectively_selected plain_fs store' P (Some proj) = false)
  /\ (forall k, k <> path_str proj_docs -> dict_get store' k = dict_get sample_store k)
  /\ dict_keys store' = dict_keys sample_store.
Proof.
  apply (toggle_unchecks_subtree_lazily plain_fs sample_store proj_docs proj proj);
    reflexivity.
Defined.

(* ===================================================================== *)
(** * Filename exclusion *)
(* ===================================================================== *)

Lemma append_nil_l s : "" +:+ s = s.
Proof. reflexivity. Qed.

Lemma append_cons c a s : String c a +:+ s = String c (a +:+ s).
Proof. reflexivity. Qed.

Lemma append_nil_r s : s +:+ "" = s.
Proof. induction s as [|c s IH]; [done|]. by rewrite append_cons, IH. Qed.

Lemma append_assoc a b c : (a +:+ b) +:+ c = a +:+ (b +:+ c).
Proof. induction a as [|x a IH]; [done|]. by rewrite !append_cons, IH. Qed.

Lemma endswith_unfold s suf :
  Str.endswith s suf =
  if String.eqb s suf then true
  else match s with
       | EmptyString => false
       | String _ s' => Str.endswith s' suf
       end.
Proof. by destruct s. Qed.

Lemma endswith_spec s suf :
  Str.endswith s suf = true <-> exists pre, s = pre +:+ suf.
Proof.
  induction s as [|c s IH]; rewrite endswith_unfold.
  - destruct (String.eqb "" suf) eqn:E.
    + apply String.eqb_eq in E as <-. split; [|done]. by exists "".
    + apply String.eqb_neq in E. split; [done|].
      intros [pre H]. destruct pre.
      * by rewrite append_nil_l in H.
      * by rewrite append_cons in H.
  - destruct (String.eqb (String c s) suf) eqn:E.
    + apply String.eqb_eq in E as <-. split; [|done]. by exists "".
    + apply String.eqb_neq in E. rewrite IH. split.
      * intros [pre ->]. by exists (String c pre).
      * intros [pre H]. destruct pre as [|c' pre].
        -- by rewrite append_nil_l in H.
        -- rewrite append_cons in H. injection H as -> ->. by exists pre.
Qed.

(** A pattern that is seen by the loop and is not skipped as empty. *)
Lemma exclusion_loop_spec patterns filename :
  exclusion_loop patterns filename = true <->
  exists pattern, pattern ∈ patterns /\ pattern <> ""
                  /\ pattern_excludes pattern filename.
Proof.
  induction patterns as [|pattern rest IH]; simpl.
  - split; [done|]. by intros (? & ?%elem_of_nil & _).
  - assert ((exists q, q ∈ rest /\ q <> "" /\ pattern_excludes q filename)
            -> exists q, q ∈ pattern :: rest /\ q <> "" /\ pattern_excludes q filename)
      as Hrest.
    { intros (q & ? & ?). exists q. split; [by right | done]. }
    destruct (String.eqb pattern "") eqn:Eempty.
    { apply String.eqb_eq in Eempty as ->. rewrite IH. split; [done|].
      intros (q & [->|Hq]%elem_of_cons & Hne & Hm); [done|]. by exists q. }
    apply String.eqb_neq in Eempty.
    destruct (Str.startswith pattern "*.") eqn:Estar.
    + destruct (Str.endswith filename (Str.slice_from_1 pattern)) eqn:Eend.
      * split; [|done]. intros _. exists pattern. split; [by left|].
        split; [done|]. unfold pattern_excludes. rewrite Estar.
        by apply endswith_spec.
      * rewrite IH. split; [done|].
        intros (q & [->|Hq]%elem_of_cons & Hne & Hm); [|by exists q].
        unfold pattern_excludes in Hm. rewrite Estar in Hm.
        apply endswith_spec in Hm. congruence.
    + destruct (String.eqb pattern filename) eqn:Eeq.
      * split; [|done]. intros _. exists pattern. split; [by left|].
        split; [done|]. unfold pattern_excludes. rewrite Estar.
        by apply String.eqb_eq.
      * rewrite IH. split; [done|].
        intros (q & [->|Hq]%elem_of_cons & Hne & Hm); [|by exists q].
        unfold pattern_excludes in Hm. rewrite Estar in Hm.
        apply String.eqb_neq in Eeq. done.
Qed.

Lemma should_exclude_file_iff dynamic filename :
  should_exclude_file dynamic filename = true <->
  exists pattern, pattern ∈ PREDEFINED_EXCLUDED_FILENAMES ∪ dynamic
                  /\ pattern <> "" /\ pattern_excludes pattern filename.
Proof.
  unfold should_exclude_file. rewrite exclusion_loop_spec.
  by setoid_rewrite elem_of_elements.
Qed.

Lemma pyc_is_predefined dynamic :
  "*.pyc" ∈ PREDEFINED_EXCLUDED_FILENAMES ∪ dynamic.
Proof.
  apply elem_of_union_l. unfold PREDEFINED_EXCLUDED_FILENAMES.
  rewrite elem_of_list_to_set, !elem_of_cons. tauto.
Qed.

(** C2. For every (non-empty) filename [F], [should_exclude_file(F)] is true
    iff some pattern of the predefined or dynamic exclusions matches [F],
    where a pattern starting with ["*."] matches iff [F] ends,
    case-sensitively, with the pattern's suffix and any other pattern
    matches iff it equals [F]; ["foo.pyc"] is excluded by ["*.pyc"],
    ["foo.pyc.bak"] and ["foo.PYC"] are not, and the exact pattern
    ["package-lock.json"] excludes that literal name only. *)
Theorem should_exclude_file_matches_patterns
    (dynamic : gset string) (F : string) :
  F <> "" ->
  (should_exclude_file dynamic F = true <->
   exists pattern, pattern ∈ PREDEFINED_EXCLUDED_FILENAMES ∪ dynamic
                   /\ pattern_excludes pattern F)
  /\ (pattern_excludes "*.pyc" "foo.pyc"
      /\ should_exclude_file dynamic "foo.pyc" = true)
  /\ (~ pattern_excludes "*.pyc" "foo.pyc.bak"
      /\ exclusion_loop ["*.pyc"] "foo.pyc.bak" = false
      /\ should_exclude_file ∅ "foo.pyc.bak" = false)
  /\ (~ pattern_excludes "*.pyc" "foo.PYC"
      /\ should_exclude_file ∅ "foo.PYC" = false)
  /\ (forall G, pattern_excludes "package-lock.json" G <-> G = "package-lock.json")
  /\ (forall G, exclusion_loop ["package-lock.json"] G = true
                <-> G = "package-lock.json").
Proof.
  intros HF. split; [|split; [|split; [|split; [|split]]]].
  - split.
    + intros (pattern & Hin & _ & Hm)%should_exclude_file_iff. by exists pattern.
    + intros (pattern & Hin & Hm). apply should_exclude_file_iff.
      exists pattern. split; [done|]. split; [|done].
      intros ->. unfold pattern_excludes in Hm. simpl in Hm. done.
  - split; [by exists "foo"|].
    apply should_exclude_file_iff. exists "*.pyc".
    split; [apply pyc_is_predefined|]. split; [done|]. by exists "foo".
  - split; [|split]; [|done|by vm_compute].
    intros H%endswith_spec. done.
  - split; [|by vm_compute].
    intros H%endswith_spec. done.
  - intros G. unfold pattern_excludes. simpl. split; by intros ->.
  - intros G. rewrite exclusion_loop_spec. split.
    + intros (q & Hq%list_elem_of_singleton & _ & Hm).
      subst q. unfold pattern_excludes in Hm. simpl in Hm. done.
    + intros ->. exists "package-lock.json". split; [by left|]. done.
Qed.

Lemma should_exclude_file_matches_patterns_witness :
  should_exclude_file ∅ "notes.swp" = true <->
  exists pattern, pattern ∈ PREDEFINED_EXCLUDED_FILENAMES ∪ ∅
                  /\ pattern_excludes pattern "notes.swp".
Proof.
  exact (proj1 (should_exclude_file_matches_patterns ∅ "notes.swp"
                  ltac:(discriminate))).
Defined.

(** The loop skips an empty pattern; it is the one pattern that could
    equal the empty string, which is not the name of a file. *)
Example empty_pattern_is_skipped :
  exclusion_loop [""] "" = false /\ should_exclude_file {[""]} "" = false.
Proof. by vm_compute. Qed.

(* ===================================================================== *)
(** * Binary classification *)
(* ===================================================================== *)

Lemma has_zero_byte_spec chunk :
  has_zero_byte chunk = true <-> exists i, chunk !! i = Some Byte.x00.
Proof.
  unfold has_zero_byte. rewrite existsb_exists. split.
  - intros (b & Hin & Hb). apply Byte.byte_dec_bl in Hb as <-.
    by apply list_elem_of_In, list_elem_of_lookup in Hin.
  - intros [i Hi]. exists Byte.x00. split; [|done].
    apply list_elem_of_In, list_elem_of_lookup. by exists i.
Qed.

Lemma has_zero_byte_first_kb content :
  has_zero_byte (take 1024 content) = true <-> zero_byte_in_first_kb content.
Proof.
  rewrite has_zero_byte_spec. unfold zero_byte_in_first_kb.
  split; intros [i Hi]; exists i.
  - apply lookup_take_Some in Hi. tauto.
  - apply lookup_take_Some. tauto.
Qed.

Example compound_suffix_tar_gz :
  String.concat "" (suffixes (mkPath true ["proj"; "site.tar.gz"])) = ".tar.gz"
  /\ String.concat "" (suffixes (mkPath true ["proj"; "foo.pyc.bak"])) = ".pyc.bak"
  /\ String.concat "" (suffixes (mkPath true ["proj"; ".gitignore"])) = ""
  /\ String.concat "" (suffixes (mkPath true ["proj"; "README"])) = "".
Proof. by vm_compute. Qed.



(* ===================================================================== *)
(** * Seeding *)
(* ===================================================================== *)

Lemma seed_state_rule persisted abs_key rel_key p_name :
  seed_state persisted abs_key rel_key p_name
  = seeding_rule persisted abs_key rel_key p_name.
Proof.
  unfold seed_state, seeding_rule, dict_get_default, dict_has.
  destruct (dict_get persisted abs_key), (dict_get persisted rel_key);
    simpl; rewrite ?andb_false_r, ?andb_true_r; try done;
    by case_bool_decide.
Qed.



(** A scan over a saved configuration: [build] and [dist] keep their
    persisted state (found under the relative and under the absolute key),
    [src] stays unchecked, [node_modules] has no persisted state and an
    excluded name, [docs] has an invalid persisted state, which is skipped. *)
Example scan_seeding_scenario :
  (worker_build_tree_data quick_env plain_fs configured_files proj configured_disk).2
  = [ ("/proj", S_CHECKED); ("/proj/build", S_CHECKED); ("/proj/dist", S_CHECKED);
      ("/proj/docs", S_CHECKED); ("/proj/node_modules", S_UNCHECKED);
      ("/proj/src", S_UNCHECKED) ].
Proof. by vm_compute. Qed.

Lemma root_seed_state_rule persisted root_path_str :
  root_seed_state persisted root_path_str
  = match dict_get persisted root_path_str with
    | Some s => s
    | None => match dict_get persisted "." with
              | Some s => s
              | None => S_CHECKED
              end
    end.
Proof. reflexivity. Qed.

(* ===================================================================== *)
(** * Display projection *)
(* ===================================================================== *)

Lemma tree_item_nested_ind (P : tree_item -> Prop) :
  (forall iid tags children, Forall P children -> P (TreeItem iid tags children)) ->
  forall t, P t.
Proof.
  intros Hstep. fix IH 1. intros [iid tags children]. apply Hstep.
  induction children as [|c children IHc]; constructor.
  - apply IH.
  - apply IHc.
Qed.

Lemma elem_of_concat {A} (x : A) (ls : list (list A)) :
  x ∈ concat ls <-> exists l, x ∈ l /\ l ∈ ls.
Proof.
  induction ls as [|l0 ls IH]; simpl.
  - split; [by intros ?%elem_of_nil | by intros (? & _ & ?%elem_of_nil)].
  - rewrite elem_of_app, IH. split.
    + intros [H|(l & Hx & Hl)]; [exists l0 | exists l]; split; try done.
      * by left.
      * by right.
    + intros (l & Hx & [->|Hl]%elem_of_cons); [by left|]. right. by exists l.
Qed.

Section projection.
Variable store : dict check_state.

Lemma count_children_from ids a b :
  fold_left
    (fun '(num_relevant_children, num_children_explicitly_checked) child_id =>
       if dict_has store child_id then
         (S num_relevant_children,
          if bool_decide (dict_get store child_id = Some S_CHECKED)
          then S num_children_explicitly_checked
          else num_children_explicitly_checked)
       else (num_relevant_children, num_children_explicitly_checked))
    ids (a, b)
  = (a + length (List.filter (dict_has store) ids),
     b + length (List.filter (fun c => bool_decide (dict_get store c = Some S_CHECKED))
                   (List.filter (dict_has store) ids))).
Proof.
  revert a b. induction ids as [|c ids IH]; intros a b; simpl.
  - f_equal; lia.
  - destruct (dict_has store c) eqn:Hhas; simpl.
    + rewrite IH. case_bool_decide; simpl; f_equal; lia.
    + by rewrite IH.
Qed.

Lemma count_children_spec ids :
  count_children store ids
  = (length (List.filter (dict_has store) ids),
     length (List.filter (fun c => bool_decide (dict_get store c = Some S_CHECKED))
               (List.filter (dict_has store) ids))).
Proof. unfold count_children. by rewrite count_children_from. Qed.

Lemma unchecked_or_untracked_default n :
  bool_decide (dict_get_default store (item_iid n) S_UNCHECKED = S_UNCHECKED)
  = unchecked_or_untracked store n.
Proof.
  unfold unchecked_or_untracked, dict_get_default.
  destruct (dict_get store (item_iid n)) as [[]|]; by vm_compute.
Qed.

Lemma node_visual_spec n parent_effectively_unchecked :
  node_visual store (item_iid n) (item_iid <$> get_children n)
    parent_effectively_unchecked
  = (if parent_effectively_unchecked || unchecked_or_untracked store n
     then GLYPH_UNCHECKED else children_rule store n,
     parent_effectively_unchecked || unchecked_or_untracked store n).
Proof.
  unfold node_visual. rewrite unchecked_or_untracked_default.
  destruct (parent_effectively_unchecked || unchecked_or_untracked store n);
    [done|].
  unfold children_rule, checked_children, tracked_children.
  rewrite count_children_spec.
  destruct (item_iid <$> get_children n) as [|c ids] eqn:Hids; [done|].
  set (tracked := List.filter (dict_has store) (c :: ids)).
  destruct tracked as [|t tracked'] eqn:Ht; [done|].
  simpl length at 1.
  change (S (length tracked') =? 0)%nat with false. cbv iota.
  destruct (_ =? length (t :: tracked'))%nat; [done|].
  by destruct (_ && _), (_ =? 0)%nat.
Qed.

Lemma update_node_visual_recursive_unfold n parent_effectively_unchecked :
  update_node_visual_recursive store n parent_effectively_unchecked
  = if bool_decide ("error_node" ∈ item_tags n) then []
    else
      (item_iid n,
       if parent_effectively_unchecked || unchecked_or_untracked store n
       then GLYPH_UNCHECKED else children_rule store n)
      :: concat
           ((fun c =>
               update_node_visual_recursive store c
                 (parent_effectively_unchecked || unchecked_or_untracked store n))
              <$> get_children n).
Proof.
  destruct n as [iid tags children]. simpl update_node_visual_recursive.
  simpl item_tags. case_bool_decide; [done|].
  pose proof (node_visual_spec (TreeItem iid tags children)
                parent_effectively_unchecked) as Hv.
  simpl item_iid in Hv. simpl get_children in Hv. rewrite Hv. done.
Qed.

(** Every node below items without the error tag is visited, and drawn with
    the glyph of the rule, started with what the items further up passed
    down. *)
Lemma visited_with_rule t above n parent_effectively_unchecked :
  occurs_at t above n ->
  (forall a, a ∈ above ++ [n] -> "error_node" ∉ item_tags a) ->
  (item_iid n,
   if parent_effectively_unchecked
      || existsb (unchecked_or_untracked store) (above ++ [n])
   then GLYPH_UNCHECKED else children_rule store n)
  ∈ update_node_visual_recursive store t parent_effectively_unchecked.
Proof.
  intros Hocc. revert parent_effectively_unchecked.
  induction Hocc as [t|t c above n Hc Hocc IH]; intros pu Htags.
  - rewrite update_node_visual_recursive_unfold.
    rewrite bool_decide_eq_false_2 by (apply Htags; by left).
    simpl existsb. rewrite orb_false_r. by left.
  - rewrite update_node_visual_recursive_unfold.
    rewrite bool_decide_eq_false_2 by (apply Htags; by left).
    right. apply elem_of_concat.
    eexists. split; [|apply list_elem_of_fmap; exists c; split; [reflexivity|done]].
    simpl existsb. rewrite orb_assoc. apply IH.
    intros a Ha. apply Htags. simpl. by right.
Qed.

(** Conversely, every glyph drawn belongs to a node of the tree and is the
    one of the rule. *)
Lemma drawn_by_rule t parent_effectively_unchecked iid g :
  (iid, g) ∈ update_node_visual_recursive store t parent_effectively_unchecked ->
  exists above n,
    occurs_at t above n /\ iid = item_iid n
    /\ g = if parent_effectively_unchecked
              || existsb (unchecked_or_untracked store) (above ++ [n])
           then GLYPH_UNCHECKED else children_rule store n.
Proof.
  revert parent_effectively_unchecked.
  induction t as [tid tags children IH] using tree_item_nested_ind.
  intros pu. rewrite update_node_visual_recursive_unfold.
  case_bool_decide; [by intros ?%elem_of_nil|].
  intros [Hhere|Hbelow]%elem_of_cons.
  - injection Hhere as -> ->. exists [], (TreeItem tid tags children).
    split; [constructor|]. split; [done|].
    simpl existsb. by rewrite orb_false_r.
  - apply elem_of_concat in Hbelow as (out & Hin & Hout).
    apply list_elem_of_fmap in Hout as (c & -> & Hc).
    rewrite Forall_forall in IH.
    destruct (IH c Hc _ Hin) as (above & n & Hocc & -> & ->).
    exists (TreeItem tid tags children :: above), n.
    split; [by econstructor|]. split; [done|].
    simpl existsb. by rewrite orb_assoc.
Qed.
End projection.

Lemma tri_state_rule_cases store above n :
  (existsb (unchecked_or_untracked store) (above ++ [n]) = true ->
   tri_state_rule store above n = GLYPH_UNCHECKED)
  /\ (existsb (unchecked_or_untracked store) (above ++ [n]) = false ->
      (tracked_children store n = [] ->
       tri_state_rule store above n = GLYPH_CHECKED)
      /\ (checked_children store n = tracked_children store n ->
          tri_state_rule store above n = GLYPH_CHECKED)
      /\ (tracked_children store n <> [] -> checked_children store n = [] ->
          tri_state_rule store above n = GLYPH_TRISTATE)
      /\ (checked_children store n <> [] ->
          length (checked_children store n) < length (tracked_children store n) ->
          tri_state_rule store above n = GLYPH_TRISTATE)).
Proof.
  unfold tri_state_rule, children_rule. split; [by intros ->|].
  intros ->. repeat split.
  - by intros ->.
  - intros ->. destruct (tracked_children store n); [done|].
    by rewrite Nat.eqb_refl.
  - intros Hne ->. by destruct (tracked_children store n).
  - intros Hne Hlt. destruct (tracked_children store n); [simpl in Hlt; lia|].
    rewrite (proj2 (Nat.eqb_neq _ _)) by lia.
    by destruct (_ =? 0)%nat.
Qed.

(** C5, as the code has it.  [refresh_tree_visuals] draws every node below
    the refreshed root with the glyph of the tri-state rule: unchecked when
    the explicit state of the node or of an item above it is Unchecked or
    missing; otherwise, among the children present in the store: checked
    with none of them, checked with all of them Checked, mixed with none of
    them Checked and mixed with some but not all Checked.  Nothing else is
    drawn. *)
Theorem refresh_tree_visuals_tri_state
    (store : dict check_state) (tree : list tree_item)
    (root_item_id : string) (root_item : tree_item) :
  find_top_level_item root_item_id tree = Some root_item ->
  (forall above n,
     occurs_at root_item above n ->
     (forall a, a ∈ above ++ [n] -> "error_node" ∉ item_tags a) ->
     (item_iid n, tri_state_rule store above n)
     ∈ refresh_tree_visuals store tree root_item_id)
  /\ (forall iid g,
        (iid, g) ∈ refresh_tree_visuals store tree root_item_id ->
        exists above n,
          occurs_at root_item above n /\ iid = item_iid n
          /\ g = tri_state_rule store above n)
  /\ (forall above n,
        (existsb (unchecked_or_untracked store) (above ++ [n]) = true ->
         tri_state_rule store above n = GLYPH_UNCHECKED)
        /\ (existsb (unchecked_or_untracked store) (above ++ [n]) = false ->
            (tracked_children store n = [] ->
             tri_state_rule store above n = GLYPH_CHECKED)
            /\ (checked_children store n = tracked_children store n ->
                tri_state_rule store above n = GLYPH_CHECKED)
            /\ (tracked_children store n <> [] -> checked_children store n = [] ->
                tri_state_rule store above n = GLYPH_TRISTATE)
            /\ (checked_children store n <> [] ->
                length (checked_children store n)
                < length (tracked_children store n) ->
                tri_state_rule store above n = GLYPH_TRISTATE))).
Proof.
  intros Hroot. unfold refresh_tree_visuals. rewrite Hroot.
  split; [|split].
  - intros above n Hocc Htags.
    by apply (visited_with_rule store root_item above n false).
  - intros iid g Hin.
    by apply (drawn_by_rule store root_item false iid g) in Hin.
  - apply tri_state_rule_cases.
Qed.

Lemma refresh_tree_visuals_tri_state_witness :
  ("/proj/src", GLYPH_TRISTATE)
  ∈ refresh_tree_visuals sample_store [sample_tree] "/proj".
Proof.
  destruct (refresh_tree_visuals_tri_state sample_store [sample_tree] "/proj"
              sample_tree eq_refl) as [H _].
  apply (H [sample_tree]
           (TreeItem "/proj/src" []
              [ TreeItem "/proj/src/vendor" []
                  [ TreeItem "/proj/src/vendor/lib" [] [] ] ])).
  - eapply occurs_below; [|apply occurs_here]. simpl. right. left.
  - intros a Ha. apply list_elem_of_In in Ha. simpl in Ha.
    destruct Ha as [<-|[<-|[]]]; simpl; by intros ?%elem_of_nil.
Defined.

(** C5, counterexample to the rule read literally.  The scan of a project
    with a directory that cannot be listed leaves an error placeholder below
    that directory; the placeholder has no explicit state, and neither it
    nor an item above it is Unchecked, so the literal rule shows it checked;
    [refresh_tree_visuals] shows it unchecked. *)
Lemma untracked_node_is_drawn_unchecked :
  worker_build_tree_data quick_env plain_fs ∅ proj locked_disk
  = (Completed,
     [ {| e_parent := ""; e_iid := "/proj";
          e_text := "proj (Project Root) (0 B)"; e_open := true |};
       {| e_parent := "/proj"; e_iid := "/proj/locked";
          e_text := "locked (0 B)"; e_open := false |};
       {| e_parent := "/proj/locked"; e_iid := "error_locked_/proj/locked";
          e_text := "🚫 Error reading locked"; e_open := false |} ],
     locked_store)
  /\ occurs_at locked_tree [locked_tree; locked_item] error_placeholder
  /\ literal_tri_state_rule locked_store [locked_tree; locked_item] error_placeholder
     = GLYPH_CHECKED
  /\ refresh_tree_visuals locked_store [locked_tree] "/proj"
     = [ ("/proj", GLYPH_CHECKED); ("/proj/locked", GLYPH_CHECKED);
         ("error_locked_/proj/locked", GLYPH_UNCHECKED) ]
  /\ (item_iid error_placeholder,
      literal_tri_state_rule locked_store [locked_tree; locked_item] error_placeholder)
     ∉ refresh_tree_visuals locked_store [locked_tree] "/proj".
Proof.
  split; [by vm_compute|]. split.
  { eapply occurs_below; [by left|].
    eapply occurs_below; [by left|]. apply occurs_here. }
  split; [by vm_compute|]. split; [by vm_compute|].
  intros Hin. apply list_elem_of_In in Hin. vm_compute in Hin.
  repeat (destruct Hin as [Hin|Hin]; [discriminate Hin|]). done.
Qed.

(* ===================================================================== *)
(** * Backup *)
(* ===================================================================== *)

(** A backup of a root that is not effectively selected adds no file; the
    archive it has opened is removed only if the file is smaller than 100
    bytes (and can be removed). *)
Lemma backup_of_unselected_root fs store dynamic tgz_size timestamp root_str t
    output_dir :
  root_str <> "" ->
  fs_is_dir fs (Path_of_str root_str) = true ->
  get_log_output_dir fs (Path_of_str root_str) (Some LOG_SUBDIR_BACKUP)
  = Some output_dir ->
  let archive_name :=
    apply_timestamp timestamp
      ((Path_name (Path_of_str root_str) +:+ "_backup") +:+ ".tar.gz") in
  fs_writable fs (child output_dir archive_name) = true ->
  is_path_effectively_selected fs store (Path_of_str root_str)
    (Some (Path_of_str root_str)) = false ->
  backup_project_impl fs store dynamic tgz_size timestamp root_str t
  = Some {| archive_on_disk :=
              if (tgz_size archive_name [] <? 100)%nat
                 && fs_removable fs (child output_dir archive_name)
              then None else Some (archive_name, []);
            added := 0 |}.
Proof.
  intros Hne Hdir Hout archive_name Hw Hsel. unfold backup_project_impl.
  apply String.eqb_neq in Hne. rewrite Hne, Hdir, Hout. cbn [negb]. cbv zeta.
  fold archive_name. rewrite Hw, Hsel. cbn [negb files_added_count members].
  change (0 <? 0)%nat with false. cbv iota.
  by destruct (_ && _).
Qed.

(** C8, at a failing input.  The project root is unchecked, so the backup
    adds no file; the root directory has a 27-character name, the empty
    archive is 104 bytes long, and it stays on disk. *)
Theorem empty_backup_archive_is_left_on_disk :
  is_path_effectively_selected plain_fs billing_store
    (Path_of_str billing_root_str) (Some (Path_of_str billing_root_str)) = false
  /\ empty_tgz_size "customer-billing-service-v2_backup.tar_2026-11-04_12-00-00.gz" []
     = 104
  /\ backup_project_impl plain_fs billing_store ∅ empty_tgz_size
       "2026-11-04_12-00-00" billing_root_str billing_disk
     = Some {| archive_on_disk :=
                 Some ("customer-billing-service-v2_backup.tar_2026-11-04_12-00-00.gz",
                       []);
               added := 0 |}.
Proof. by vm_compute. Qed.

(** The same backup of a project whose directory has a short name removes
    the empty archive. *)
Example empty_backup_archive_short_name :
  backup_project_impl plain_fs [("/proj", S_UNCHECKED)] ∅ empty_tgz_size
    "2026-11-04_12-00-00" "/proj" (Dir "proj" (Some [ File "a.txt" ]))
  = Some {| archive_on_disk := None; added := 0 |}.
Proof. by vm_compute. Qed.

(* ===================================================================== *)
(** * The directory scan *)
(* ===================================================================== *)

Lemma fs_node_nested_ind (P : fs_node -> Prop) :
  (forall fname, P (File fname)) ->
  (forall dname, P (Dir dname None)) ->
  (forall dname items, Forall P items -> P (Dir dname (Some items))) ->
  forall t, P t.
Proof.
  intros Hfile Hnone Hsome. fix IH 1. intros [fname|dname [items|]].
  - apply Hfile.
  - apply Hsome. induction items as [|c items IHc]; constructor.
    + apply IH.
    + apply IHc.
  - apply Hnone.
Qed.

Lemma elem_of_insert_sorted {A} (le : A -> A -> bool) x y l :
  y ∈ insert_sorted le x l <-> y = x \/ y ∈ l.
Proof.
  induction l as [|z l IH]; simpl.
  - rewrite list_elem_of_singleton, elem_of_nil. tauto.
  - destruct (le x z).
    + by rewrite elem_of_cons.
    + rewrite !elem_of_cons, IH. tauto.
Qed.

Lemma elem_of_sorted {A} (le : A -> A -> bool) y l :
  y ∈ sorted le l <-> y ∈ l.
Proof.
  induction l as [|x l IH]; simpl; [done|].
  by rewrite elem_of_insert_sorted, IH, elem_of_cons.
Qed.

Lemma scan_recursive_unfold env fs project_root persisted t current_path parent_iid :
  scan_recursive env fs project_root persisted t current_path parent_iid
  = scan_bind (check_scan_timeout env)
      (fun _ =>
         match t with
         | Dir _ (Some items) =>
             for_each
               (sorted name_lower_le
                  (List.filter (fun it => node_is_dir it.1)
                     ((fun item =>
                         (item, scan_recursive env fs project_root persisted item))
                        <$> items)))
               (fun it =>
                  scan_directory_entry fs project_root persisted parent_iid
                    (child current_path (node_name it.1)) it.2)
         | Dir _ None => tree_data_append (error_entry current_path parent_iid)
         | File _ => scan_raise OtherException
         end).
Proof. by destruct t. Qed.

Lemma filter_no_marker data :
  Forall (fun e => is_abort_marker e = false) data ->
  List.filter is_abort_marker (data ++ [timeout_entry]) = [timeout_entry].
Proof.
  intros Hall. rewrite List.filter_app. simpl.
  induction Hall as [|e data He Hall IH]; [done|].
  simpl. by rewrite He.
Qed.

Section scan_facts.
Variable env : scan_env.

Lemma scan_sound_silent {A} (m : scan A) :
  (forall st, exists a st', m st = (inr a, st') /\ tree_data st' = tree_data st) ->
  scan_sound env m.
Proof.
  intros Hm st r st' Hrun. destruct (Hm st) as (a & st1 & Heq & Hdata).
  rewrite Heq in Hrun. injection Hrun as <- <-. rewrite Hdata.
  split; [done|]. split; [done|]. intros [=].
Qed.

Lemma scan_sound_ret {A} (a : A) : scan_sound env (scan_ret a).
Proof. apply scan_sound_silent. intros st. by exists a, st. Qed.

Lemma scan_sound_raise_other {A} : scan_sound env (@scan_raise A OtherException).
Proof.
  intros st r st' [= <- <-]. split; [done|]. split; [done|]. intros [=].
Qed.

Lemma scan_sound_set_item_state k v : scan_sound env (set_item_state k v).
Proof. apply scan_sound_silent. intros st. by eexists _, _. Qed.

Lemma scan_sound_tree_data_append e :
  is_abort_marker e = false -> scan_sound env (tree_data_append e).
Proof.
  intros He st r st' [= <- <-]. simpl. split; [by apply prefix_app_r|].
  split; [|intros [=]].
  intros Hall. apply Forall_app. split; [done|]. by constructor.
Qed.

Lemma scan_sound_bind {A B} (m : scan A) (k : A -> scan B) :
  scan_sound env m -> (forall a, scan_sound env (k a)) ->
  scan_sound env (scan_bind m k).
Proof.
  intros Hm Hk st r st' Hrun. unfold scan_bind in Hrun.
  destruct (m st) as [[e|a] st1] eqn:Hfirst.
  - injection Hrun as <- <-.
    destruct (Hm _ _ _ Hfirst) as (Hpre1 & Hall1 & Hto1).
    split; [done|]. split; [done|]. intros [= ->]. by apply Hto1.
  - destruct (Hm _ _ _ Hfirst) as (Hpre1 & Hall1 & _).
    destruct (Hk a _ _ _ Hrun) as (Hpre2 & Hall2 & Hto2).
    split; [by etrans|]. split; [by auto|].
    intros Hr. destruct (Hto2 Hr) as (st_check & Hcheck & Hpre).
    exists st_check. split; [done | by etrans].
Qed.

Lemma scan_sound_for_each {A} (l : list A) (body : A -> scan unit) :
  (forall x, x ∈ l -> scan_sound env (body x)) ->
  scan_sound env (for_each l body).
Proof.
  induction l as [|x l IH]; intros Hbody; simpl.
  - apply scan_sound_ret.
  - apply scan_sound_bind.
    + apply Hbody. by left.
    + intros _. apply IH. intros y Hy. apply Hbody. by right.
Qed.

(** The budget check raises [TimeoutError] exactly when the budget is used
    up and the user declines; it never touches [tree_data]. *)
Lemma check_scan_timeout_unfold st :
  check_scan_timeout env st
  = let st1 :=
      {| start_time := start_time st; clock_reads := S (clock_reads st);
         user_asked := user_asked st; tree_data := tree_data st;
         item_states := item_states st |} in
    if (clock env (clock_reads st) - start_time st >? MAX_SCAN_TIME_SECONDS)%Z
    then
      let st2 :=
        {| start_time := start_time st; clock_reads := S (clock_reads st);
           user_asked := S (user_asked st); tree_data := tree_data st;
           item_states := item_states st |} in
      if user_continues env (user_asked st)
      then (inr tt,
            {| start_time := clock env (S (clock_reads st));
               clock_reads := S (S (clock_reads st));
               user_asked := S (user_asked st); tree_data := tree_data st;
               item_states := item_states st |})
      else (inl TimeoutError, st2)
    else (inr tt, st1).
Proof.
  destruct st as [start reads asked data states].
  unfold check_scan_timeout, scan_bind, time_time, get_start_time,
    ask_user_to_continue_safely, set_start_time, scan_raise, scan_ret.
  cbv beta iota zeta delta
    [start_time clock_reads user_asked tree_data item_states].
  destruct (_ >? _)%Z; [|done].
  by destruct (user_continues env asked).
Qed.

Lemma check_scan_timeout_raises st st' :
  check_scan_timeout env st = (inl TimeoutError, st') <->
  over_budget env st /\ user_aborts env st
  /\ st' = {| start_time := start_time st; clock_reads := S (clock_reads st);
              user_asked := S (user_asked st); tree_data := tree_data st;
              item_states := item_states st |}.
Proof.
  rewrite check_scan_timeout_unfold. unfold over_budget, user_aborts. cbv zeta.
  destruct (Z.gtb_spec (clock env (clock_reads st) - start_time st)
              MAX_SCAN_TIME_SECONDS) as [Hgt|Hle].
  - destruct (user_continues env (user_asked st)).
    + split; [intros [=] | by intros (_ & [=] & _)].
    + split.
      * intros [= <-]. split; [lia|done].
      * by intros (_ & _ & ->).
  - split; [intros [=] | intros (? & _); lia].
Qed.

Lemma scan_sound_check_scan_timeout : scan_sound env (check_scan_timeout env).
Proof.
  intros st r st' Hrun.
  assert (tree_data st' = tree_data st) as Hdata.
  { revert Hrun. rewrite check_scan_timeout_unfold. cbv zeta.
    destruct (_ >? _)%Z; [|by intros [= <- <-]].
    destruct (user_continues env (user_asked st)); by intros [= <- <-]. }
  rewrite Hdata. split; [done|]. split; [done|].
  intros ->. by exists st.
Qed.

Variable fs : FileSystem.
Hypothesis resolve_absolute :
  forall p q, fs_resolve fs p = Some q -> is_absolute q = true.

Lemma resolved_is_no_marker p q e_parent_ e_text_ e_open_ :
  fs_resolve fs p = Some q ->
  is_abort_marker
    {| e_parent := e_parent_; e_iid := path_str q; e_text := e_text_;
       e_open := e_open_ |} = false.
Proof.
  intros Hq%resolve_absolute. unfold is_abort_marker, path_str. simpl.
  by rewrite Hq.
Qed.

Lemma scan_sound_scan_directory_entry project_root persisted parent_iid p scan_p :
  (forall q k, scan_sound env (scan_p q k)) ->
  scan_sound env
    (scan_directory_entry fs project_root persisted parent_iid p scan_p).
Proof.
  intros Hp. unfold scan_directory_entry.
  destruct (fs_resolve fs p) as [resolved|] eqn:Hres;
    [|apply scan_sound_raise_other].
  destruct (relative_to p project_root) as [rel|];
    [|apply scan_sound_raise_other].
  apply scan_sound_bind; [apply scan_sound_set_item_state|]. intros _.
  apply scan_sound_bind; [|intros _; apply Hp].
  apply scan_sound_tree_data_append. by eapply resolved_is_no_marker.
Qed.

Lemma scan_sound_scan_recursive project_root persisted t current_path parent_iid :
  scan_sound env
    (scan_recursive env fs project_root persisted t current_path parent_iid).
Proof.
  revert current_path parent_iid.
  induction t as [fname|dname|dname items IH] using fs_node_nested_ind;
    intros current_path parent_iid; rewrite scan_recursive_unfold;
    (apply scan_sound_bind; [apply scan_sound_check_scan_timeout|]); intros _.
  - apply scan_sound_raise_other.
  - by apply scan_sound_tree_data_append.
  - apply scan_sound_for_each. intros [item scan_item] Hin.
    apply elem_of_sorted, list_elem_of_In, List.filter_In in Hin as [Hin _].
    apply list_elem_of_In, list_elem_of_fmap in Hin as (item' & [= -> ->] & Hitem).
    apply scan_sound_scan_directory_entry. simpl.
    rewrite Forall_forall in IH. intros q k. by apply IH.
Qed.

Lemma scan_sound_worker_try disk project_root t :
  scan_sound env (worker_try env fs disk project_root t).
Proof.
  unfold worker_try.
  destruct (fs_resolve fs project_root) as [resolved|] eqn:Hres;
    [|apply scan_sound_raise_other].
  apply scan_sound_bind; [apply scan_sound_set_item_state|]. intros _.
  apply scan_sound_bind; [|intros _; apply scan_sound_scan_recursive].
  apply scan_sound_tree_data_append. by eapply resolved_is_no_marker.
Qed.

(** A call of [_scan_recursive] that finds the budget used up, and a user
    who declines, raises at once and adds nothing. *)
Lemma scan_recursive_aborts project_root persisted t current_path parent_iid st :
  over_budget env st -> user_aborts env st ->
  exists st',
    scan_recursive env fs project_root persisted t current_path parent_iid st
    = (inl TimeoutError, st')
    /\ tree_data st' = tree_data st /\ item_states st' = item_states st.
Proof.
  intros Hover Habort. rewrite scan_recursive_unfold. unfold scan_bind.
  set (st' := {| start_time := start_time st; clock_reads := S (clock_reads st);
                 user_asked := S (user_asked st); tree_data := tree_data st;
                 item_states := item_states st |}).
  exists st'. by rewrite (proj2 (check_scan_timeout_raises st st')).
Qed.
End scan_facts.

Lemma plain_fs_resolves_absolute p q :
  fs_resolve plain_fs p = Some q -> is_absolute q = true.
Proof.
  simpl. intros [= <-]. unfold joinpath.
  by destruct (is_absolute p) eqn:E.
Qed.

Lemma Forall2_insert_sorted {A B} (R : A -> B -> Prop)
    (le : A -> A -> bool) (le' : B -> B -> bool) x x' l l' :
  (forall a a' b b', R a a' -> R b b' -> le a b = le' a' b') ->
  R x x' -> Forall2 R l l' ->
  Forall2 R (insert_sorted le x l) (insert_sorted le' x' l').
Proof.
  intros Hle Hx. induction 1 as [|y y' l l' Hy Hl IH]; simpl.
  - by repeat constructor.
  - rewrite (Hle x x' y y') by done.
    destruct (le' x' y'); by repeat constructor.
Qed.

Lemma Forall2_sorted {A B} (R : A -> B -> Prop)
    (le : A -> A -> bool) (le' : B -> B -> bool) l l' :
  (forall a a' b b', R a a' -> R b b' -> le a b = le' a' b') ->
  Forall2 R l l' -> Forall2 R (sorted le l) (sorted le' l').
Proof.
  intros Hle. induction 1 as [|x x' l l' Hx Hl IH]; simpl; [constructor|].
  by apply Forall2_insert_sorted.
Qed.

Lemma Forall2_List_filter {A B} (R : A -> B -> Prop)
    (f : A -> bool) (f' : B -> bool) l l' :
  (forall a a', R a a' -> f a = f' a') ->
  Forall2 R l l' -> Forall2 R (List.filter f l) (List.filter f' l').
Proof.
  intros Hf. induction 1 as [|x x' l l' Hx Hl IH]; simpl; [constructor|].
  rewrite (Hf x x') by done. destruct (f' x'); [by constructor | done].
Qed.

(** The scan under a user whose answers are "continue" up to request [k]
    and "abort" at request [k], against the scan under the patient user:
    the two go the same way up to that request. *)
Section following.
Variable env : scan_env.
Variable k : nat.
Hypothesis continues_before : forall j, j < k -> user_continues env j = true.
Hypothesis aborts_at : user_continues env k = false.

Lemma scan_follows_same {A} (m : scan A) :
  (forall st r st', m st = (r, st') ->
     user_asked st' = user_asked st /\ tree_data st `prefix_of` tree_data st') ->
  scan_follows k m m.
Proof.
  intros Hm st r st' Hrun. destruct (Hm _ _ _ Hrun) as [Hasked Hpre].
  split; [lia|]. split; [done|]. intros Hk. split; [done|]. intros Hover. lia.
Qed.

Lemma scan_follows_bind {A B} (m m' : scan A) (f f' : A -> scan B) :
  scan_follows k m m' -> (forall a, scan_follows k (f a) (f' a)) ->
  scan_follows k (scan_bind m f) (scan_bind m' f').
Proof.
  intros Hm Hf st r st' Hrun. unfold scan_bind in Hrun |- *.
  destruct (m' st) as [[e|a] st1] eqn:Hfirst.
  - injection Hrun as <- <-.
    destruct (Hm _ _ _ Hfirst) as (Hle & Hpre & Hrest).
    split; [done|]. split; [done|]. intros Hk.
    destruct (Hrest Hk) as [Hsame Habort]. split.
    + intros Hk'. by rewrite (Hsame Hk').
    + intros Hover. destruct (Habort Hover) as (st_abort & Hrun_m & Hpre1 & Hpre2).
      exists st_abort. by rewrite Hrun_m.
  - destruct (Hm _ _ _ Hfirst) as (Hle1 & Hpre1 & Hrest1).
    destruct (Hf a _ _ _ Hrun) as (Hle2 & Hpre2 & Hrest2).
    split; [lia|]. split; [by etrans|]. intros Hk.
    destruct (Hrest1 Hk) as [Hsame1 Habort1].
    destruct (decide (user_asked st1 <= k)) as [Hk1|Hover1].
    + rewrite (Hsame1 Hk1). destruct (Hrest2 Hk1) as [Hsame2 Habort2].
      split; [done|].
      intros Hover. destruct (Habort2 Hover) as (st_abort & Hrun_f & Hp1 & Hp2).
      exists st_abort. split; [done|]. split; [by etrans | done].
    + assert (k < user_asked st1) as Hover by lia.
      destruct (Habort1 Hover) as (st_abort & Hrun_m & Hp1 & Hp2).
      rewrite Hrun_m. split; [lia|].
      intros _. exists st_abort. split; [done|]. split; [done | by etrans].
Qed.

Lemma scan_follows_for_each {A B} (R : A -> B -> Prop) (l : list A) (l' : list B)
    (body : A -> scan unit) (body' : B -> scan unit) :
  (forall x x', R x x' -> scan_follows k (body x) (body' x')) ->
  Forall2 R l l' ->
  scan_follows k (for_each l body) (for_each l' body').
Proof.
  intros Hbody. induction 1 as [|x x' l l' Hx Hl IH]; simpl.
  - apply scan_follows_same. by intros st r st' [= _ <-].
  - apply scan_follows_bind; [by apply Hbody | by intros _].
Qed.

(** The budget check: the two users are asked at the same checks, and the
    impatient one ends the scan at request [k]. *)
Lemma scan_follows_check_scan_timeout :
  scan_follows k (check_scan_timeout env) (check_scan_timeout (patient env)).
Proof.
  intros st r st'. rewrite !check_scan_timeout_unfold. cbv zeta. simpl clock.
  simpl user_continues.
  destruct (_ >? _)%Z.
  - intros [= <- <-]. simpl. split; [lia|]. split; [done|]. intros Hk. split.
    + intros Hk'. rewrite continues_before; [done | lia].
    + intros Hover. assert (user_asked st = k) as -> by lia.
      rewrite aborts_at. eexists. split; [reflexivity|]. by simpl.
  - intros [= <- <-]. simpl. split; [lia|]. split; [done|]. intros Hk.
    split; [done|]. intros Hover. lia.
Qed.

Lemma scan_follows_scan_directory_entry fs project_root persisted parent_iid p
    scan_p scan_p' :
  (forall q iid, scan_follows k (scan_p q iid) (scan_p' q iid)) ->
  scan_follows k
    (scan_directory_entry fs project_root persisted parent_iid p scan_p)
    (scan_directory_entry fs project_root persisted parent_iid p scan_p').
Proof.
  intros Hp. unfold scan_directory_entry.
  destruct (fs_resolve fs p) as [resolved|].
  2:{ apply scan_follows_same. by intros st r st' [= _ <-]. }
  destruct (relative_to p project_root) as [rel|].
  2:{ apply scan_follows_same. by intros st r st' [= _ <-]. }
  apply scan_follows_bind.
  { apply scan_follows_same. by intros st r st' [= _ <-]. }
  intros _. apply scan_follows_bind; [|intros _; apply Hp].
  apply scan_follows_same. intros st r st' [= _ <-]. simpl.
  split; [done | by apply prefix_app_r].
Qed.

Lemma scan_follows_scan_recursive fs project_root persisted t current_path
    parent_iid :
  scan_follows k
    (scan_recursive env fs project_root persisted t current_path parent_iid)
    (scan_recursive (patient env) fs project_root persisted t current_path
       parent_iid).
Proof.
  revert current_path parent_iid.
  induction t as [fname|dname|dname items IH] using fs_node_nested_ind;
    intros current_path parent_iid; rewrite !scan_recursive_unfold;
    (apply scan_follows_bind; [apply scan_follows_check_scan_timeout|]); intros _.
  - apply scan_follows_same. by intros st r st' [= _ <-].
  - apply scan_follows_same. intros st r st' [= _ <-]. simpl.
    split; [done | by apply prefix_app_r].
  - apply (scan_follows_for_each
             (fun it it' : fs_node * (Path -> string -> scan unit) =>
                it.1 = it'.1
                /\ forall q iid, scan_follows k (it.2 q iid) (it'.2 q iid))).
    + intros [item scan_item] [item' scan_item'] [Hitem Hscan]. simpl in *.
      subst item'. by apply scan_follows_scan_directory_entry.
    + apply Forall2_sorted.
      { intros a a' b b' [Ha _] [Hb _]. unfold name_lower_le. by rewrite Ha, Hb. }
      apply Forall2_List_filter.
      { intros a a' [Ha _]. by rewrite Ha. }
      apply Forall2_fmap, Forall_Forall2_diag. rewrite Forall_forall in IH.
      apply Forall_forall. intros item Hitem. split; [done|]. simpl.
      intros q iid. by apply IH.
Qed.

Lemma scan_follows_worker_try fs disk project_root t :
  scan_follows k (worker_try env fs disk project_root t)
    (worker_try (patient env) fs disk project_root t).
Proof.
  unfold worker_try. destruct (fs_resolve fs project_root) as [resolved|].
  2:{ apply scan_follows_same. by intros st r st' [= _ <-]. }
  apply scan_follows_bind.
  { apply scan_follows_same. by intros st r st' [= _ <-]. }
  intros _. apply scan_follows_bind; [|intros _; apply scan_follows_scan_recursive].
  apply scan_follows_same. intros st r st' [= _ <-]. simpl.
  split; [done | by apply prefix_app_r].
Qed.

End following.

(** C7. A call of [_scan_recursive] that finds the budget exceeded while the
    user answers "abort" stops the scan there, adding nothing.  A scan that
    ends as [TimedOutAborted] was stopped by such a check, and its tree data
    is the entries collected up to that point followed by the synthetic
    abort marker: the marker is the last entry, it is the only entry with
    the marker's id, and no directory entry follows the abort point.  And
    the scan does end so: when the user answers "continue" to the requests
    before request [k] and "abort" to request [k], and the scan makes that
    request (the scan under a user who always continues finds its budget
    exceeded more than [k] times), the worker ends as [TimedOutAborted] with
    a part of the snapshot of that complete scan, followed by the marker. *)
Theorem scan_abort_appends_single_marker
    (env : scan_env) (fs : FileSystem) (disk : files)
    (project_root : Path) (t : fs_node) :
  (forall p q, fs_resolve fs p = Some q -> is_absolute q = true) ->
  (forall persisted node current_path parent_iid st,
     over_budget env st -> user_aborts env st ->
     exists st',
       scan_recursive env fs project_root persisted node current_path parent_iid st
       = (inl TimeoutError, st')
       /\ tree_data st' = tree_data st /\ item_states st' = item_states st)
  /\ (forall data store,
        worker_build_tree_data env fs disk project_root t
        = (TimedOutAborted, data, store) ->
        exists st_check,
          over_budget env st_check /\ user_aborts env st_check
          /\ data = tree_data st_check ++ [timeout_entry]
          /\ store = item_states st_check
          /\ List.filter is_abort_marker data = [timeout_entry]
          /\ List.last data timeout_entry = timeout_entry)
  /\ (forall k full_result full_state,
        (forall j, j < k -> user_continues env j = true) ->
        user_continues env k = false ->
        worker_try (patient env) fs disk project_root t
          {| start_time := clock env 0; clock_reads := 1; user_asked := 0;
             tree_data := []; item_states := [] |}
        = (full_result, full_state) ->
        k < user_asked full_state ->
        exists data store,
          worker_build_tree_data env fs disk project_root t
          = (TimedOutAborted, data ++ [timeout_entry], store)
          /\ data `prefix_of` tree_data full_state
          /\ List.filter is_abort_marker (data ++ [timeout_entry]) = [timeout_entry]
          /\ List.last (data ++ [timeout_entry]) timeout_entry = timeout_entry).
Proof.
  intros Habs. split; [|split].
  { intros. by apply scan_recursive_aborts. }
  { intros data store. unfold worker_build_tree_data.
    set (st0 := {| start_time := clock env 0; clock_reads := 1; user_asked := 0;
                   tree_data := []; item_states := [] |}).
    destruct (worker_try env fs disk project_root t st0) as [[[|]|[]] st] eqn:Hrun;
      intros [= <- <-].
    destruct (scan_sound_worker_try env fs Habs disk project_root t _ _ _ Hrun)
      as (_ & Hall & Hto).
    destruct (Hto eq_refl) as (st_check & Hcheck & _).
    apply check_scan_timeout_raises in Hcheck as (Hover & Habort & ->).
    exists st_check. simpl. repeat split; try done.
    - apply filter_no_marker. apply Hall. constructor.
    - by rewrite List.last_last. }
  intros k full_result full_state Hcontinues Haborts Hfull Hasked.
  destruct (scan_follows_worker_try env k Hcontinues Haborts fs disk project_root t
              _ _ _ Hfull) as (_ & _ & Hrest).
  destruct Hrest as [_ Hends]; [simpl; lia|].
  destruct (Hends Hasked) as (st_abort & Hrun & _ & Hpart).
  destruct (scan_sound_worker_try env fs Habs disk project_root t _ _ _ Hrun)
    as (_ & Hall & _).
  exists (tree_data st_abort), (item_states st_abort).
  unfold worker_build_tree_data. rewrite Hrun. split; [done|]. split; [done|].
  split.
  - apply filter_no_marker. apply Hall. constructor.
  - by rewrite List.last_last.
Qed.

Lemma scan_abort_appends_single_marker_witness :
  exists data store,
    worker_build_tree_data slow_env plain_fs ∅ proj sample_disk
    = (TimedOutAborted, data ++ [timeout_entry], store)
    /\ data `prefix_of`
         tree_data
           (worker_try (patient slow_env) plain_fs ∅ proj sample_disk
              {| start_time := clock slow_env 0; clock_reads := 1; user_asked := 0;
                 tree_data := []; item_states := [] |}).2
    /\ List.filter is_abort_marker (data ++ [timeout_entry]) = [timeout_entry]
    /\ List.last (data ++ [timeout_entry]) timeout_entry = timeout_entry.
Proof.
  destruct (scan_abort_appends_single_marker slow_env plain_fs ∅ proj sample_disk
              plain_fs_resolves_absolute) as (_ & _ & H).
  apply (H 0
           (worker_try (patient slow_env) plain_fs ∅ proj sample_disk
              {| start_time := clock slow_env 0; clock_reads := 1; user_asked := 0;
                 tree_data := []; item_states := [] |}).1).
  - intros j Hj. lia.
  - reflexivity.
  - by destruct (worker_try _ _ _ _ _ _).
  - apply Nat.ltb_lt. by vm_compute.
Defined.

(** The scan of the sample project by an impatient user: it is stopped at
    its fourth reading of the clock, below [src]. *)
Example scan_abort_scenario :
  (worker_build_tree_data slow_env plain_fs ∅ proj sample_disk).1
  = (TimedOutAborted,
     [ {| e_parent := ""; e_iid := "/proj";
          e_text := "proj (Project Root) (0 B)"; e_open := true |};
       {| e_parent := "/proj"; e_iid := "/proj/docs";
          e_text := "docs (0 B)"; e_open := false |};
       {| e_parent := "/proj"; e_iid := "/proj/src";
          e_text := "src (0 B)"; e_open := false |};
       timeout_entry ])
  /\ (worker_build_tree_data (patient slow_env) plain_fs ∅ proj sample_disk).1.2
     = [ {| e_parent := ""; e_iid := "/proj";
            e_text := "proj (Project Root) (0 B)"; e_open := true |};
         {| e_parent := "/proj"; e_iid := "/proj/docs";
            e_text := "docs (0 B)"; e_open := false |};
         {| e_parent := "/proj"; e_iid := "/proj/src";
            e_text := "src (0 B)"; e_open := false |};
         {| e_parent := "/proj/src"; e_iid := "/proj/src/vendor";
            e_text := "vendor (0 B)"; e_open := false |} ].
Proof. by vm_compute. Qed.

(* ===================================================================== *)
(** * Path strings *)
(* ===================================================================== *)

Lemma split_slash_free c w :
  Str.contains c w = false -> Str.split c w = [w].
Proof.
  induction w as [|a w IH]; simpl; [done|].
  intros [Ha Hw]%orb_false_elim. rewrite Ha, IH; done.
Qed.

Lemma split_app_sep c w s :
  Str.contains c w = false ->
  Str.split c (w +:+ String c s) = w :: Str.split c s.
Proof.
  induction w as [|a w IH]; intros Hw.
  - rewrite append_nil_l. simpl. by rewrite Ascii.eqb_refl.
  - simpl in Hw. apply orb_false_elim in Hw as [Ha Hw].
    rewrite append_cons. simpl. rewrite Ha, IH; done.
Qed.

Lemma split_join c l :
  l <> [] ->
  Forall (fun w => Str.contains c w = false) l ->
  Str.split c (Str.join c l) = l.
Proof.
  intros Hne Hall. induction Hall as [|w l Hw Hall IH]; [done|].
  destruct l as [|w' l].
  - simpl. by apply split_slash_free.
  - change (Str.join c (w :: w' :: l))
      with (w +:+ String c (Str.join c (w' :: l))).
    rewrite split_app_sep by done. by rewrite IH.
Qed.

Lemma split_parts_slash_free c s :
  Forall (fun w => Str.contains c w = false) (Str.split c s).
Proof.
  induction s as [|a s IH]; simpl.
  - by constructor.
  - destruct (Ascii.eqb a c) eqn:Ha.
    + by constructor.
    + destruct (Str.split c s) as [|w ws]; [by repeat constructor; simpl; rewrite Ha|].
      inversion IH as [|? ? Hw Hws]; subst. constructor; [|done].
      simpl. by rewrite Ha.
Qed.

Lemma Path_of_str_clean s : Forall (fun c => clean_component c = true) (parts (Path_of_str s)).
Proof.
  simpl. apply Forall_forall. intros c Hc.
  apply list_elem_of_In, List.filter_In in Hc as [Hin Hkeep].
  unfold clean_component. rewrite Hkeep. simpl.
  pose proof (split_parts_slash_free slash s) as Hall.
  rewrite Forall_forall in Hall. apply list_elem_of_In in Hin.
  by rewrite (Hall c Hin).
Qed.

Lemma filter_keeps_clean l :
  Forall (fun c => clean_component c = true) l ->
  List.filter keeps_component l = l.
Proof.
  induction 1 as [|c l Hc Hall IH]; [done|]. simpl.
  unfold clean_component in Hc. apply andb_true_iff in Hc as [-> _].
  by rewrite IH.
Qed.

Lemma clean_slash_free l :
  Forall (fun c => clean_component c = true) l ->
  Forall (fun w => Str.contains slash w = false) l.
Proof.
  intros Hall. eapply Forall_impl; [exact Hall|].
  intros c [_ H]%andb_true_iff. by apply negb_true_iff.
Qed.

Lemma startswith_slash_cons b s :
  Str.startswith (String b s) "/" = Ascii.eqb slash b.
Proof.
  change (Str.startswith (String b s) "/")
    with (if Ascii.eqb slash b then Str.startswith s "" else false).
  destruct (Ascii.eqb slash b); [by destruct s | done].
Qed.

Lemma join_clean_not_absolute l :
  l <> [] -> Forall (fun c => clean_component c = true) l ->
  Str.startswith (Str.join slash l) "/" = false.
Proof.
  intros Hne Hall. destruct Hall as [|c l Hc Hall]; [done|].
  apply andb_true_iff in Hc as [Hkeep Hslash].
  apply negb_true_iff in Hslash.
  destruct c as [|a c]; [done|].
  simpl in Hslash. apply orb_false_elim in Hslash as [Ha _].
  rewrite Ascii.eqb_sym in Ha.
  destruct l as [|c' l].
  - change (Str.join slash [String a c]) with (String a c).
    by rewrite startswith_slash_cons.
  - change (Str.join slash (String a c :: c' :: l))
      with (String a c +:+ String slash (Str.join slash (c' :: l))).
    rewrite append_cons. by rewrite startswith_slash_cons.
Qed.

Lemma split_leading_slash s :
  Str.split slash (String slash s) = "" :: Str.split slash s.
Proof. reflexivity. Qed.

Lemma filter_drops_empty l :
  List.filter keeps_component ("" :: l) = List.filter keeps_component l.
Proof. reflexivity. Qed.

(** Reading back the string of a path with clean components gives the path. *)
Lemma Path_of_str_path_str p :
  Forall (fun c => clean_component c = true) (parts p) ->
  Path_of_str (path_str p) = p.
Proof.
  destruct p as [[|] ps]; intros Hall; simpl in Hall;
    unfold Path_of_str, path_str; simpl is_absolute; simpl parts; cbv iota.
  - (* absolute *)
    f_equal; [by rewrite startswith_slash_cons|].
    rewrite split_leading_slash, filter_drops_empty.
    destruct ps as [|c ps]; [done|].
    rewrite split_join by (done || by apply clean_slash_free).
    by apply filter_keeps_clean.
  - (* relative *)
    destruct ps as [|c ps]; [done|].
    f_equal.
    + by apply join_clean_not_absolute.
    + rewrite split_join by (done || by apply clean_slash_free).
      by apply filter_keeps_clean.
Qed.

(* ===================================================================== *)
(** * Persisted configuration *)
(* ===================================================================== *)

Lemma state_of_str_state_str st : state_of_str (state_str st) = Some st.
Proof. by destruct st. Qed.

Lemma dict_set_fresh {V} (d : dict V) k v :
  k ∉ dict_keys d -> dict_set k v d = d ++ [(k, v)].
Proof.
  unfold dict_keys. induction d as [|[k' v'] d IH]; simpl; [done|].
  intros Hnot. apply not_elem_of_cons in Hnot as [Hne Hnot].
  apply not_eq_sym, String.eqb_neq in Hne. rewrite Hne. by rewrite IH.
Qed.

(** Storing the entries of a list under keys that are new and pairwise
    different appends them in order. *)
Lemma fold_left_dict_set_fresh {V W} (f : string -> string) (g : V -> W)
    (l : list (string * V)) (acc : dict W) :
  NoDup (dict_keys acc ++ (f <$> l.*1)) ->
  fold_left (fun acc '(k, v) => dict_set (f k) (g v) acc) l acc
  = acc ++ ((fun '(k, v) => (f k, g v)) <$> l).
Proof.
  revert acc. induction l as [|[k v] l IH]; intros acc Hnodup; simpl.
  - by rewrite app_nil_r.
  - simpl in Hnodup.
    assert (f k ∉ dict_keys acc) as Hfresh.
    { apply NoDup_app in Hnodup as (_ & Hdisj & _).
      intros Hin. apply (Hdisj _ Hin). by left. }
    rewrite dict_set_fresh by done. rewrite IH.
    + by rewrite <- app_assoc.
    + unfold dict_keys. rewrite fmap_app. simpl.
      by rewrite <- app_assoc.
Qed.

Section round_trip.
Variable fs : FileSystem.
Variable project_root : Path.

(** The key written by [save_project_config] for a resolved absolute path
    is read back by [load_project_config] as that path. *)
Lemma relative_key_read_back k :
  resolved_path_key fs k ->
  fs_resolve fs (joinpath project_root (Path_of_str (relative_key project_root k)))
  = Some (Path_of_str k).
Proof.
  intros (Habs & Hstr & Hres). unfold relative_key.
  pose proof (Path_of_str_clean k) as Hclean.
  remember (Path_of_str k) as abs eqn:Eabs.
  destruct (is_absolute abs && is_absolute project_root
            && is_relative_to abs project_root) eqn:Hcond.
  - apply andb_true_iff in Hcond as [[_ Hrabs]%andb_true_iff Hrel].
    unfold relative_to. rewrite Hrel.
    rewrite Path_of_str_path_str by (simpl; by apply Forall_drop).
    apply is_relative_to_spec in Hrel as [_ [suf Hsuf]].
    assert (joinpath project_root
              {| is_absolute := false;
                 parts := drop (length (parts project_root)) (parts abs) |}
            = abs) as ->; [|done].
    unfold joinpath. simpl. destruct abs as [a ps]. simpl in *. subst.
    by rewrite Hrabs, drop_app_length.
  - rewrite <- Eabs. unfold joinpath. by rewrite Habs.
Qed.

Lemma relative_key_inj k1 k2 :
  resolved_path_key fs k1 -> resolved_path_key fs k2 ->
  relative_key project_root k1 = relative_key project_root k2 -> k1 = k2.
Proof.
  intros H1 H2 Heq.
  pose proof (relative_key_read_back k1 H1) as R1.
  pose proof (relative_key_read_back k2 H2) as R2.
  rewrite Heq in R1.
  assert (Path_of_str k1 = Path_of_str k2) as Hsame by congruence.
  destruct H1 as (_ & H1 & _). destruct H2 as (_ & H2 & _).
  rewrite <- H1, <- H2. by rewrite Hsame.
Qed.

Lemma load_folder_state_saved acc k st :
  resolved_path_key fs k ->
  load_folder_state fs project_root acc (relative_key project_root k) (state_str st)
  = dict_set k st acc.
Proof.
  intros Hk. unfold load_folder_state.
  rewrite state_of_str_state_str, relative_key_read_back by done.
  by destruct Hk as (_ & -> & _).
Qed.

Lemma load_saved_folder_states (store : dict check_state) acc :
  Forall (resolved_path_key fs) (dict_keys store) ->
  fold_left
    (fun acc '(rel_path_str, state) =>
       load_folder_state fs project_root acc rel_path_str state)
    ((fun '(k, st) => (relative_key project_root k, state_str st)) <$> store) acc
  = fold_left (fun acc '(k, st) => dict_set (id k) (id st) acc) store acc.
Proof.
  revert acc. induction store as [|[k st] store IH]; intros acc Hok; [done|].
  unfold dict_keys in Hok. simpl in Hok. apply Forall_cons in Hok as [Hk Hok].
  simpl. rewrite load_folder_state_saved by done. by apply IH.
Qed.

Lemma saved_folder_states (store : dict check_state) :
  NoDup (dict_keys store) ->
  Forall (resolved_path_key fs) (dict_keys store) ->
  fold_left
    (fun acc '(abs_path_str, state) =>
       dict_set (relative_key project_root abs_path_str) (state_str state) acc)
    store []
  = (fun '(k, st) => (relative_key project_root k, state_str st)) <$> store.
Proof.
  intros Hnodup Hok.
  rewrite (fold_left_dict_set_fresh (relative_key project_root) state_str); [done|].
  simpl. apply NoDup_fmap_2_strong; [|done].
  rewrite Forall_forall in Hok.
  intros k1 k2 H1 H2. apply relative_key_inj; by apply Hok.
Qed.

Lemma loaded_folder_states (store : dict check_state) :
  NoDup (dict_keys store) ->
  fold_left (fun acc '(k, st) => dict_set (id k) (id st) acc) store [] = store.
Proof.
  intros Hnodup.
  rewrite (fold_left_dict_set_fresh id id); simpl.
  - induction store as [|[k st] store IH]; [done|]. simpl. f_equal.
    apply IH. unfold dict_keys in *. simpl in Hnodup. by apply NoDup_cons in Hnodup as [_ ?].
  - by rewrite list_fmap_id.
Qed.

Lemma loaded_exclusions (dynamic : gset string) :
  list_to_set (sorted String.leb (elements dynamic)) = dynamic.
Proof.
  apply set_eq. intros x.
  by rewrite elem_of_list_to_set, elem_of_sorted, elem_of_elements.
Qed.

(** Saving and loading again gives back the store and the exclusions. *)
Lemma load_after_save (store : dict check_state) (dynamic : gset string)
    (disk : files) config_file_path :
  fs_is_dir fs project_root = true ->
  get_project_config_file_path fs project_root = Some config_file_path ->
  fs_writable fs config_file_path = true ->
  NoDup (dict_keys store) ->
  Forall (resolved_path_key fs) (dict_keys store) ->
  load_project_config fs project_root
    (save_project_config fs store dynamic project_root disk)
  = (store, dynamic).
Proof.
  intros Hdir Hpath Hw Hnodup Hok.
  unfold load_project_config, save_project_config.
  rewrite Hdir, Hpath, Hw. simpl negb. cbv iota.
  rewrite lookup_insert_eq. cbv iota. simpl folder_states.
  simpl dynamic_file_exclusions.
  rewrite saved_folder_states, load_saved_folder_states, loaded_folder_states
    by done.
  by rewrite loaded_exclusions.
Qed.
End round_trip.

Lemma dict_set_NoDup {V} (d : dict V) k v :
  NoDup (dict_keys d) -> NoDup (dict_keys (dict_set k v d)).
Proof.
  intros Hnodup. destruct (dict_get d k) as [v0|] eqn:Hget.
  - rewrite dict_keys_set_present; [done | by rewrite Hget].
  - rewrite dict_set_fresh.
    + unfold dict_keys. rewrite fmap_app. simpl.
      apply NoDup_app. split; [done|]. split; [|apply NoDup_singleton].
      intros x Hx ->%list_elem_of_singleton. revert Hget Hx. clear.
      unfold dict_keys. induction d as [|[k' v'] d IH]; simpl.
      * by intros _ ?%elem_of_nil.
      * destruct (String.eqb k' k) eqn:E; [done|].
        apply String.eqb_neq in E.
        intros Hget [?|?]%elem_of_cons; [congruence | by apply IH].
    + revert Hget. clear. unfold dict_keys.
      induction d as [|[k' v'] d IH]; simpl.
      * by intros _ ?%elem_of_nil.
      * destruct (String.eqb k' k) eqn:E; [done|].
        apply String.eqb_neq in E.
        intros Hget [?|?]%elem_of_cons; [congruence | by apply IH].
Qed.

(** C4. Saving the store and the dynamic exclusions for a root (the save
    succeeding) and loading them again for the same root gives back the
    dynamic exclusion set, and states under which
    [is_path_effectively_selected] answers as before for every path; every
    tracked path has its stored state again, which is also the state the
    next scan seeds it with.  The keys of the store are strings of absolute
    paths that resolve to themselves, as the scan writes them. *)
Theorem config_round_trip
    (fs : FileSystem) (store : dict check_state) (dynamic : gset string)
    (project_root : Path) (disk : files) (config_file_path : Path) :
  fs_is_dir fs project_root = true ->
  get_project_config_file_path fs project_root = Some config_file_path ->
  fs_writable fs config_file_path = true ->
  NoDup (dict_keys store) ->
  Forall (resolved_path_key fs) (dict_keys store) ->
  let reloaded :=
    load_project_config fs project_root
      (save_project_config fs store dynamic project_root disk) in
  (forall P root,
     is_path_effectively_selected fs reloaded.1 P root
     = is_path_effectively_selected fs store P root)
  /\ reloaded.2 = dynamic
  /\ (forall k, dict_get reloaded.1 k = dict_get store k)
  /\ (forall k st rel p_name,
        dict_get store k = Some st -> seed_state reloaded.1 k rel p_name = st).
Proof.
  intros Hdir Hpath Hw Hnodup Hok reloaded. unfold reloaded.
  rewrite (load_after_save fs project_root store dynamic disk config_file_path)
    by done.
  simpl. repeat split.
  intros k st rel p_name Hget. rewrite seed_state_rule.
  unfold seeding_rule. by rewrite Hget.
Qed.

Lemma config_round_trip_witness :
  let reloaded :=
    load_project_config plain_fs proj
      (save_project_config plain_fs sample_store {["*.log"]} proj ∅) in
  (forall P root,
     is_path_effectively_selected plain_fs reloaded.1 P root
     = is_path_effectively_selected plain_fs sample_store P root)
  /\ reloaded.2 = {["*.log"]}
  /\ (forall k, dict_get reloaded.1 k = dict_get sample_store k)
  /\ (forall k st rel p_name,
        dict_get sample_store k = Some st ->
        seed_state reloaded.1 k rel p_name = st).
Proof.
  apply (config_round_trip plain_fs sample_store {["*.log"]} proj ∅
           (mkPath true ["proj"; "_logs"; "_project_mapper_config.json"])).
  - reflexivity.
  - reflexivity.
  - reflexivity.
  - apply (bool_decide_unpack _). by vm_compute.
  - repeat constructor; by vm_compute.
Defined.

Example saved_config_of_sample :
  save_project_config plain_fs sample_store {["*.log"; "*.tmp"]} proj ∅
  !! "/proj/_logs/_project_mapper_config.json"
  = Some (ConfigJson
            {| folder_states :=
                 [ (".", "checked"); ("src", "checked"); ("src/vendor", "unchecked");
                   ("src/vendor/lib", "checked"); ("docs", "checked") ];
               dynamic_file_exclusions := ["*.log"; "*.tmp"] |}).
Proof. by vm_compute. Qed.

(* ===================================================================== *)
(** * The store a scan leaves *)
(* ===================================================================== *)

Lemma dict_keys_set_elem {V} (d : dict V) k v x :
  x ∈ dict_keys (dict_set k v d) -> x = k \/ x ∈ dict_keys d.
Proof.
  destruct (dict_get d k) as [v0|] eqn:Hget.
  - rewrite dict_keys_set_present by (by rewrite Hget). by right.
  - destruct (decide (k ∈ dict_keys d)) as [Hin|Hnotin].
    + exfalso. revert Hget Hin. clear. unfold dict_keys.
      induction d as [|[k' v'] d IH]; simpl.
      * by intros _ ?%elem_of_nil.
      * destruct (String.eqb k' k) eqn:E; [done|].
        apply String.eqb_neq in E.
        intros Hget [?|?]%elem_of_cons; [congruence | by apply IH].
    + rewrite dict_set_fresh by done. unfold dict_keys.
      rewrite fmap_app. simpl.
      intros [?|Hx]%elem_of_app; [by right|].
      apply list_elem_of_singleton in Hx as ->. by left.
Qed.

Lemma tidy_fs_resolves_to_canonical : resolves_to_canonical tidy_fs.
Proof.
  intros p q. simpl.
  destruct (forallb clean_component (parts p)) eqn:Hclean; [|done].
  intros [= <-].
  assert (forall c, In c (parts p) -> clean_component c = true) as Hp.
  { by apply forallb_forall. }
  set (q := joinpath (mkPath true ["work"]) p).
  assert (forall c, In c (parts q) -> clean_component c = true) as Hq.
  { unfold q, joinpath. destruct (is_absolute p); [done|]. simpl.
    intros c [<-|Hc]; [done | by apply Hp]. }
  assert (is_absolute q = true) as Habs.
  { unfold q, joinpath. by destruct (is_absolute p) eqn:E. }
  assert (joinpath (mkPath true ["work"]) q = q) as Hjoin.
  { unfold joinpath at 1. by rewrite Habs. }
  unfold resolved_path_key. rewrite Path_of_str_path_str.
  2:{ apply Forall_forall. intros c Hc. apply Hq. by apply list_elem_of_In. }
  split; [done|]. split; [done|]. simpl.
  rewrite (proj2 (forallb_forall _ _) Hq). by rewrite Hjoin.
Qed.

Section scanned_store.
Variable env : scan_env.
Variable fs : FileSystem.
Hypothesis canonical : resolves_to_canonical fs.

Lemma scan_keeps_store_same {A} (m : scan A) :
  (forall st r st', m st = (r, st') -> item_states st' = item_states st) ->
  scan_keeps_store fs m.
Proof. intros Hm st r st' Hrun Hwf. by rewrite (Hm _ _ _ Hrun). Qed.

Lemma scan_keeps_store_bind {A B} (m : scan A) (k : A -> scan B) :
  scan_keeps_store fs m -> (forall a, scan_keeps_store fs (k a)) ->
  scan_keeps_store fs (scan_bind m k).
Proof.
  intros Hm Hk st r st' Hrun Hwf. unfold scan_bind in Hrun.
  destruct (m st) as [[e|a] st1] eqn:Hfirst.
  - injection Hrun as <- <-. by eapply Hm.
  - eapply Hk; [done|]. by eapply Hm.
Qed.

Lemma scan_keeps_store_for_each {A} (l : list A) (body : A -> scan unit) :
  (forall x, x ∈ l -> scan_keeps_store fs (body x)) ->
  scan_keeps_store fs (for_each l body).
Proof.
  induction l as [|x l IH]; intros Hbody; simpl.
  - apply scan_keeps_store_same. by intros st r st' [= _ <-].
  - apply scan_keeps_store_bind.
    + apply Hbody. by left.
    + intros _. apply IH. intros y Hy. apply Hbody. by right.
Qed.

Lemma scan_keeps_store_set_item_state k v :
  resolved_path_key fs k -> scan_keeps_store fs (set_item_state k v).
Proof.
  intros Hk st r st' [= _ <-] [Hnodup Hall]. simpl. split.
  - by apply dict_set_NoDup.
  - apply Forall_forall. intros x [->|Hx]%dict_keys_set_elem; [done|].
    rewrite Forall_forall in Hall. by apply Hall.
Qed.

Lemma scan_keeps_store_check_scan_timeout :
  scan_keeps_store fs (check_scan_timeout env).
Proof.
  apply scan_keeps_store_same. intros st r st'.
  rewrite check_scan_timeout_unfold. cbv zeta.
  destruct (_ >? _)%Z; [|by intros [= _ <-]].
  destruct (user_continues env (user_asked st)); by intros [= _ <-].
Qed.

Lemma scan_keeps_store_scan_directory_entry
    project_root persisted parent_iid p scan_p :
  (forall q k, scan_keeps_store fs (scan_p q k)) ->
  scan_keeps_store fs
    (scan_directory_entry fs project_root persisted parent_iid p scan_p).
Proof.
  intros Hp. unfold scan_directory_entry.
  destruct (fs_resolve fs p) as [resolved|] eqn:Hres.
  2:{ apply scan_keeps_store_same. by intros st r st' [= _ <-]. }
  destruct (relative_to p project_root) as [rel|].
  2:{ apply scan_keeps_store_same. by intros st r st' [= _ <-]. }
  apply scan_keeps_store_bind.
  { apply scan_keeps_store_set_item_state. by eapply canonical. }
  intros _. apply scan_keeps_store_bind; [|intros _; apply Hp].
  apply scan_keeps_store_same. by intros st r st' [= _ <-].
Qed.

Lemma scan_keeps_store_scan_recursive
    project_root persisted t current_path parent_iid :
  scan_keeps_store fs
    (scan_recursive env fs project_root persisted t current_path parent_iid).
Proof.
  revert current_path parent_iid.
  induction t as [fname|dname|dname items IH] using fs_node_nested_ind;
    intros current_path parent_iid; rewrite scan_recursive_unfold;
    (apply scan_keeps_store_bind; [apply scan_keeps_store_check_scan_timeout|]);
    intros _.
  - apply scan_keeps_store_same. by intros st r st' [= _ <-].
  - apply scan_keeps_store_same. by intros st r st' [= _ <-].
  - apply scan_keeps_store_for_each. intros [item scan_item] Hin.
    apply elem_of_sorted, list_elem_of_In, List.filter_In in Hin as [Hin _].
    apply list_elem_of_In, list_elem_of_fmap in Hin as (item' & [= -> ->] & Hitem).
    apply scan_keeps_store_scan_directory_entry. simpl.
    rewrite Forall_forall in IH. intros q k. by apply IH.
Qed.

(** Whatever way a scan ends, the store it leaves is well formed. *)
Lemma scanned_store_well_formed disk project_root t :
  store_well_formed fs (worker_build_tree_data env fs disk project_root t).2.
Proof.
  unfold worker_build_tree_data.
  set (st0 := {| start_time := clock env 0; clock_reads := 1; user_asked := 0;
                 tree_data := []; item_states := [] |}).
  assert (store_well_formed fs (item_states st0)) as Hwf0.
  { split; [apply NoDup_nil_2 | apply Forall_nil_2]. }
  assert (scan_keeps_store fs (worker_try env fs disk project_root t)) as Hkeeps.
  { unfold worker_try.
    destruct (fs_resolve fs project_root) as [resolved|] eqn:Hres.
    2:{ apply scan_keeps_store_same. by intros st r st' [= _ <-]. }
    apply scan_keeps_store_bind.
    { apply scan_keeps_store_set_item_state. by eapply canonical. }
    intros _. apply scan_keeps_store_bind;
      [|intros _; apply scan_keeps_store_scan_recursive].
    apply scan_keeps_store_same. by intros st r st' [= _ <-]. }
  destruct (worker_try env fs disk project_root t st0) as [[[|]|[]] st] eqn:Hrun;
    simpl; by eapply Hkeeps.
Qed.

(** The store left by a scan survives saving and loading. *)
Lemma scanned_store_round_trip disk project_root t dynamic disk' config_file_path :
  fs_is_dir fs project_root = true ->
  get_project_config_file_path fs project_root = Some config_file_path ->
  fs_writable fs config_file_path = true ->
  let store := (worker_build_tree_data env fs disk project_root t).2 in
  load_project_config fs project_root
    (save_project_config fs store dynamic project_root disk')
  = (store, dynamic).
Proof.
  intros Hdir Hpath Hw store.
  destruct (scanned_store_well_formed disk project_root t) as [Hnodup Hall].
  by eapply load_after_save.
Qed.
End scanned_store.

(* ===================================================================== *)
(** * Further properties of the selection store *)
(* ===================================================================== *)

Lemma selected_root_is_dir fs store P R :
  is_path_effectively_selected fs store P (Some R) = true ->
  fs_is_dir fs R = true.
Proof.
  unfold is_path_effectively_selected. by destruct (fs_is_dir fs R).
Qed.

(** Selection is closed upwards: with a path, every directory between the
    root and the path is effectively selected (a directory given by its
    resolved path). *)
Theorem selection_is_upward_closed
    (fs : FileSystem) (store : dict check_state) (P R P' R' d : Path) :
  fs_resolve fs P = Some P' ->
  fs_resolve fs R = Some R' ->
  on_chain R' P' d ->
  fs_resolve fs d = Some d ->
  is_path_effectively_selected fs store P (Some R) = true ->
  is_path_effectively_selected fs store d (Some R) = true.
Proof.
  intros HP HR [HdR HPd] Hd Hsel.
  pose proof (selected_root_is_dir _ _ _ _ Hsel) as Hdir.
  apply (is_path_effectively_selected_iff fs store P R P' R') in Hsel
    as [_ Hall]; [|done..].
  apply (is_path_effectively_selected_iff fs store d R d R'); [done..|].
  split; [done|]. intros d' [Hd'R Hdd']. apply Hall. split; [done|].
  by eapply is_relative_to_trans.
Qed.

Lemma selection_is_upward_closed_witness :
  is_path_effectively_selected plain_fs sample_store proj (Some proj) = true.
Proof.
  apply (selection_is_upward_closed plain_fs sample_store proj_src proj proj_src
           proj proj).
  - reflexivity.
  - reflexivity.
  - split; reflexivity.
  - reflexivity.
  - reflexivity.
Defined.

(** The answer depends on the stored states of the directories between the
    root and the path only: two stores that agree on them give the same
    answer. *)
Theorem selection_reads_the_chain_only
    (fs : FileSystem) (store1 store2 : dict check_state) (P R : Path) :
  (forall P' R' d,
     fs_resolve fs P = Some P' -> fs_resolve fs R = Some R' ->
     on_chain R' P' d ->
     dict_get store1 (path_str d) = dict_get store2 (path_str d)) ->
  is_path_effectively_selected fs store1 P (Some R)
  = is_path_effectively_selected fs store2 P (Some R).
Proof.
  intros Hagree.
  destruct (fs_is_dir fs R) eqn:Hdir.
  2:{ unfold is_path_effectively_selected. by rewrite Hdir. }
  destruct (fs_resolve fs P) as [P'|] eqn:HP.
  2:{ unfold is_path_effectively_selected. by rewrite Hdir, HP. }
  destruct (fs_resolve fs R) as [R'|] eqn:HR.
  2:{ unfold is_path_effectively_selected. by rewrite Hdir, HP, HR. }
  apply eq_true_iff_eq.
  rewrite !(is_path_effectively_selected_iff fs _ P R P' R') by done.
  assert (forall d, on_chain R' P' d ->
            chain_state store1 R' d = chain_state store2 R' d) as Hstate.
  { intros d Hd. unfold chain_state. by rewrite (Hagree P' R' d). }
  split; intros [Hrel Hall]; (split; [done|]); intros d Hd.
  - rewrite <- Hstate by done. by apply Hall.
  - rewrite Hstate by done. by apply Hall.
Qed.

Lemma selection_reads_the_chain_only_witness :
  is_path_effectively_selected plain_fs sample_store proj_src (Some proj)
  = is_path_effectively_selected plain_fs
      (on_tree_item_click sample_store "/proj/docs") proj_src (Some proj).
Proof.
  apply (selection_reads_the_chain_only plain_fs sample_store
           (on_tree_item_click sample_store "/proj/docs") proj_src proj).
  intros P' R' d [= <-] [= <-] Hd.
  apply on_chain_take in Hd as (k & Hk & ->); [|reflexivity].
  simpl in Hk. destruct k as [|[|[|k]]]; try lia; reflexivity.
Defined.

(** Unchecking the root deselects everything. *)
Theorem unchecked_root_selects_nothing
    (fs : FileSystem) (store : dict check_state) (P R R' : Path) :
  fs_resolve fs R = Some R' ->
  dict_get store (path_str R') = Some S_UNCHECKED ->
  is_path_effectively_selected fs store P (Some R) = false.
Proof.
  intros HR Hroot.
  destruct (fs_resolve fs P) as [P'|] eqn:HP.
  2:{ unfold is_path_effectively_selected.
      destruct (fs_is_dir fs R); [|done]. simpl. by rewrite HP. }
  destruct (is_relative_to P' R') eqn:Hrel.
  - apply (unchecked_on_chain_not_selected fs store P R P' R' R'); try done.
    split; [apply is_relative_to_refl | done].
  - unfold is_path_effectively_selected.
    destruct (fs_is_dir fs R); [|done]. simpl. rewrite HP, HR, Hrel.
    rewrite bool_decide_eq_true_2; [done|].
    intros ->. by rewrite is_relative_to_refl in Hrel.
Qed.

Lemma unchecked_root_selects_nothing_witness :
  is_path_effectively_selected plain_fs billing_store
    (mkPath true ["home"; "dev"; "customer-billing-service-v2"; "src"])
    (Some (Path_of_str billing_root_str)) = false.
Proof.
  apply (unchecked_root_selects_nothing plain_fs billing_store _
           (Path_of_str billing_root_str) (Path_of_str billing_root_str));
    reflexivity.
Defined.

Lemma dict_set_same {V} (d : dict V) k v :
  dict_get d k = Some v -> dict_set k v d = d.
Proof.
  induction d as [|[k' v'] d IH]; simpl; [done|].
  destruct (String.eqb k' k) eqn:E.
  - apply String.eqb_eq in E as ->. by intros [= ->].
  - intros H. by rewrite IH.
Qed.

Lemma dict_set_set {V} (d : dict V) k v w :
  dict_set k w (dict_set k v d) = dict_set k w d.
Proof.
  induction d as [|[k' v'] d IH]; simpl.
  - by rewrite String.eqb_refl.
  - destruct (String.eqb k' k) eqn:E; simpl.
    + by rewrite String.eqb_refl.
    + by rewrite E, IH.
Qed.

(** Clicking an item twice restores the store as it was, entry for entry;
    a click on an item without a state changes nothing. *)
Theorem toggle_twice_restores_store (store : dict check_state) (item_id : string) :
  on_tree_item_click (on_tree_item_click store item_id) item_id = store
  /\ (dict_get store item_id = None -> on_tree_item_click store item_id = store).
Proof.
  split.
  - unfold on_tree_item_click at 2.
    destruct (dict_get store item_id) as [s|] eqn:Hget.
    + unfold on_tree_item_click. rewrite dict_get_set_eq, dict_set_set.
      apply dict_set_same. rewrite Hget. by destruct s.
    + unfold on_tree_item_click. by rewrite Hget.
  - intros Hget. unfold on_tree_item_click. by rewrite Hget.
Qed.

Lemma toggle_twice_restores_store_witness :
  on_tree_item_click sample_store "error_locked_/proj/locked" = sample_store.
Proof.
  apply (proj2 (toggle_twice_restores_store sample_store "error_locked_/proj/locked")).
  reflexivity.
Defined.

(* ===================================================================== *)
(** * Managing the dynamic exclusions *)
(* ===================================================================== *)

Lemma should_exclude_file_mono (dynamic dynamic' : gset string) filename :
  dynamic ⊆ dynamic' ->
  should_exclude_file dynamic filename = true ->
  should_exclude_file dynamic' filename = true.
Proof.
  intros Hsub (pattern & Hin & Hne & Hm)%should_exclude_file_iff.
  apply should_exclude_file_iff. exists pattern. split; [|done].
  apply elem_of_union in Hin as [Hin|Hin]; apply elem_of_union;
    [by left | right; by apply Hsub].
Qed.

(** The exclusions read back after a successful save are the ones saved,
    whatever the store holds. *)
Lemma load_exclusions_after_save fs store (dynamic : gset string) project_root
    (disk : files) config_file_path :
  fs_is_dir fs project_root = true ->
  get_project_config_file_path fs project_root = Some config_file_path ->
  fs_writable fs config_file_path = true ->
  (load_project_config fs project_root
     (save_project_config fs store dynamic project_root disk)).2 = dynamic.
Proof.
  intros Hdir Hpath Hw. unfold load_project_config, save_project_config.
  rewrite Hdir, Hpath, Hw. simpl negb. cbv iota.
  rewrite lookup_insert_eq. simpl. apply loaded_exclusions.
Qed.

(** More patterns exclude more: a file excluded under a set of dynamic
    patterns stays excluded under every larger set, and the predefined
    patterns exclude whatever the dynamic set is. *)
Theorem exclusion_grows_with_patterns
    (dynamic dynamic' : gset string) (filename : string) :
  dynamic ⊆ dynamic' ->
  (should_exclude_file dynamic filename = true ->
   should_exclude_file dynamic' filename = true)
  /\ (should_exclude_file ∅ filename = true ->
      should_exclude_file dynamic filename = true).
Proof.
  intros Hsub. split.
  - by apply should_exclude_file_mono.
  - apply should_exclude_file_mono. set_solver.
Qed.

Lemma exclusion_grows_with_patterns_witness :
  (should_exclude_file {["*.log"]} "build.log" = true ->
   should_exclude_file {["*.log"; "notes.txt"]} "build.log" = true)
  /\ (should_exclude_file ∅ "build.log" = true ->
      should_exclude_file {["*.log"]} "build.log" = true).
Proof.
  apply (exclusion_grows_with_patterns {["*.log"]} {["*.log"; "notes.txt"]}
           "build.log").
  set_solver.
Defined.



Lemma remove_loop_spec to_remove (dynamic : gset string) count :
  remove_loop to_remove dynamic count
  = (dynamic ∖ list_to_set to_remove,
     count + (size dynamic - size (dynamic ∖ list_to_set to_remove))).
Proof.
  revert dynamic count. induction to_remove as [|item rest IH];
    intros dynamic count; simpl.
  - f_equal; [set_solver|].
    replace (dynamic ∖ ∅) with dynamic by set_solver. lia.
  - case_bool_decide as Hin.
    + rewrite IH.
      assert ((dynamic ∖ {[item]}) ∖ list_to_set rest
              = dynamic ∖ ({[item]} ∪ list_to_set rest)) as -> by set_solver.
      f_equal.
      assert (size (dynamic ∖ {[item]}) = size dynamic - 1) as Hsize.
      { rewrite size_difference by set_solver. by rewrite size_singleton. }
      assert (size (dynamic ∖ ({[item]} ∪ list_to_set rest))
              <= size (dynamic ∖ {[item]})) as Hle.
      { apply subseteq_size. set_solver. }
      assert (1 <= size dynamic) as Hpos.
      { assert ({[item]} ⊆ dynamic) as Hsub by set_solver.
        apply subseteq_size in Hsub. by rewrite size_singleton in Hsub. }
      lia.
    + rewrite IH.
      assert (dynamic ∖ list_to_set rest
              = dynamic ∖ ({[item]} ∪ list_to_set rest)) as -> by set_solver.
      done.
Qed.

Lemma size_list_to_set_le (l : list string) :
  size (list_to_set l : gset string) <= length l.
Proof.
  induction l as [|x l IH]; simpl.
  - done.
  - pose proof (size_union_alt ({[x]} : gset string) (list_to_set l)) as Hsize.
    rewrite size_singleton in Hsize.
    assert (size ((list_to_set l : gset string) ∖ {[x]})
            <= size (list_to_set l : gset string)); [|lia].
    apply subseteq_size. intros y Hy. by apply elem_of_difference in Hy as [? _].
Qed.

(** Removing the ticked patterns.  Exactly the ticked patterns leave the
    dynamic exclusions, every other pattern stays; the count in the message
    is the number of patterns that left the set, at most the number ticked.
    With nothing ticked, or none of the ticked patterns in the set, nothing
    changes and nothing is saved; otherwise the new exclusions are saved
    at once. *)
Theorem remove_checked_from_popup_effect
    (fs : FileSystem) (store : dict check_state) (dynamic : gset string)
    (to_remove : list string) (project_root_path_str : string) (disk : files) :
  let '(dynamic', disk', message) :=
    remove_checked_from_popup fs store dynamic to_remove project_root_path_str disk in
  dynamic' = dynamic ∖ list_to_set to_remove
  /\ (forall n, message = Success n ->
        n = size dynamic - size dynamic' /\ 0 < n <= length to_remove)
  /\ (message <> NoSelection <-> to_remove <> [])
  /\ ((forall n, message <> Success n) -> dynamic' = dynamic /\ disk' = disk)
  /\ (forall n config_file_path,
        message = Success n ->
        project_root_path_str <> "" ->
        fs_is_dir fs (Path_of_str project_root_path_str) = true ->
        get_project_config_file_path fs (Path_of_str project_root_path_str)
        = Some config_file_path ->
        fs_writable fs config_file_path = true ->
        (load_project_config fs (Path_of_str project_root_path_str) disk').2
        = dynamic').
Proof.
  unfold remove_checked_from_popup.
  destruct to_remove as [|item rest] eqn:Hlist.
  { simpl. split; [set_solver|]. repeat split; try done. }
  rewrite <- Hlist. rewrite remove_loop_spec. simpl Nat.add.
  set (remaining := dynamic ∖ list_to_set to_remove).
  assert (size dynamic - size remaining <= length to_remove) as Hbound.
  { assert (size dynamic <= size remaining + size (list_to_set to_remove : gset string)).
    { transitivity (size (remaining ∪ list_to_set to_remove)).
      - apply subseteq_size. unfold remaining. intros x Hx.
        destruct (decide (x ∈ (list_to_set to_remove : gset string)));
          [apply elem_of_union_r | apply elem_of_union_l, elem_of_difference]; done.
      - rewrite size_union_alt.
        assert (size ((list_to_set to_remove : gset string) ∖ remaining)
                <= size (list_to_set to_remove : gset string)); [|lia].
        apply subseteq_size. intros x Hx. by apply elem_of_difference in Hx as [? _]. }
    pose proof (size_list_to_set_le to_remove) as Hle. lia. }
  destruct (0 <? size dynamic - size remaining)%nat eqn:Hpos.
  - apply Nat.ltb_lt in Hpos. split; [done|]. split; [|split; [|split]].
    + intros n [= <-]. lia.
    + split; [by rewrite Hlist | done].
    + intros Hn. exfalso. by apply (Hn (size dynamic - size remaining)).
    + intros n cfg _ Hroot Hdir Hpath Hw.
      apply String.eqb_neq in Hroot. rewrite Hroot. simpl negb. cbv iota.
      by eapply load_exclusions_after_save.
  - apply Nat.ltb_ge in Hpos. split; [done|]. split; [|split; [|split]].
    + intros n [=].
    + split; [by rewrite Hlist | done].
    + intros _. split; [|done].
      assert (remaining ⊆ dynamic) as Hsub by (unfold remaining; set_solver).
      apply set_subseteq_size_eq; [done|]. lia.
    + intros n cfg [=].
Qed.

Lemma remove_checked_from_popup_effect_witness :
  (remove_checked_from_popup plain_fs sample_store {["*.log"; "notes.txt"]}
     ["*.log"; "*.tmp"] "/proj" ∅).2 = Success 1.
Proof.
  pose proof (remove_checked_from_popup_effect plain_fs sample_store
                {["*.log"; "notes.txt"]} ["*.log"; "*.tmp"] "/proj" ∅) as H.
  destruct (remove_checked_from_popup plain_fs sample_store
              {["*.log"; "notes.txt"]} ["*.log"; "*.tmp"] "/proj" ∅)
    as [[dynamic' disk'] message] eqn:Hrun.
  destruct H as (Hset & Hcount & _). simpl.
  destruct message as [|n|]; try (by vm_compute in Hrun).
  destruct (Hcount n eq_refl) as [-> _]. rewrite Hset. by vm_compute.
Defined.

(* ===================================================================== *)
(** * The saved configuration file *)
(* ===================================================================== *)

Lemma insert_sorted_Permutation {A} (le : A -> A -> bool) x l :
  insert_sorted le x l ≡ₚ x :: l.
Proof.
  induction l as [|y l IH]; simpl; [done|].
  destruct (le x y); [done|]. rewrite IH. apply Permutation_swap.
Qed.

Lemma sorted_Permutation {A} (le : A -> A -> bool) l : sorted le l ≡ₚ l.
Proof.
  induction l as [|x l IH]; simpl; [done|].
  by rewrite insert_sorted_Permutation, IH.
Qed.

Lemma insert_sorted_Sorted x l :
  Sorted (fun a b => String.leb a b = true) l ->
  Sorted (fun a b => String.leb a b = true) (insert_sorted String.leb x l).
Proof.
  induction 1 as [|y l Hsorted IH Hhd]; simpl.
  - by repeat constructor.
  - destruct (String.leb x y) eqn:Hxy.
    + constructor; [by constructor | by constructor].
    + constructor; [done|].
      destruct (String.leb_total x y) as [Hle|Hle]; [congruence|].
      destruct l as [|z l]; simpl; [by constructor|].
      destruct (String.leb x z); constructor; [done|].
      by inversion Hhd.
Qed.

Lemma sorted_Sorted l :
  Sorted (fun a b => String.leb a b = true) (sorted String.leb l).
Proof.
  induction l as [|x l IH]; simpl; [constructor|]. by apply insert_sorted_Sorted.
Qed.

Lemma fold_left_dict_set_NoDup {V W} (f : string -> string) (g : V -> W)
    (l : list (string * V)) (acc : dict W) :
  NoDup (dict_keys acc) ->
  NoDup (dict_keys (fold_left (fun acc '(k, v) => dict_set (f k) (g v) acc) l acc)).
Proof.
  revert acc. induction l as [|[k v] l IH]; intros acc Hacc; simpl; [done|].
  by apply IH, dict_set_NoDup.
Qed.

Lemma dict_set_length {V} (d : dict V) k v :
  length (dict_set k v d) <= S (length d).
Proof.
  induction d as [|[k' v'] d IH]; simpl; [done|].
  destruct (String.eqb k' k); simpl; lia.
Qed.

Lemma fold_left_dict_set_length {V W} (f : string -> string) (g : V -> W)
    (l : list (string * V)) (acc : dict W) :
  length (fold_left (fun acc '(k, v) => dict_set (f k) (g v) acc) l acc)
  <= length acc + length l.
Proof.
  revert acc. induction l as [|[k v] l IH]; intros acc; simpl; [lia|].
  etransitivity; [apply IH|]. pose proof (dict_set_length acc (f k) (g v)). lia.
Qed.



(* ===================================================================== *)
(** * Moving a project *)
(* ===================================================================== *)

Section moving.
Variables fs1 fs2 : FileSystem.
Variables old_root new_root : Path.
Hypothesis old_root_absolute : is_absolute old_root = true.
Hypothesis new_root_clean :
  Forall (fun c => clean_component c = true) (parts new_root).

Lemma relative_key_below k :
  resolved_path_key fs1 k ->
  is_relative_to (Path_of_str k) old_root = true ->
  relative_key old_root k
  = path_str {| is_absolute := false;
                parts := drop (length (parts old_root)) (parts (Path_of_str k)) |}.
Proof.
  intros (Habs & _ & _) Hrel. unfold relative_key, relative_to.
  by rewrite Habs, old_root_absolute, Hrel.
Qed.

Lemma moved_clean k :
  Forall (fun c => clean_component c = true) (parts (moved old_root new_root k)).
Proof.
  simpl. apply Forall_app. split; [done|]. apply Forall_drop, Path_of_str_clean.
Qed.

Lemma load_folder_state_moved acc k st :
  resolved_path_key fs1 k ->
  is_relative_to (Path_of_str k) old_root = true ->
  fs_resolve fs2 (moved old_root new_root k) = Some (moved old_root new_root k) ->
  load_folder_state fs2 new_root acc (relative_key old_root k) (state_str st)
  = dict_set (path_str (moved old_root new_root k)) st acc.
Proof.
  intros Hk Hrel Hres. unfold load_folder_state.
  rewrite state_of_str_state_str, relative_key_below by done.
  rewrite Path_of_str_path_str by (simpl; apply Forall_drop, Path_of_str_clean).
  unfold joinpath, moved in *. simpl in Hres |- *. by rewrite Hres.
Qed.

Lemma moved_inj k1 k2 :
  resolved_path_key fs1 k1 -> resolved_path_key fs1 k2 ->
  is_relative_to (Path_of_str k1) old_root = true ->
  is_relative_to (Path_of_str k2) old_root = true ->
  path_str (moved old_root new_root k1) = path_str (moved old_root new_root k2) ->
  k1 = k2.
Proof.
  intros (Ha1 & Hs1 & _) (Ha2 & Hs2 & _) Hr1 Hr2 Heq.
  apply (f_equal Path_of_str) in Heq.
  rewrite !Path_of_str_path_str in Heq by apply moved_clean.
  injection Heq as Heq. apply app_inv_head in Heq.
  apply is_relative_to_spec in Hr1 as [_ [s1 Hp1]].
  apply is_relative_to_spec in Hr2 as [_ [s2 Hp2]].
  change (List.filter keeps_component (Str.split slash k1))
    with (parts (Path_of_str k1)) in Heq.
  change (List.filter keeps_component (Str.split slash k2))
    with (parts (Path_of_str k2)) in Heq.
  rewrite Hp1, Hp2, !drop_app_length in Heq. subst s2.
  rewrite <- Hs1, <- Hs2. f_equal.
  destruct (Path_of_str k1) as [a1 p1], (Path_of_str k2) as [a2 p2].
  simpl in *. congruence.
Qed.

Lemma load_moved_folder_states (store : dict check_state) acc :
  Forall (resolved_path_key fs1) (dict_keys store) ->
  Forall (fun k => is_relative_to (Path_of_str k) old_root = true) (dict_keys store) ->
  Forall (fun k => fs_resolve fs2 (moved old_root new_root k)
                   = Some (moved old_root new_root k)) (dict_keys store) ->
  fold_left
    (fun acc '(rel_path_str, state) =>
       load_folder_state fs2 new_root acc rel_path_str state)
    ((fun '(k, st) => (relative_key old_root k, state_str st)) <$> store) acc
  = fold_left
      (fun acc '(k, st) => dict_set (path_str (moved old_root new_root k)) (id st) acc)
      store acc.
Proof.
  revert acc. induction store as [|[k st] store IH]; intros acc Hok Hbelow Hres; [done|].
  unfold dict_keys in *. simpl in *.
  apply Forall_cons in Hok as [Hk Hok]. apply Forall_cons in Hbelow as [Hb Hbelow].
  apply Forall_cons in Hres as [Hr Hres].
  rewrite load_folder_state_moved by done. by apply IH.
Qed.

End moving.

(** The configuration moves with the project.  A store as the scan builds
    it for a project at [old_root] is saved; the project directory, with the
    configuration file in it, is moved to [new_root], where every tracked
    directory is found again.  Loading there gives the same exclusions and,
    in the same order, every tracked directory with its state at its new
    place: the saved keys are relative to the root. *)
Theorem config_moves_with_project
    (fs1 fs2 : FileSystem) (store : dict check_state) (dynamic : gset string)
    (old_root new_root : Path) (disk1 disk2 : files)
    (old_config_path new_config_path : Path) :
  fs_is_dir fs1 old_root = true ->
  get_project_config_file_path fs1 old_root = Some old_config_path ->
  fs_writable fs1 old_config_path = true ->
  store_well_formed fs1 store ->
  is_absolute old_root = true ->
  Forall (fun k => is_relative_to (Path_of_str k) old_root = true) (dict_keys store) ->
  fs_is_dir fs2 new_root = true ->
  get_project_config_file_path fs2 new_root = Some new_config_path ->
  Forall (fun c => clean_component c = true) (parts new_root) ->
  Forall (fun k => fs_resolve fs2 (moved old_root new_root k)
                   = Some (moved old_root new_root k)) (dict_keys store) ->
  disk2 !! path_str new_config_path
  = save_project_config fs1 store dynamic old_root disk1 !! path_str old_config_path ->
  load_project_config fs2 new_root disk2
  = ((fun '(k, st) => (path_str (moved old_root new_root k), st)) <$> store, dynamic).
Proof.
  intros Hdir1 Hpath1 Hw1 [Hnodup Hok] Habs Hbelow Hdir2 Hpath2 Hclean Hres Hdisk.
  unfold load_project_config. rewrite Hdir2, Hpath2. simpl negb. cbv iota.
  rewrite Hdisk. unfold save_project_config.
  rewrite Hdir1, Hpath1, Hw1. simpl negb. cbv iota.
  rewrite lookup_insert_eq. cbv iota. simpl folder_states.
  simpl dynamic_file_exclusions.
  rewrite (saved_folder_states fs1) by done.
  rewrite (load_moved_folder_states fs1 fs2) by done.
  rewrite loaded_exclusions. f_equal.
  rewrite (fold_left_dict_set_fresh
             (fun k => path_str (moved old_root new_root k)) id); simpl.
  - done.
  - apply NoDup_fmap_2_strong; [|done].
    rewrite Forall_forall in Hok. rewrite Forall_forall in Hbelow.
    intros k1 k2 H1 H2. apply (moved_inj fs1); auto.
Qed.

Lemma config_moves_with_project_witness :
  load_project_config plain_fs (mkPath true ["srv"; "site"])
    (carried (save_project_config plain_fs sample_store {["*.log"]} proj ∅)
       "/proj/_logs/_project_mapper_config.json"
       "/srv/site/_logs/_project_mapper_config.json")
  = ([ ("/srv/site", S_CHECKED); ("/srv/site/src", S_CHECKED);
       ("/srv/site/src/vendor", S_UNCHECKED);
       ("/srv/site/src/vendor/lib", S_CHECKED); ("/srv/site/docs", S_CHECKED) ],
     {["*.log"]}).
Proof.
  apply (config_moves_with_project plain_fs plain_fs sample_store {["*.log"]} proj
           (mkPath true ["srv"; "site"]) ∅ _
           (mkPath true ["proj"; "_logs"; "_project_mapper_config.json"])
           (mkPath true ["srv"; "site"; "_logs"; "_project_mapper_config.json"])).
  - reflexivity.
  - reflexivity.
  - reflexivity.
  - split; [apply (bool_decide_unpack _); by vm_compute|].
    repeat constructor; by vm_compute.
  - reflexivity.
  - repeat constructor.
  - reflexivity.
  - reflexivity.
  - repeat constructor.
  - repeat constructor.
  - by vm_compute.
Defined.

(* ===================================================================== *)
(** * What a backup holds *)
(* ===================================================================== *)

Lemma fold_left_filter_fmap {A B C} (g : A -> B) (P : B -> bool)
    (F : C -> B -> C) (l : list A) (acc : C) :
  fold_left F (List.filter P (g <$> l)) acc
  = fold_left (fun acc a => F acc (g a)) (List.filter (fun a => P (g a)) l) acc.
Proof.
  revert acc. induction l as [|a l IH]; intros acc; simpl; [done|].
  destruct (P (g a)); simpl; by rewrite IH.
Qed.

Lemma walk_backup_dir fs store dynamic tar_name root dname items at_path tar :
  walk_backup fs store dynamic tar_name root (Dir dname (Some items)) at_path tar
  = match
      (if negb (is_path_effectively_selected fs store at_path (Some root))
       then inr tar
       else add_files fs dynamic tar_name root at_path
              (node_name <$> List.filter (fun n => negb (node_is_dir n)) items) tar)
    with
    | inl tar' => inl tar'
    | inr tar' =>
        fold_left
          (fun acc d =>
             match acc with
             | inl tar'' => inl tar''
             | inr tar'' =>
                 walk_backup fs store dynamic tar_name root d
                   (child at_path (node_name d)) tar''
             end)
          (List.filter
             (fun d => node_is_dir d
                       && is_path_effectively_selected fs store
                            (child at_path (node_name d)) (Some root))
             items)
          (inr tar')
    end.
Proof.
  simpl. destruct (if negb _ then _ else _) as [tar'|tar']; [done|].
  by rewrite fold_left_filter_fmap.
Qed.

Lemma walk_backup_fold_stops {A} (F : A -> tar_state -> tar_state + tar_state)
    (ds : list A) tar :
  fold_left
    (fun acc d => match acc with inl tar'' => inl tar'' | inr tar'' => F d tar'' end)
    ds (inl tar)
  = inl tar.
Proof. induction ds as [|d ds IH]; simpl; [done|]. apply IH. Qed.

Lemma holds_file_is_dir t at_path dir fname :
  holds_file t at_path dir fname -> node_is_dir t = true.
Proof. by destruct 1. Qed.

Lemma child_is_relative_to p c : is_relative_to (child p c) p = true.
Proof. apply is_relative_to_spec. split; [done|]. by exists [c]. Qed.

Lemma holds_file_below t at_path dir fname :
  holds_file t at_path dir fname -> is_relative_to dir at_path = true.
Proof.
  induction 1 as [|dname items at_path d dir fname Hd Hholds IH].
  - apply is_relative_to_refl.
  - eapply is_relative_to_trans; [exact IH|]. apply child_is_relative_to.
Qed.

Section backup_walk.
Variable fs : FileSystem.
Variable store : dict check_state.
Variable dynamic : gset string.
Variable tar_name : Path.
Variable root : Path.
Variable I : tar_state -> Prop.

Lemma add_files_keeps dir file_names tar :
  (forall fname m tar,
     fname ∈ file_names -> should_exclude_file dynamic fname = false ->
     relative_to (child dir fname) root = Some m -> I tar ->
     (os_path_abspath fs (child dir fname) = tar_name ->
      I {| members := members tar;
           files_added_count := S (files_added_count tar) |})
     /\ (os_path_abspath fs (child dir fname) <> tar_name ->
         I {| members := members tar ++ [m];
              files_added_count := S (files_added_count tar) |})) ->
  I tar ->
  I (tar_of (add_files fs dynamic tar_name root dir file_names tar)).
Proof.
  revert tar. induction file_names as [|fname rest IH]; intros tar Hstep Htar; simpl;
    [done|].
  assert (forall f m tar,
            f ∈ rest -> should_exclude_file dynamic f = false ->
            relative_to (child dir f) root = Some m -> I tar ->
            (os_path_abspath fs (child dir f) = tar_name ->
             I {| members := members tar;
                  files_added_count := S (files_added_count tar) |})
            /\ (os_path_abspath fs (child dir f) <> tar_name ->
                I {| members := members tar ++ [m];
                     files_added_count := S (files_added_count tar) |})) as Hrest.
  { intros f m tar' Hf. apply Hstep. by right. }
  destruct (should_exclude_file dynamic fname) eqn:Hex; [by apply IH|].
  destruct (relative_to (child dir fname) root) as [m|] eqn:Hrel; [|done].
  destruct (Hstep fname m tar (ltac:(by left)) Hex Hrel Htar) as [Hself Hother].
  case_bool_decide as Hname.
  - apply IH; [done|]. by apply Hself.
  - destruct (fs_read fs (child dir fname)); [|done].
    apply IH; [done|]. by apply Hother.
Qed.

(** Whatever holds of the archive at the start of the walk and is kept when
    a file is counted, and added unless it is the archive itself, holds of
    the archive when the walk ends or breaks off; the files in question are
    those listed by an effectively selected directory under a name that is
    not excluded. *)
Lemma walk_backup_keeps t :
  forall at_path tar,
    (forall dir fname m tar,
       holds_file t at_path dir fname ->
       is_path_effectively_selected fs store dir (Some root) = true ->
       should_exclude_file dynamic fname = false ->
       relative_to (child dir fname) root = Some m -> I tar ->
       (os_path_abspath fs (child dir fname) = tar_name ->
        I {| members := members tar;
             files_added_count := S (files_added_count tar) |})
       /\ (os_path_abspath fs (child dir fname) <> tar_name ->
           I {| members := members tar ++ [m];
                files_added_count := S (files_added_count tar) |})) ->
    I tar ->
    I (tar_of (walk_backup fs store dynamic tar_name root t at_path tar)).
Proof.
  induction t as [fname|dname|dname items IH] using fs_node_nested_ind;
    intros at_path tar Hstep Htar; [done..|].
  rewrite walk_backup_dir.
  set (keep := fun d => node_is_dir d
                        && is_path_effectively_selected fs store
                             (child at_path (node_name d)) (Some root)).
  assert (forall kept tar',
            Forall (fun d => d ∈ items) kept ->
            I tar' ->
            I (tar_of
                 (fold_left
                    (fun acc d =>
                       match acc with
                       | inl tar'' => inl tar''
                       | inr tar'' =>
                           walk_backup fs store dynamic tar_name root d
                             (child at_path (node_name d)) tar''
                       end)
                    kept (inr tar')))) as Hfold.
  { induction kept as [|d kept IHkept]; intros tar' Hin Htar'; [done|].
    apply Forall_cons in Hin as [Hd Hin]. simpl.
    rewrite Forall_forall in IH.
    specialize (IH d Hd (child at_path (node_name d)) tar').
    destruct (walk_backup fs store dynamic tar_name root d
                (child at_path (node_name d)) tar') as [tar2|tar2] eqn:Hwalk.
    - rewrite walk_backup_fold_stops. apply IH; [|done].
      intros dir fname m tar3 Hholds. apply Hstep. by eapply holds_below.
    - apply IHkept; [done|]. apply IH; [|done].
      intros dir fname m tar3 Hholds. apply Hstep. by eapply holds_below. }
  assert (Forall (fun d => d ∈ items) (List.filter keep items)) as Hkept.
  { apply Forall_forall. intros d Hd.
    apply list_elem_of_In, List.filter_In in Hd as [Hd _].
    by apply list_elem_of_In. }
  destruct (is_path_effectively_selected fs store at_path (Some root)) eqn:Hsel;
    cbn [negb]; [|by apply Hfold].
  pose proof (add_files_keeps at_path
                (node_name <$> List.filter (fun n => negb (node_is_dir n)) items) tar)
    as Hadd.
  assert (I (tar_of (add_files fs dynamic tar_name root at_path
                       (node_name <$> List.filter (fun n => negb (node_is_dir n)) items)
                       tar))) as Hadded.
  { apply Hadd; [|done]. intros fname m tar' Hf Hex Hrel.
    apply (Hstep at_path fname); try done. apply holds_here.
    apply list_elem_of_fmap in Hf as (n & -> & Hn).
    apply list_elem_of_In, List.filter_In in Hn as [Hn Hfile].
    apply list_elem_of_In in Hn. by destruct n. }
  destruct (add_files fs dynamic tar_name root at_path _ tar) as [tar'|tar'];
    [done | by apply Hfold].
Qed.

End backup_walk.


(** A backup that walks its own directory: the archive is counted and left
    out. *)
Example backup_counts_its_own_archive :
  backup_project_impl plain_fs archive_store ∅ empty_tgz_size
    "2026-11-04_12-00-00" "/proj" archive_disk
  = Some {| archive_on_disk :=
              Some ("proj_backup.tar_2026-11-04_12-00-00.gz",
                    [ mkPath false ["a.txt"];
                      mkPath false ["_logs"; "_projectBACKUP_zips"; "old.txt"] ]);
            added := 3 |}.
Proof. by vm_compute. Qed.


Section backup_complete.
Variable fs : FileSystem.
Variable store : dict check_state.
Variable dynamic : gset string.
Variable tar_name : Path.
Variable root : Path.
Hypothesis fs_plain : no_symlinks fs.
Hypothesis root_absolute : is_absolute root = true.

Lemma below_root_absolute d :
  is_relative_to d root = true -> is_absolute d = true.
Proof. intros [Ha _]%is_relative_to_spec. by rewrite Ha. Qed.

(** On a disk without symbolic links, the directories above a selected
    directory are selected. *)
Lemma selected_ancestor dir d :
  is_relative_to d root = true ->
  is_relative_to dir d = true ->
  is_path_effectively_selected fs store dir (Some root) = true ->
  is_path_effectively_selected fs store d (Some root) = true.
Proof.
  intros Hd Hdir Hsel.
  pose proof (selected_root_is_dir _ _ _ _ Hsel) as Hisdir.
  assert (is_relative_to dir root = true) as Hdir_root
    by (by eapply is_relative_to_trans).
  apply (is_path_effectively_selected_iff fs store dir root dir root) in Hsel
    as [_ Hall]; [|done|by apply fs_plain, below_root_absolute|by apply fs_plain].
  apply (is_path_effectively_selected_iff fs store d root d root);
    [done|by apply fs_plain, below_root_absolute|by apply fs_plain|].
  split; [done|]. intros d' [H1 H2]. apply Hall. split; [done|].
  by apply (is_relative_to_trans dir d d').
Qed.

Lemma add_files_complete dir file_names tar :
  is_relative_to dir root = true ->
  (forall fname,
     fname ∈ file_names -> should_exclude_file dynamic fname = false ->
     os_path_abspath fs (child dir fname) <> tar_name ->
     is_Some (fs_read fs (child dir fname))) ->
  exists tar',
    add_files fs dynamic tar_name root dir file_names tar = inr tar'
    /\ members tar ⊆ members tar'
    /\ forall fname,
         fname ∈ file_names -> should_exclude_file dynamic fname = false ->
         os_path_abspath fs (child dir fname) <> tar_name ->
         exists m, relative_to (child dir fname) root = Some m /\ m ∈ members tar'.
Proof.
  intros Hdir. revert tar.
  induction file_names as [|fname rest IH]; intros tar Hread; simpl.
  - exists tar. split; [done|]. split; [done|]. by intros f ?%elem_of_nil.
  - assert (forall f,
              f ∈ rest -> should_exclude_file dynamic f = false ->
              os_path_abspath fs (child dir f) <> tar_name ->
              is_Some (fs_read fs (child dir f))) as Hrest.
    { intros f Hf. apply Hread. by right. }
    destruct (should_exclude_file dynamic fname) eqn:Hex.
    + destruct (IH tar Hrest) as (tar' & Hrun & Hsub & Hall).
      exists tar'. split; [done|]. split; [done|].
      intros f [->|Hf]%elem_of_cons Hf_ex; [congruence|]. by apply Hall.
    + assert (is_relative_to (child dir fname) root = true) as Hrel.
      { eapply is_relative_to_trans; [apply child_is_relative_to | done]. }
      unfold relative_to at 1. rewrite Hrel.
      set (m := {| is_absolute := false;
                   parts := drop (length (parts root)) (parts (child dir fname)) |}).
      case_bool_decide as Hname.
      * destruct (IH {| members := members tar;
                        files_added_count := S (files_added_count tar) |} Hrest)
          as (tar' & Hrun & Hsub & Hall).
        exists tar'. split; [done|]. split; [done|].
        intros f [->|Hf]%elem_of_cons Hf_ex Hf_other; [done|]. by apply Hall.
      * destruct (Hread fname) as [content Hcontent]; [by left | done..|].
        rewrite Hcontent.
        destruct (IH {| members := members tar ++ [m];
                        files_added_count := S (files_added_count tar) |} Hrest)
          as (tar' & Hrun & Hsub & Hall).
        exists tar'. split; [done|]. simpl in Hsub. split.
        -- intros x Hx. apply Hsub, elem_of_app. by left.
        -- intros f [->|Hf]%elem_of_cons Hf_ex Hf_other; [|by apply Hall].
           exists m. split; [unfold relative_to; by rewrite Hrel|].
           apply Hsub, elem_of_app. right. by left.
Qed.

Lemma walk_backup_complete t :
  forall at_path tar,
    is_relative_to at_path root = true ->
    (forall dir fname,
       holds_file t at_path dir fname ->
       is_path_effectively_selected fs store dir (Some root) = true ->
       should_exclude_file dynamic fname = false ->
       os_path_abspath fs (child dir fname) <> tar_name ->
       is_Some (fs_read fs (child dir fname))) ->
    exists tar',
      walk_backup fs store dynamic tar_name root t at_path tar = inr tar'
      /\ members tar ⊆ members tar'
      /\ forall dir fname,
           holds_file t at_path dir fname ->
           is_path_effectively_selected fs store dir (Some root) = true ->
           should_exclude_file dynamic fname = false ->
           os_path_abspath fs (child dir fname) <> tar_name ->
           exists m, relative_to (child dir fname) root = Some m
                     /\ m ∈ members tar'.
Proof.
  induction t as [fname|dname|dname items IH] using fs_node_nested_ind;
    intros at_path tar Hat Hread.
  - exists tar. split; [done|]. split; [done|]. intros dir f Hh. inversion Hh.
  - exists tar. split; [done|]. split; [done|]. intros dir f Hh. inversion Hh.
  - rewrite walk_backup_dir.
    set (keep := fun d => node_is_dir d
                          && is_path_effectively_selected fs store
                               (child at_path (node_name d)) (Some root)).
    assert (exists tar1,
              (if negb (is_path_effectively_selected fs store at_path (Some root))
               then inr tar
               else add_files fs dynamic tar_name root at_path
                      (node_name <$> List.filter (fun n => negb (node_is_dir n)) items)
                      tar) = inr tar1
              /\ members tar ⊆ members tar1
              /\ forall fname,
                   File fname ∈ items ->
                   is_path_effectively_selected fs store at_path (Some root) = true ->
                   should_exclude_file dynamic fname = false ->
                   os_path_abspath fs (child at_path fname) <> tar_name ->
                   exists m, relative_to (child at_path fname) root = Some m
                             /\ m ∈ members tar1) as (tar1 & -> & Hsub1 & Hhere).
    { destruct (is_path_effectively_selected fs store at_path (Some root)) eqn:Hsel;
        cbn [negb].
      - destruct (add_files_complete at_path
                    (node_name <$> List.filter (fun n => negb (node_is_dir n)) items)
                    tar Hat) as (tar1 & Hrun & Hsub & Hall).
        { intros f Hf Hex. apply Hread; [|done..]. apply holds_here.
          apply list_elem_of_fmap in Hf as (n & -> & Hn).
          apply list_elem_of_In, List.filter_In in Hn as [Hn Hfile].
          apply list_elem_of_In in Hn. by destruct n. }
        exists tar1. split; [done|]. split; [done|].
        intros f Hf _ Hex. apply Hall; [|done].
        apply list_elem_of_fmap. exists (File f). split; [done|].
        apply list_elem_of_In, List.filter_In. split; [by apply list_elem_of_In|done].
      - exists tar. split; [done|]. split; [done|]. by intros f _ ?. }
    assert (forall ds tar1,
              Forall (fun d => d ∈ items) ds ->
              exists tar',
                fold_left
                  (fun acc d =>
                     match acc with
                     | inl tar'' => inl tar''
                     | inr tar'' =>
                         walk_backup fs store dynamic tar_name root d
                           (child at_path (node_name d)) tar''
                     end)
                  ds (inr tar1) = inr tar'
                /\ members tar1 ⊆ members tar'
                /\ forall d dir fname,
                     d ∈ ds ->
                     holds_file d (child at_path (node_name d)) dir fname ->
                     is_path_effectively_selected fs store dir (Some root) = true ->
                     should_exclude_file dynamic fname = false ->
                     os_path_abspath fs (child dir fname) <> tar_name ->
                     exists m, relative_to (child dir fname) root = Some m
                               /\ m ∈ members tar') as Hfold.
    { induction ds as [|d ds IHds]; intros tar2 Hin.
      - exists tar2. split; [done|]. split; [done|]. by intros d dir f ?%elem_of_nil.
      - apply Forall_cons in Hin as [Hd Hin]. simpl.
        rewrite Forall_forall in IH.
        destruct (IH d Hd (child at_path (node_name d)) tar2)
          as (tar3 & -> & Hsub3 & Hall3).
        { eapply is_relative_to_trans; [apply child_is_relative_to | done]. }
        { intros dir f Hh. apply Hread. by eapply holds_below. }
        destruct (IHds tar3 Hin) as (tar' & Hrun & Hsub & Hall).
        exists tar'. split; [done|]. split; [by etrans|].
        intros d' dir f [->|Hd']%elem_of_cons Hh Hsel Hex Hother.
        + destruct (Hall3 dir f Hh Hsel Hex Hother) as (m & Hm & Hin3).
          exists m. split; [done|]. by apply Hsub.
        + by eapply Hall. }
    destruct (Hfold (List.filter keep items) tar1) as (tar' & Hrun & Hsub & Hall).
    { apply Forall_forall. intros d Hd.
      apply list_elem_of_In, List.filter_In in Hd as [Hd _].
      by apply list_elem_of_In. }
    exists tar'. split; [done|]. split; [by etrans|].
    intros dir f Hh Hsel Hex Hother.
    inversion Hh as [? ? ? ? Hf|? ? ? d ? ? Hd Hbelow]; subst.
    + destruct (Hhere f Hf Hsel Hex Hother) as (m & Hm & Hin1).
      exists m. split; [done|]. by apply Hsub.
    + apply (Hall d dir f); try done.
      apply list_elem_of_In, List.filter_In. split; [by apply list_elem_of_In|].
      unfold keep. rewrite (holds_file_is_dir _ _ _ _ Hbelow). simpl.
      apply (selected_ancestor dir); [|by eapply holds_file_below|done].
      eapply is_relative_to_trans; [apply child_is_relative_to | done].
Qed.

End backup_complete.

(** A backup misses no selected file.  On a disk without symbolic links,
    with an archive that can be written and files that can be read, every
    file that the disk lists in an effectively selected directory under a
    name that no exclusion pattern matches, other than the archive itself,
    is a member of the archive that the backup leaves on disk, under its
    path relative to the root; the number that the backup reports is at
    least the number of members. *)
Theorem backup_misses_no_selected_file
    (fs : FileSystem) (store : dict check_state) (dynamic : gset string)
    (tgz_size : string -> list Path -> nat) (timestamp root_str : string)
    (t : fs_node) (output_dir dir : Path) (fname : string) :
  let root := Path_of_str root_str in
  let archive_name :=
    apply_timestamp timestamp ((Path_name root +:+ "_backup") +:+ ".tar.gz") in
  let tar_name := os_path_abspath fs (child output_dir archive_name) in
  no_symlinks fs ->
  is_absolute root = true ->
  get_log_output_dir fs root (Some LOG_SUBDIR_BACKUP) = Some output_dir ->
  fs_writable fs (child output_dir archive_name) = true ->
  (forall dir fname,
     holds_file t root dir fname ->
     is_path_effectively_selected fs store dir (Some root) = true ->
     should_exclude_file dynamic fname = false ->
     os_path_abspath fs (child dir fname) <> tar_name ->
     is_Some (fs_read fs (child dir fname))) ->
  holds_file t root dir fname ->
  is_path_effectively_selected fs store dir (Some root) = true ->
  should_exclude_file dynamic fname = false ->
  os_path_abspath fs (child dir fname) <> tar_name ->
  exists archived count m,
    backup_project_impl fs store dynamic tgz_size timestamp root_str t
    = Some {| archive_on_disk := Some (archive_name, archived); added := count |}
    /\ length archived <= count
    /\ relative_to (child dir fname) root = Some m
    /\ m ∈ archived.
Proof.
  intros root archive_name tar_name Hplain Habs Hout Hw Hread Hholds Hsel Hex Hother.
  pose proof (selected_root_is_dir _ _ _ _ Hsel) as Hdir.
  assert (root_str <> "") as Hne.
  { intros ->. by vm_compute in Habs. }
  assert (is_path_effectively_selected fs store root (Some root) = true) as Hroot.
  { apply (selected_ancestor fs store root Hplain Habs dir);
      [apply is_relative_to_refl | by eapply holds_file_below | done]. }
  destruct (walk_backup_complete fs store dynamic tar_name root Hplain Habs t root
              {| members := []; files_added_count := 0 |}
              (is_relative_to_refl root) Hread)
    as (tar & Hwalk & _ & Hall).
  destruct (Hall dir fname Hholds Hsel Hex Hother) as (m & Hm & Hin).
  pose proof (walk_backup_keeps fs store dynamic tar_name root
                (fun tar => length (members tar) <= files_added_count tar) t root
                {| members := []; files_added_count := 0 |}) as Hcount.
  rewrite Hwalk in Hcount. simpl in Hcount.
  assert (length (members tar) <= files_added_count tar) as Hle.
  { apply Hcount; [|lia]. intros d f m' tar' _ _ _ _ Htar'. split; intros _; simpl.
    - lia.
    - rewrite length_app. simpl. lia. }
  exists (members tar), (files_added_count tar), m. split; [|done].
  unfold backup_project_impl. apply String.eqb_neq in Hne.
  rewrite Hne. fold root. rewrite Hdir, Hout. cbn [negb]. cbv zeta.
  fold archive_name. fold tar_name. rewrite Hw, Hroot. cbn [negb]. rewrite Hwalk.
  assert (0 < files_added_count tar) as Hpos.
  { destruct (members tar); [by apply elem_of_nil in Hin | simpl in Hle; lia]. }
  apply Nat.ltb_lt in Hpos. by rewrite Hpos.
Qed.

Lemma backup_misses_no_selected_file_witness :
  exists archived count m,
    backup_project_impl plain_fs archive_store ∅ empty_tgz_size
      "2026-11-04_12-00-00" "/proj" archive_disk
    = Some {| archive_on_disk :=
                Some ("proj_backup.tar_2026-11-04_12-00-00.gz", archived);
              added := count |}
    /\ length archived <= count
    /\ relative_to
         (child (mkPath true ["proj"; "_logs"; "_projectBACKUP_zips"]) "old.txt")
         (Path_of_str "/proj") = Some m
    /\ m ∈ archived.
Proof.
  apply (backup_misses_no_selected_file plain_fs archive_store ∅
           empty_tgz_size "2026-11-04_12-00-00" "/proj" archive_disk
           (mkPath true ["proj"; "_logs"; "_projectBACKUP_zips"])
           (mkPath true ["proj"; "_logs"; "_projectBACKUP_zips"]) "old.txt").
  - intros p Hp. unfold plain_fs, joinpath. simpl. by rewrite Hp.
  - reflexivity.
  - reflexivity.
  - reflexivity.
  - intros dir fname _ _ _ _. by eexists.
  - eapply holds_below; [right; by left|].
    eapply holds_below; [by left|]. apply holds_here. right. by left.
  - by vm_compute.
  - by vm_compute.
  - by vm_compute.
Defined.

(* ===================================================================== *)
(** * The snapshot of a scan *)
(* ===================================================================== *)

Lemma link_check_snoc seen data e :
  link_check seen (data ++ [e]) = true <->
  link_check seen data = true
  /\ (e_parent e = "" \/ e_parent e ∈ seen \/ e_parent e ∈ (e_iid <$> data)).
Proof.
  revert seen. induction data as [|x data IH]; intros seen; simpl.
  - rewrite andb_true_r, orb_true_iff, String.eqb_eq, bool_decide_eq_true.
    rewrite elem_of_nil. tauto.
  - rewrite !andb_true_iff, IH, !elem_of_cons. tauto.
Qed.

Lemma dict_has_set {V} (d : dict V) k v k' :
  dict_has (dict_set k v d) k' = String.eqb k k' || dict_has d k'.
Proof.
  unfold dict_has. destruct (String.eqb_spec k k') as [->|Hne].
  - by rewrite dict_get_set_eq.
  - by rewrite dict_get_set_ne.
Qed.

Lemma dict_has_keys {V} (d : dict V) k :
  dict_has d k = true <-> k ∈ dict_keys d.
Proof.
  unfold dict_has, dict_keys. induction d as [|[k' v'] d IH]; simpl.
  - rewrite elem_of_nil. split; [done | tauto].
  - rewrite elem_of_cons. destruct (String.eqb_spec k' k) as [->|Hne].
    + split; [by left | done].
    + rewrite IH. split; [by right | intros [?|?]; [congruence | done]].
Qed.

Lemma snapshot_inv_append st e :
  snapshot_inv st -> parent_ok (e_parent e) st ->
  dict_has (item_states st) (e_iid e) || is_placeholder e = true ->
  snapshot_inv
    {| start_time := start_time st; clock_reads := clock_reads st;
       user_asked := user_asked st; tree_data := tree_data st ++ [e];
       item_states := item_states st |}.
Proof.
  intros (Hlink & Htracked & Hkeys) Hparent He. split; [|split]; simpl.
  - apply link_check_snoc. split; [done|]. destruct Hparent; auto.
  - apply Forall_app. split; [done|]. by constructor.
  - eapply Forall_impl; [exact Hkeys|]. intros k Hk. simpl in Hk.
    rewrite fmap_app. apply elem_of_app. by left.
Qed.

Lemma parent_ok_prefix parent_iid st st' :
  tree_data st `prefix_of` tree_data st' ->
  parent_ok parent_iid st -> parent_ok parent_iid st'.
Proof.
  intros [suf Hsuf] [->|Hin]; [by left|]. right.
  rewrite Hsuf, fmap_app. apply elem_of_app. by left.
Qed.

Section snapshot.
Variable env : scan_env.
Variable fs : FileSystem.

Lemma scan_keeps_snapshot_same {A} parent_iid (m : scan A) :
  (forall st r st', m st = (r, st') ->
     tree_data st' = tree_data st /\ item_states st' = item_states st) ->
  scan_keeps_snapshot parent_iid m.
Proof.
  intros Hm st r st' Hrun Hinv _. destruct (Hm _ _ _ Hrun) as [Hdata Hstates].
  unfold snapshot_inv. by rewrite Hdata, Hstates.
Qed.

Lemma scan_keeps_snapshot_bind {A B} parent_iid (m : scan A) (k : A -> scan B) :
  scan_keeps_snapshot parent_iid m ->
  (forall a, scan_keeps_snapshot parent_iid (k a)) ->
  scan_keeps_snapshot parent_iid (scan_bind m k).
Proof.
  intros Hm Hk st r st' Hrun Hinv Hparent. unfold scan_bind in Hrun.
  destruct (m st) as [[e|a] st1] eqn:Hfirst.
  - injection Hrun as <- <-. by eapply Hm.
  - destruct (Hm _ _ _ Hfirst Hinv Hparent) as [Hinv1 Hpre1].
    destruct (Hk a _ _ _ Hrun Hinv1) as [Hinv2 Hpre2].
    { by eapply parent_ok_prefix. }
    split; [done | by etrans].
Qed.

Lemma scan_keeps_snapshot_for_each {A} parent_iid (l : list A) (body : A -> scan unit) :
  (forall x, x ∈ l -> scan_keeps_snapshot parent_iid (body x)) ->
  scan_keeps_snapshot parent_iid (for_each l body).
Proof.
  induction l as [|x l IH]; intros Hbody; simpl.
  - apply scan_keeps_snapshot_same. by intros st r st' [= _ <-].
  - apply scan_keeps_snapshot_bind.
    + apply Hbody. by left.
    + intros _. apply IH. intros y Hy. apply Hbody. by right.
Qed.

Lemma scan_keeps_snapshot_check_scan_timeout parent_iid :
  scan_keeps_snapshot parent_iid (check_scan_timeout env).
Proof.
  apply scan_keeps_snapshot_same. intros st r st'.
  rewrite check_scan_timeout_unfold. cbv zeta.
  destruct (_ >? _)%Z; [|by intros [= _ <-]].
  destruct (user_continues env (user_asked st)); by intros [= _ <-].
Qed.

Lemma scan_keeps_snapshot_error_entry current_path parent_iid :
  scan_keeps_snapshot parent_iid
    (tree_data_append (error_entry current_path parent_iid)).
Proof.
  intros st r st' [= _ <-] Hinv Hparent. split; [|by apply prefix_app_r].
  apply snapshot_inv_append; [done..|]. apply orb_true_iff. right.
  unfold is_placeholder, error_entry. simpl e_iid. rewrite !append_cons. simpl.
  by destruct (_ +:+ _).
Qed.

(** Tracking a path and appending its entry, then scanning below it. *)
Lemma scan_keeps_snapshot_tracked_entry {A} parent_iid k v text open
    (below : scan A) :
  scan_keeps_snapshot k below ->
  scan_keeps_snapshot parent_iid
    (scan_bind (set_item_state k v)
       (fun _ =>
          scan_bind
            (tree_data_append
               {| e_parent := parent_iid; e_iid := k; e_text := text; e_open := open |})
            (fun _ => below))).
Proof.
  intros Hbelow st r st' Hrun (Hlink & Htracked & Hkeys) Hparent.
  unfold scan_bind, set_item_state, tree_data_append in Hrun.
  set (e := {| e_parent := parent_iid; e_iid := k; e_text := text; e_open := open |})
    in *.
  set (st1 := {| start_time := start_time st; clock_reads := clock_reads st;
                 user_asked := user_asked st; tree_data := tree_data st ++ [e];
                 item_states := dict_set k v (item_states st) |}).
  assert (snapshot_inv st1) as Hinv1.
  { split; [|split]; simpl.
    - apply link_check_snoc. split; [done|]. destruct Hparent; auto.
    - apply Forall_app. split.
      + eapply Forall_impl; [exact Htracked|]. intros x Hx. simpl in Hx.
        rewrite dict_has_set. apply orb_true_iff in Hx as [Hx|Hx];
          rewrite Hx; by rewrite ?orb_true_r.
      + constructor; [|constructor]. simpl.
        by rewrite dict_has_set, String.eqb_refl.
    - apply Forall_forall. intros x Hx. rewrite fmap_app. apply elem_of_app.
      apply dict_keys_set_elem in Hx as [->|Hx]; [right; by left|left].
      rewrite Forall_forall in Hkeys. by apply Hkeys. }
  destruct (Hbelow st1 r st' Hrun Hinv1) as [Hinv' Hpre].
  { right. simpl. rewrite fmap_app. apply elem_of_app. right. by left. }
  split; [done|]. etrans; [|exact Hpre]. by apply prefix_app_r.
Qed.

Lemma scan_keeps_snapshot_raise {A} parent_iid e :
  scan_keeps_snapshot parent_iid (@scan_raise A e).
Proof. apply scan_keeps_snapshot_same. by intros st r st' [= _ <-]. Qed.

Lemma scan_keeps_snapshot_scan_directory_entry
    project_root persisted parent_iid p scan_p :
  (forall q k, scan_keeps_snapshot k (scan_p q k)) ->
  scan_keeps_snapshot parent_iid
    (scan_directory_entry fs project_root persisted parent_iid p scan_p).
Proof.
  intros Hp. unfold scan_directory_entry.
  destruct (fs_resolve fs p) as [resolved|]; [|apply scan_keeps_snapshot_raise].
  destruct (relative_to p project_root) as [rel|]; [|apply scan_keeps_snapshot_raise].
  apply scan_keeps_snapshot_tracked_entry, Hp.
Qed.

Lemma scan_keeps_snapshot_scan_recursive
    project_root persisted t current_path parent_iid :
  scan_keeps_snapshot parent_iid
    (scan_recursive env fs project_root persisted t current_path parent_iid).
Proof.
  revert current_path parent_iid.
  induction t as [fname|dname|dname items IH] using fs_node_nested_ind;
    intros current_path parent_iid; rewrite scan_recursive_unfold;
    (apply scan_keeps_snapshot_bind;
     [apply scan_keeps_snapshot_check_scan_timeout|]); intros _.
  - apply scan_keeps_snapshot_raise.
  - apply scan_keeps_snapshot_error_entry.
  - apply scan_keeps_snapshot_for_each. intros [item scan_item] Hin.
    apply elem_of_sorted, list_elem_of_In, List.filter_In in Hin as [Hin _].
    apply list_elem_of_In, list_elem_of_fmap in Hin as (item' & [= -> ->] & Hitem).
    apply scan_keeps_snapshot_scan_directory_entry. simpl.
    rewrite Forall_forall in IH. intros q k. by apply IH.
Qed.

Lemma scan_keeps_snapshot_worker_try disk project_root t :
  scan_keeps_snapshot "" (worker_try env fs disk project_root t).
Proof.
  unfold worker_try.
  destruct (fs_resolve fs project_root) as [resolved|];
    [|apply scan_keeps_snapshot_raise].
  apply scan_keeps_snapshot_tracked_entry, scan_keeps_snapshot_scan_recursive.
Qed.

(** The state in which the worker ends its [try] block. *)
Lemma worker_try_snapshot disk project_root t r st :
  worker_try env fs disk project_root t
    {| start_time := clock env 0; clock_reads := 1; user_asked := 0;
       tree_data := []; item_states := [] |} = (r, st) ->
  snapshot_inv st.
Proof.
  intros Hrun.
  eapply (scan_keeps_snapshot_worker_try disk project_root t); [exact Hrun| |by left].
  split; [done|]. split; constructor.
Qed.

End snapshot.

(** The snapshot can be inserted in order.  However the scan ends, every
    entry of the snapshot that it hands over hangs below the top level or
    below an entry that comes before it in the snapshot: [tree.insert]
    finds the parent of every entry. *)
Theorem scan_snapshot_inserts_in_order
    (env : scan_env) (fs : FileSystem) (disk : files) (project_root : Path)
    (t : fs_node) :
  let data := (worker_build_tree_data env fs disk project_root t).1.2 in
  forall before e after,
    data = before ++ e :: after ->
    e_parent e = "" \/ e_parent e ∈ (e_iid <$> before).
Proof.
  intros data.
  assert (link_check [] data = true) as Hlink.
  { unfold data, worker_build_tree_data.
    destruct (worker_try env fs disk project_root t _) as [[[|]|[]] st] eqn:Hrun;
      simpl; try done.
    - apply link_check_snoc. split; [|by left].
      by apply (worker_try_snapshot env fs disk project_root t _ _ Hrun).
    - by apply (worker_try_snapshot env fs disk project_root t _ _ Hrun). }
  clearbody data. intros before e after ->.
  assert (forall seen l, link_check seen (l ++ e :: after) = true ->
            e_parent e = "" \/ e_parent e ∈ seen \/ e_parent e ∈ (e_iid <$> l))
    as Hgen.
  { intros seen l. revert seen. induction l as [|x l IH]; intros seen; simpl.
    - rewrite andb_true_iff, orb_true_iff, String.eqb_eq, bool_decide_eq_true.
      tauto.
    - rewrite andb_true_iff. intros [_ Hrest].
      destruct (IH _ Hrest) as [?|[Hin|?]]; auto.
      + apply elem_of_cons in Hin as [->|?]; auto.
        right. right. by left.
      + right. right. by right. }
  destruct (Hgen [] before Hlink) as [?|[Hin|?]]; auto.
  by apply elem_of_nil in Hin.
Qed.

Lemma scan_snapshot_inserts_in_order_witness :
  e_parent (error_entry (mkPath true ["proj"; "locked"]) "/proj/locked") = ""
  \/ e_parent (error_entry (mkPath true ["proj"; "locked"]) "/proj/locked")
     ∈ (e_iid <$>
          [ {| e_parent := ""; e_iid := "/proj";
               e_text := "proj (Project Root) (0 B)"; e_open := true |};
            {| e_parent := "/proj"; e_iid := "/proj/locked";
               e_text := "locked (0 B)"; e_open := false |} ]).
Proof.
  apply (scan_snapshot_inserts_in_order quick_env plain_fs ∅ proj locked_disk
           _ _ []).
  by vm_compute.
Defined.

Lemma placeholder_not_absolute e :
  is_placeholder e = true -> Str.startswith (e_iid e) "/" = false.
Proof.
  unfold is_placeholder. destruct (e_iid e) as [|c s]; [done|].
  destruct c as [[] [] [] [] [] [] [] []]; by cbn.
Qed.

(** The snapshot and the store name the same directories.  After a scan that
    did not fail, on a disk whose resolved paths are canonical: every path
    with a state in the store has an entry in the snapshot; every entry of
    the snapshot that is not a placeholder (an error entry or the abort
    marker) has a state in the store; and no placeholder has one. *)
Theorem scan_tracks_the_directories_it_lists
    (env : scan_env) (fs : FileSystem) (disk : files) (project_root : Path)
    (t : fs_node) :
  resolves_to_canonical fs ->
  let '(outcome, data, store) := worker_build_tree_data env fs disk project_root t in
  outcome <> Failed ->
  (forall k, k ∈ dict_keys store -> k ∈ (e_iid <$> data))
  /\ (forall e, e ∈ data -> is_placeholder e = false ->
        dict_has store (e_iid e) = true)
  /\ (forall e, e ∈ data -> is_placeholder e = true ->
        dict_has store (e_iid e) = false).
Proof.
  intros Hcanonical.
  pose proof (scanned_store_well_formed env fs Hcanonical disk project_root t)
    as [_ Hkeys_ok].
  unfold worker_build_tree_data in *.
  destruct (worker_try env fs disk project_root t _) as [[[|]|[]] st] eqn:Hrun;
    simpl in Hkeys_ok; [|done|].
  all: intros _;
    destruct (worker_try_snapshot env fs disk project_root t _ _ Hrun)
      as (_ & Htracked & Hkeys);
    rewrite Forall_forall in Htracked; rewrite Forall_forall in Hkeys;
    rewrite Forall_forall in Hkeys_ok.
  all: assert (forall e, is_placeholder e = true ->
                 dict_has (item_states st) (e_iid e) = false) as Hnot.
  1,3: intros e He%placeholder_not_absolute; apply not_true_is_false;
    intros Hin%dict_has_keys%Hkeys_ok; destruct Hin as (Habs & _ & _);
    simpl in Habs; congruence.
  - split; [|split].
    + intros k Hk. rewrite fmap_app. apply elem_of_app. left. by apply Hkeys.
    + intros e [He|He]%elem_of_app Hno.
      * specialize (Htracked e He). rewrite Hno, orb_false_r in Htracked. done.
      * apply list_elem_of_singleton in He as ->. by vm_compute in Hno.
    + intros e _. apply Hnot.
  - split; [|split].
    + intros k Hk. by apply Hkeys.
    + intros e He Hno.
      specialize (Htracked e He). rewrite Hno, orb_false_r in Htracked. done.
    + intros e _. apply Hnot.
Qed.

Lemma scan_tracks_the_directories_it_lists_witness :
  let scanned := worker_build_tree_data quick_env tidy_fs ∅ proj locked_disk in
  (forall k, k ∈ dict_keys scanned.2 -> k ∈ (e_iid <$> scanned.1.2))
  /\ (forall e, e ∈ scanned.1.2 -> is_placeholder e = false ->
        dict_has scanned.2 (e_iid e) = true)
  /\ (forall e, e ∈ scanned.1.2 -> is_placeholder e = true ->
        dict_has scanned.2 (e_iid e) = false).
Proof.
  pose proof (scan_tracks_the_directories_it_lists quick_env tidy_fs ∅ proj
                locked_disk tidy_fs_resolves_to_canonical) as H.
  destruct (worker_build_tree_data quick_env tidy_fs ∅ proj locked_disk)
    as [[outcome data] store] eqn:Hrun.
  apply H. intros ->. by vm_compute in Hrun.
Defined.

(* ===================================================================== *)
(** * Toggling and the display *)
(* ===================================================================== *)

Lemma occurs_at_trans t above n below m :
  occurs_at t above n -> occurs_at n below m -> occurs_at t (above ++ below) m.
Proof.
  induction 1 as [t|t c above n Hc Hocc IH]; intros Hm; [done|].
  simpl. eapply occurs_below; [done|]. by apply IH.
Qed.

Lemma occurs_at_head n below m : occurs_at n below m -> n ∈ below ++ [m].
Proof. destruct 1; by left. Qed.

(** Unchecking a directory shows in the whole subtree.  After a click on a
    checked item, [refresh_tree_visuals] draws that item and every item
    below it as unchecked, whatever their own stored states are (the items
    on the way carry no error tag, so that they are visited). *)
Theorem unchecking_draws_subtree_unchecked
    (store : dict check_state) (tree : list tree_item) (root_item_id : string)
    (root_item n m : tree_item) (above below : list tree_item) :
  find_top_level_item root_item_id tree = Some root_item ->
  occurs_at root_item above n ->
  occurs_at n below m ->
  (forall a, a ∈ (above ++ below) ++ [m] -> "error_node" ∉ item_tags a) ->
  dict_get store (item_iid n) = Some S_CHECKED ->
  (item_iid m, GLYPH_UNCHECKED)
  ∈ refresh_tree_visuals (on_tree_item_click store (item_iid n)) tree root_item_id.
Proof.
  intros Hroot Hn Hm Htags Hchecked. unfold refresh_tree_visuals. rewrite Hroot.
  pose proof (visited_with_rule (on_tree_item_click store (item_iid n)) root_item
                (above ++ below) m false (occurs_at_trans _ _ _ _ _ Hn Hm) Htags)
    as Hdrawn.
  assert (existsb (unchecked_or_untracked (on_tree_item_click store (item_iid n)))
            ((above ++ below) ++ [m]) = true) as Hex.
  { apply existsb_exists. exists n. split.
    - apply list_elem_of_In. rewrite <- app_assoc. apply elem_of_app. right.
      by apply occurs_at_head.
    - unfold unchecked_or_untracked. apply bool_decide_eq_true.
      rewrite on_tree_item_click_checked by done. by rewrite dict_get_set_eq. }
  by rewrite Hex in Hdrawn.
Qed.

Lemma unchecking_draws_subtree_unchecked_witness :
  ("/proj/docs", GLYPH_UNCHECKED)
  ∈ refresh_tree_visuals (on_tree_item_click sample_store "/proj")
      [sample_tree] "/proj".
Proof.
  apply (unchecking_draws_subtree_unchecked sample_store [sample_tree] "/proj"
           sample_tree sample_tree (TreeItem "/proj/docs" [] []) [] [sample_tree]).
  - reflexivity.
  - constructor.
  - eapply occurs_below; [by left | constructor].
  - intros a Ha. apply list_elem_of_In in Ha. simpl in Ha.
    destruct Ha as [<-|[<-|[]]]; simpl; by intros ?%elem_of_nil.
  - reflexivity.
Defined.

(* ===================================================================== *)
(** * Time-stamped names *)
(* ===================================================================== *)

Lemma append_inv_head a x y : a +:+ x = a +:+ y -> x = y.
Proof.
  induction a as [|c a IH]; [by rewrite !append_nil_l|].
  rewrite !append_cons. intros [= H]. by apply IH.
Qed.

Lemma list_ascii_of_append a b :
  String.list_ascii_of_string (a +:+ b)
  = String.list_ascii_of_string a ++ String.list_ascii_of_string b.
Proof.
  induction a as [|c a IH]; [by rewrite append_nil_l|].
  rewrite append_cons. simpl. by rewrite IH.
Qed.

Lemma append_inv_tail x y s : x +:+ s = y +:+ s -> x = y.
Proof.
  intros H. apply (f_equal String.list_ascii_of_string) in H.
  rewrite !list_ascii_of_append in H. apply app_inv_tail in H.
  apply (f_equal String.string_of_list_ascii) in H.
  by rewrite !String.string_of_list_ascii_of_string in H.
Qed.

(** Cutting at the last dot: the second part starts with the only dot it
    holds. *)
Lemma rsplit_dot_spec s a b :
  rsplit_dot s = Some (a, b) ->
  s = a +:+ b
  /\ exists ext, b = String dot ext /\ Str.contains dot ext = false.
Proof.
  revert a b. induction s as [|c s IH]; intros a b; simpl; [done|].
  destruct (rsplit_dot s) as [[a' b']|] eqn:Hrest.
  - intros [= <- <-]. destruct (IH a' b' eq_refl) as (-> & ext & -> & Hext).
    split; [by rewrite append_cons|]. by exists ext.
  - destruct (Ascii.eqb_spec c dot) as [->|Hne]; [|done].
    intros [= <- <-]. split; [by rewrite append_nil_l|]. exists s. split; [done|].
    clear IH. induction s as [|d s IHs]; [done|]. simpl in Hrest |- *.
    destruct (rsplit_dot s) as [[a' b']|]; [done|].
    destruct (Ascii.eqb_spec d dot) as [->|Hd]; [done|].
    destruct (Ascii.eqb_spec dot d) as [<-|_]; [done|]. by apply IHs.
Qed.

Lemma stem_suffix_spec name :
  name = (stem_suffix name).1 +:+ (stem_suffix name).2
  /\ ((stem_suffix name).2 = ""
      \/ (stem_suffix name).1 <> ""
         /\ exists ext, (stem_suffix name).2 = String dot ext /\ ext <> ""
                        /\ Str.contains dot ext = false).
Proof.
  unfold stem_suffix. destruct (rsplit_dot name) as [[a b]|] eqn:Hcut.
  - destruct (rsplit_dot_spec _ _ _ Hcut) as (Hname & ext & -> & Hext).
    destruct (negb (String.eqb a "") && negb (String.eqb (String dot ext) "."))
      eqn:Hcond; simpl.
    + apply andb_true_iff in Hcond as [Ha%negb_true_iff Hb%negb_true_iff].
      apply String.eqb_neq in Ha. apply String.eqb_neq in Hb.
      split; [done|]. right. split; [done|]. exists ext. split; [done|].
      split; [|done]. by intros ->.
    + rewrite append_nil_r. split; [done | by left].
  - simpl. rewrite append_nil_r. split; [done | by left].
Qed.

Lemma Path_name_of_component name :
  clean_component name = true -> Path_name (Path_of_str name) = name.
Proof.
  intros Hclean.
  assert (Path_of_str (path_str (mkPath false [name])) = mkPath false [name]) as H.
  { apply Path_of_str_path_str. by repeat constructor. }
  unfold path_str in H. simpl in H. by rewrite H.
Qed.


(** The stamp of a name with a directory part, and of the path ["."]. *)
Example apply_timestamp_of_paths :
  apply_timestamp "T" "a/b.txt" = "b_T.txt"
  /\ apply_timestamp "T" "." = "_T"
  /\ apply_timestamp "T" "proj_backup.tar.gz" = "proj_backup.tar_T.gz".
Proof. by vm_compute. Qed.

(* ===================================================================== *)
(** * Where the states of a scan come from *)
(* ===================================================================== *)

Lemma dict_set_Forall {V} (P : string * V -> Prop) (d : dict V) k v :
  P (k, v) -> Forall P d -> Forall P (dict_set k v d).
Proof.
  intros Hkv. induction 1 as [|[k' v'] d Hx Hd IH]; simpl.
  - by constructor.
  - destruct (String.eqb k' k); by constructor.
Qed.

Lemma dict_get_elem {V} (d : dict V) k v : dict_get d k = Some v -> (k, v) ∈ d.
Proof.
  induction d as [|[k' v'] d IH]; simpl; [done|].
  destruct (String.eqb_spec k' k) as [->|Hne].
  - intros [= ->]. by left.
  - intros H. right. by apply IH.
Qed.

Section seeded.
Variable env : scan_env.
Variable fs : FileSystem.
Variable project_root : Path.
Variable persisted : dict check_state.
Variable P : string -> check_state -> Prop.

Lemma scan_keeps_entries_same {A} (m : scan A) :
  (forall st r st', m st = (r, st') -> item_states st' = item_states st) ->
  scan_keeps_entries P m.
Proof. intros Hm st r st' Hrun Hall. by rewrite (Hm _ _ _ Hrun). Qed.

Lemma scan_keeps_entries_bind {A B} (m : scan A) (k : A -> scan B) :
  scan_keeps_entries P m -> (forall a, scan_keeps_entries P (k a)) ->
  scan_keeps_entries P (scan_bind m k).
Proof.
  intros Hm Hk st r st' Hrun Hall. unfold scan_bind in Hrun.
  destruct (m st) as [[e|a] st1] eqn:Hfirst.
  - injection Hrun as <- <-. by eapply Hm.
  - eapply Hk; [exact Hrun|]. by eapply Hm.
Qed.

Lemma scan_keeps_entries_for_each {A} (l : list A) (body : A -> scan unit) :
  (forall x, x ∈ l -> scan_keeps_entries P (body x)) ->
  scan_keeps_entries P (for_each l body).
Proof.
  induction l as [|x l IH]; intros Hbody; simpl.
  - apply scan_keeps_entries_same. by intros st r st' [= _ <-].
  - apply scan_keeps_entries_bind.
    + apply Hbody. by left.
    + intros _. apply IH. intros y Hy. apply Hbody. by right.
Qed.

Lemma scan_keeps_entries_set_item_state k v :
  P k v -> scan_keeps_entries P (set_item_state k v).
Proof.
  intros Hkv st r st' [= _ <-] Hall. simpl.
  by apply (dict_set_Forall (fun kv => P kv.1 kv.2)).
Qed.

Lemma scan_keeps_entries_check_scan_timeout :
  scan_keeps_entries P (check_scan_timeout env).
Proof.
  apply scan_keeps_entries_same. intros st r st'.
  rewrite check_scan_timeout_unfold. cbv zeta.
  destruct (_ >? _)%Z; [|by intros [= _ <-]].
  destruct (user_continues env (user_asked st)); by intros [= _ <-].
Qed.

(** The body of the loop, at a directory [p] whose seeded state has [P]. *)
Lemma scan_keeps_entries_scan_directory_entry parent_iid p scan_p :
  (forall resolved rel,
     fs_resolve fs p = Some resolved -> relative_to p project_root = Some rel ->
     P (path_str resolved)
       (seeding_rule persisted (path_str resolved) (path_str rel) (Path_name p))) ->
  (forall k, scan_keeps_entries P (scan_p p k)) ->
  scan_keeps_entries P
    (scan_directory_entry fs project_root persisted parent_iid p scan_p).
Proof.
  intros Hseed Hp. unfold scan_directory_entry.
  destruct (fs_resolve fs p) as [resolved|] eqn:Hres.
  2:{ apply scan_keeps_entries_same. by intros st r st' [= _ <-]. }
  destruct (relative_to p project_root) as [rel|] eqn:Hrel.
  2:{ apply scan_keeps_entries_same. by intros st r st' [= _ <-]. }
  apply scan_keeps_entries_bind.
  { apply scan_keeps_entries_set_item_state. rewrite seed_state_rule.
    by apply Hseed. }
  intros _. apply scan_keeps_entries_bind; [|intros _; apply Hp].
  apply scan_keeps_entries_same. by intros st r st' [= _ <-].
Qed.

(** The walk over [t] keeps [P] when the seeded state of every directory
    that it finds has [P]. *)
Lemma scan_keeps_entries_scan_recursive t current_path parent_iid :
  (forall p resolved rel,
     finds t current_path p ->
     fs_resolve fs p = Some resolved -> relative_to p project_root = Some rel ->
     P (path_str resolved)
       (seeding_rule persisted (path_str resolved) (path_str rel) (Path_name p))) ->
  scan_keeps_entries P
    (scan_recursive env fs project_root persisted t current_path parent_iid).
Proof.
  revert current_path parent_iid.
  induction t as [fname|dname|dname items IH] using fs_node_nested_ind;
    intros current_path parent_iid Hfound; rewrite scan_recursive_unfold;
    (apply scan_keeps_entries_bind;
     [apply scan_keeps_entries_check_scan_timeout|]); intros _.
  - apply scan_keeps_entries_same. by intros st r st' [= _ <-].
  - apply scan_keeps_entries_same. by intros st r st' [= _ <-].
  - apply scan_keeps_entries_for_each. intros [item scan_item] Hin.
    apply elem_of_sorted, list_elem_of_In, List.filter_In in Hin as [Hin Hisdir].
    apply list_elem_of_In, list_elem_of_fmap in Hin as (item' & [= -> ->] & Hitem).
    simpl in Hisdir.
    apply scan_keeps_entries_scan_directory_entry; simpl.
    + intros resolved rel. apply Hfound. by apply finds_here.
    + rewrite Forall_forall in IH. intros k. apply IH; [done|].
      intros p resolved rel Hp. apply Hfound. by eapply finds_below.
Qed.

End seeded.

(** Every entry of the store that a scan leaves, however it ends, is a
    seeded one. *)
Lemma scanned_entries_seeded env fs disk project_root t k v :
  dict_get (worker_build_tree_data env fs disk project_root t).2 k = Some v ->
  seeded_state fs (load_project_config fs project_root disk).1 project_root t k v.
Proof.
  set (persisted := (load_project_config fs project_root disk).1).
  set (P := seeded_state fs persisted project_root t).
  assert (scan_keeps_entries P (worker_try env fs disk project_root t)) as Hkeeps.
  { unfold worker_try. fold persisted.
    destruct (fs_resolve fs project_root) as [resolved|] eqn:Hres.
    2:{ apply scan_keeps_entries_same. by intros st r st' [= _ <-]. }
    apply scan_keeps_entries_bind.
    { apply scan_keeps_entries_set_item_state. left. by exists resolved. }
    intros _. apply scan_keeps_entries_bind.
    { apply scan_keeps_entries_same. by intros st r st' [= _ <-]. }
    intros _. apply scan_keeps_entries_scan_recursive.
    intros p resolved' rel Hp Hres' Hrel. right. by exists p, resolved', rel. }
  intros Hget%dict_get_elem. unfold worker_build_tree_data in Hget.
  destruct (worker_try env fs disk project_root t _) as [[[|]|[]] st] eqn:Hrun;
    simpl in Hget;
    (assert (Forall (fun kv => P kv.1 kv.2) (item_states st)) as Hall
       by (eapply Hkeeps; [exact Hrun | constructor]));
    rewrite Forall_forall in Hall; apply (Hall (k, v) Hget).
Qed.

(** Where the states of a scan come from.  However the scan ends, every
    state in the store it leaves is a seeded one: the state of the root, by
    the rule for the root, or the state that the seeding rule gives to a
    directory that the walk over the disk finds, and whose resolved path is
    the key.  So a scan without persisted states (the first scan of a
    project) leaves a key unchecked only if the walk found a directory
    under the name of a built-in excluded folder that resolves to it. *)
Theorem scanned_states_are_seeded
    (env : scan_env) (fs : FileSystem) (disk : files) (project_root : Path)
    (t : fs_node) (k : string) (v : check_state) :
  let persisted := (load_project_config fs project_root disk).1 in
  dict_get (worker_build_tree_data env fs disk project_root t).2 k = Some v ->
  seeded_state fs persisted project_root t k v
  /\ (persisted = [] -> v = S_UNCHECKED ->
      exists p resolved,
        finds t project_root p
        /\ fs_resolve fs p = Some resolved /\ k = path_str resolved
        /\ Path_name p ∈ EXCLUDED_FOLDERS).
Proof.
  intros persisted Hget. pose proof (scanned_entries_seeded _ _ _ _ _ _ _ Hget) as Hs.
  fold persisted in Hs. split; [done|]. intros Hnone ->. rewrite Hnone in Hs.
  destruct Hs as [(resolved & _ & _ & Hv)
                 |(p & resolved & rel & Hp & Hres & -> & Hrel & Hv)]; [done|].
  exists p, resolved. split; [done|]. split; [done|]. split; [done|].
  unfold seeding_rule in Hv. simpl in Hv. by case_bool_decide.
Qed.

Lemma scanned_states_are_seeded_witness :
  exists p resolved,
    finds configured_disk proj p
    /\ fs_resolve plain_fs p = Some resolved /\ "/proj/node_modules" = path_str resolved
    /\ Path_name p ∈ EXCLUDED_FOLDERS.
Proof.
  apply (scanned_states_are_seeded quick_env plain_fs ∅ proj configured_disk
           "/proj/node_modules" S_UNCHECKED); by vm_compute.
Defined.

(* ===================================================================== *)
(** * What a file dump holds *)
(* ===================================================================== *)

Lemma fold_left_inl_stops {A S} (F : A -> S -> S + S) (ds : list A) (s : S) :
  fold_left
    (fun acc d => match acc with inl s' => inl s' | inr s' => F d s' end)
    ds (inl s)
  = inl s.
Proof. induction ds as [|d ds IH]; simpl; [done|]. apply IH. Qed.

Lemma walk_dump_dir fs store dynamic de root dname items at_path ds :
  walk_dump fs store dynamic de root (Dir dname (Some items)) at_path ds
  = match
      (if negb (is_path_effectively_selected fs store at_path (Some root))
       then inr ds
       else dump_file_names fs dynamic de root at_path
              (node_name <$> List.filter (fun n => negb (node_is_dir n)) items) ds)
    with
    | inl ds' => inl ds'
    | inr ds' =>
        fold_left
          (fun acc d =>
             match acc with
             | inl ds'' => inl ds''
             | inr ds'' =>
                 walk_dump fs store dynamic de root d (child at_path (node_name d)) ds''
             end)
          (List.filter
             (fun d => node_is_dir d
                       && dump_keeps fs store root (child at_path (node_name d)))
             items)
          (inr ds')
    end.
Proof.
  simpl. destruct (if negb _ then _ else _) as [ds'|ds']; [done|].
  by rewrite fold_left_filter_fmap.
Qed.

Section dump_walk.
Variable fs : FileSystem.
Variable store : dict check_state.
Variable dynamic : gset string.
Variable de : dump_env.
Variable root : Path.
Variable Q : string -> Prop.
Hypothesis Q_footer : Q omitted_footer.
Hypothesis Q_size : Q omitted_for_size.
Hypothesis Q_binary : Q omitted_as_binary.

Lemma dump_one_file_holds dir fname rel ds :
  file_pieces fs de root Q dir fname ->
  relative_to (child dir fname) root = Some rel ->
  Forall Q (dump_content ds) ->
  Forall Q (dump_content
              (dump_one_file fs de (child dir fname) (file_header rel) ds)).
Proof.
  intros Hpieces Hrel Hds. destruct (Hpieces rel Hrel) as (Hheader & Herror & Htext).
  unfold dump_one_file.
  destruct (st_size de (child dir fname)) as [size|] eqn:Hsize; simpl.
  - destruct (N.ltb_spec max_dump_file_size size) as [Hbig|Hsmall]; simpl.
    { apply Forall_app. split; [done|]. by repeat constructor. }
    destruct (is_binary fs (child dir fname)) eqn:Hbin; simpl.
    { apply Forall_app. split; [done|]. by repeat constructor. }
    destruct (fs_read fs (child dir fname)) as [content|] eqn:Hread; simpl.
    + apply Forall_app. split; [done|]. repeat constructor; eauto.
    + rewrite !Forall_app. split; [split; [done|]|]; by repeat constructor.
  - apply Forall_app. split; [done|]. by repeat constructor.
Qed.

Lemma dump_file_names_holds dir file_names ds :
  (forall fname,
     fname ∈ file_names -> should_exclude_file dynamic fname = false ->
     file_pieces fs de root Q dir fname) ->
  Forall Q (dump_content ds) ->
  Forall Q (dump_content
              (dump_of (dump_file_names fs dynamic de root dir file_names ds))).
Proof.
  revert ds. induction file_names as [|fname rest IH]; intros ds Hfiles Hds; simpl;
    [done|].
  destruct (should_exclude_file dynamic fname) eqn:Hex.
  - apply IH; [|done]. intros f Hf. apply Hfiles. by right.
  - destruct (relative_to (child dir fname) root) as [rel|] eqn:Hrel; [|done].
    apply IH.
    + intros f Hf. apply Hfiles. by right.
    + apply dump_one_file_holds; [|done..]. apply Hfiles; [by left | done].
Qed.

Lemma walk_dump_holds t :
  forall at_path ds,
    (forall dir fname,
       reaches (dump_keeps fs store root) t at_path dir fname ->
       is_path_effectively_selected fs store dir (Some root) = true ->
       should_exclude_file dynamic fname = false ->
       file_pieces fs de root Q dir fname) ->
    Forall Q (dump_content ds) ->
    Forall Q (dump_content
                (dump_of (walk_dump fs store dynamic de root t at_path ds))).
Proof.
  induction t as [fname|dname|dname items IH] using fs_node_nested_ind;
    intros at_path ds HQ Hds; [done..|].
  rewrite walk_dump_dir.
  set (keep := fun d => node_is_dir d
                        && dump_keeps fs store root (child at_path (node_name d))).
  assert (forall kept ds',
            Forall (fun d => d ∈ items /\ keep d = true) kept ->
            Forall Q (dump_content ds') ->
            Forall Q
              (dump_content
                 (dump_of
                    (fold_left
                       (fun acc d =>
                          match acc with
                          | inl ds'' => inl ds''
                          | inr ds'' =>
                              walk_dump fs store dynamic de root d
                                (child at_path (node_name d)) ds''
                          end)
                       kept (inr ds'))))) as Hfold.
  { induction kept as [|d kept IHkept]; intros ds' Hin Hds'; [done|].
    apply Forall_cons in Hin as [[Hd Hkeep] Hin]. simpl.
    rewrite Forall_forall in IH.
    specialize (IH d Hd (child at_path (node_name d)) ds').
    apply andb_true_iff in Hkeep as [_ Hkeep].
    destruct (walk_dump fs store dynamic de root d (child at_path (node_name d)) ds')
      as [ds2|ds2] eqn:Hwalk.
    - rewrite fold_left_inl_stops. apply IH; [|done].
      intros dir fname Hreach. apply HQ. by eapply reaches_below.
    - apply IHkept; [done|]. apply IH; [|done].
      intros dir fname Hreach. apply HQ. by eapply reaches_below. }
  assert (Forall (fun d => d ∈ items /\ keep d = true) (List.filter keep items))
    as Hkept.
  { apply Forall_forall. intros d Hd.
    apply list_elem_of_In, List.filter_In in Hd as [Hd Hk].
    split; [by apply list_elem_of_In | done]. }
  destruct (is_path_effectively_selected fs store at_path (Some root)) eqn:Hsel;
    cbn [negb]; [|by apply Hfold].
  pose proof (dump_file_names_holds at_path
                (node_name <$> List.filter (fun n => negb (node_is_dir n)) items) ds)
    as Hfiles.
  assert (forall fname,
            fname ∈ node_name <$> List.filter (fun n => negb (node_is_dir n)) items ->
            should_exclude_file dynamic fname = false ->
            file_pieces fs de root Q at_path fname) as Hhere.
  { intros fname Hf Hex. apply HQ; [|done..]. apply reaches_here.
    apply list_elem_of_fmap in Hf as (n & -> & Hn).
    apply list_elem_of_In, List.filter_In in Hn as [Hn Hfile].
    apply list_elem_of_In in Hn. by destruct n. }
  destruct (dump_file_names fs dynamic de root at_path _ ds) as [ds'|ds'].
  - by apply Hfiles.
  - apply Hfold; [done|]. by apply Hfiles.
Qed.

End dump_walk.



(** The dump of a project whose [node_modules] directory is checked: the
    dump leaves the directory out all the same, and it notes the file over
    the size limit and the binary one without their text. *)
Example dump_skips_builtin_excluded_folders :
  match dump_files_impl text_fs vendored_store {["*.tmp"]} text_env
          "2026-11-04_12-00-00" "2026-11-04 12:00:00" "/proj" vendored_disk with
  | Dump_written file_name content count =>
      file_name = "project_file_dump_2026-11-04_12-00-00.txt"
      /\ count = 2
      /\ List.filter
           (fun s => Str.startswith s (newline +:+ repeat_char "-" 20 +:+ " FILE: "))
           content
         = file_header <$> [ mkPath false ["main.py"]; mkPath false ["big.log"];
                             mkPath false ["logo.png"];
                             mkPath false ["src"; "util.py"] ]
  | _ => False
  end.
Proof. by vm_compute. Qed.
